(** * Bomberman-DOM: the [Player] entity of [src/entities/player.ts]

    A shallow embedding of the [Player] class: grid rules, bomb
    placement, explosion propagation, the damage handler and the timers
    they schedule, followed by the properties of the specification that
    concern them.

    Conventions of the embedding.
    - Numbers the code computes with are rationals: the logical
      position ([this.x], [this.y]), the speed, the bomb capacity and
      the explosion range (a stat update may set each of the three to
      any positive number); [Math.floor] is [Qfloor].  Cells, lives and
      the count of active bombs are integers.
    - The rendered scene is a [Document]: for each CSS class the code
      queries, the list of elements carrying it, each with the cell the
      scans read from its [style.left]/[style.top].  The pixel round
      trip [Math.floor(parseInt(`${c * TILE_SIZE}px`) / TILE_SIZE)] is
      the identity on the whole cells [c] the code writes for bombs and
      explosions; the element of the player is written at the player's
      position, which need not be whole, and its round trip is
      [style_cell].
    - [setTimeout] appends to a queue of pending timers; a timer is a
      deadline and the closure to run, given as a [TimerAction] with the
      variables the closure captured.
    - [eventBus.emit] and [sendToServer] append to a log of effects; an
      emitted topic the class subscribes to runs the handler of this
      instance before [emit] returns (the bus is synchronous). *)

From Stdlib Require Import ZArith QArith Qround List String Ascii Bool Lia.
From stdpp Require Import base decidable gmap.
Import ListNotations.

Local Open Scope string_scope.
Local Open Scope Z_scope.

(** ** JavaScript values carried by event payloads *)

Inductive jsval :=
| JUndefined
| JString (s : string)
| JNumber (n : Z).

#[global] Instance jsval_eq_dec : EqDecision jsval.
Proof. solve_decision. Defined.

(** [a === b] *)
Definition strict_eq (a b : jsval) : bool := bool_decide (a = b).

(** Truthiness, as used by [!v] and [a || b]. *)
Definition truthy (v : jsval) : bool :=
  match v with
  | JUndefined => false
  | JString s => negb (String.eqb s "")
  | JNumber n => negb (n =? 0)
  end.

(** [a || b] *)
Definition js_or (a b : jsval) : jsval := if truthy a then a else b.

Definition lower_ascii (c : ascii) : ascii :=
  let n := nat_of_ascii c in
  if andb (Nat.leb 65 n) (Nat.leb n 90) then ascii_of_nat (n + 32) else c.

(** [s.toLowerCase()] on the ASCII range. *)
Fixpoint toLowerCase (s : string) : string :=
  match s with
  | EmptyString => EmptyString
  | String c r => String (lower_ascii c) (toLowerCase r)
  end.

(** The members of the enum [PowerUpType]; it is declared in
    [game/powerups], which is not embedded here, so its members are
    parameters of the methods that use them. *)
Record PowerUpTypeT := { BOMB : jsval; FLAME : jsval; SPEED : jsval }.

(** ** Data model *)

Inductive Direction := UP | RIGHT | DOWN | LEFT | NONE.

#[global] Instance Direction_eq_dec : EqDecision Direction.
Proof. solve_decision. Defined.

Definition Cell : Type := Z * Z.

Definition cell_eqb (a b : Cell) : bool :=
  (fst a =? fst b) && (snd a =? snd b).

Record Player := {
  pid : string;
  nickname : string;
  px : Q;
  py : Q;
  direction : Direction;
  moving : bool;
  speed : Q;
  lives : Z;
  invulnerable : bool;
  invulnerabilityTimer : option nat;
  bombCapacity : Q;
  explosionRange : Q;
  playerElement : option nat;
  bombCooldown : bool;
  activeBombs : Z;
  gameContainer : bool;
  playerNumber : Z
}.

Definition invulnerabilityDuration : Z := 2000.
Definition bombCooldownTime : Z := 1000.

(** An element of class [player]: node handle, the id attribute without
    its [player-] prefix, and the cell that the scan of [checkPlayerHit]
    reads from its style. *)
Record PlayerEl := { el_node : nat; el_id : string; el_cell : Cell }.

(** An element of class [powerup]: node, cell, [data-type] attribute. *)
Record PowerUpEl := { pu_node : nat; pu_cell : Cell; pu_type : option string }.

(** An element of class [explosion]: node, second class name, cell. *)
Record ExplosionEl := { ex_node : nat; ex_name : string; ex_cell : Cell }.

Record Document := {
  blocks : list (nat * Cell);
  bombs : list (nat * Cell);
  greenSpaces : list Cell;
  players : list PlayerEl;
  powerups : list PowerUpEl;
  explosions : list ExplosionEl
}.

(** Payloads of the topics the class subscribes to. *)
Record HitData := { hit_playerId : jsval; hit_attackerId : jsval }.
Record PowerUpData := { pw_playerId : jsval; pw_type : jsval; pw_source : jsval }.
Record StatData := { st_playerId : jsval; st_type : jsval; st_value : option Q }.

(** What the instance publishes on the bus or sends to the relay. *)
Inductive Effect :=
| EmitPlayerMoved (id : string) (x y : Q)
| EmitPlayerHit (d : HitData)
| EmitPlayerDamaged (id : string) (livesRemaining : Z)
| EmitPlayerEliminated (id : string) (eliminatedBy : jsval)
| EmitInvulnerabilityStart (id : string)
| EmitInvulnerabilityEnd (id : string)
| EmitStatsUpdate (id : string) (speed bombCapacity explosionRange : Q) (lives : Z)
| EmitPowerupApplied (d : PowerUpData)
| EmitPowerupCollected (playerId type : string) (x y : Z)
| EmitBlockDestroyed (x y : Z)
| EmitBombPlaced (playerId : string) (x y : Z) (range : Q)
| SendMove (x y : Q) (d : Direction)
| SendDropBomb (x y : Z) (explosionRange : Q)
| SendBlockDestroyed (x y : Z)
| SendCollectPowerup (playerId : string) (stamp : Z) (powerupType : string) (x y : Z)
| SendPlayerHit (playerId : string) (attackerId : jsval)
| SendPlayerEliminatedLiteral (playerId : string) (attackerId : jsval)
| SendPlayerEliminated (playerId attackerId : string) (forceBroadcast : bool).

(** The closures handed to [setTimeout]. *)
Inductive TimerAction :=
| TRemovePlayerElement
| TPlayerDomCheck (node : nat)
| THitClassEnd
| TInvulnerabilityEnd
| TBombCooldownEnd
| TFuse (bomb : nat) (gridX gridY : Z)
| TExplosionRemove (el : nat)
| TBlockRemove (el : nat)
| TSpawnPowerup (x y : Z)
| TSpawnIndicatorRemove
| TNotificationRemove.

#[global] Instance TimerAction_eq_dec : EqDecision TimerAction.
Proof. solve_decision. Defined.

Record Timer := { tid : nat; due : Z; act : TimerAction }.

#[global] Instance Timer_eq_dec : EqDecision Timer.
Proof. solve_decision. Defined.

Record State := {
  me : Player;
  doc : Document;
  timers : list Timer;
  nextTimer : nat;
  nextNode : nat;
  now : Z;
  isGamePaused : bool;
  isGameOver : bool;
  storedPlayerId : option string;
  keyboard : bool;
  log : list Effect
}.

(** ** Grid rules *)

Definition GRID_WIDTH : Z := 14.
Definition GRID_HEIGHT : Z := 16.

Definition Qlt_bool (a b : Q) : bool := negb (Qle_bool b a).

Definition cell_of (x y : Q) : Cell := (Qfloor x, Qfloor y).

(** [parseInt(`${v}px`)]: the digits of the numeral up to the decimal
    point, that is the integer part of [v], rounded toward zero.  (The
    numeral is decimal for magnitudes from 1e-6 up to 1e21, the range
    of pixel values taken here; beyond it JavaScript prints an
    exponent.) *)
Definition parseInt_px (v : Q) : Z := Z.quot (Qnum v) (Zpos (Qden v)).

(** [isValidPosition(x, y)] *)
Definition isValidPosition (d : Document) (x y : Q) : bool :=
  if Qlt_bool x 0 || Qlt_bool y 0
     || Qle_bool (inject_Z GRID_WIDTH) x || Qle_bool (inject_Z GRID_HEIGHT) y
  then false
  else
    let gridX := Qfloor x in
    let gridY := Qfloor y in
    if (Z.rem gridX 2 =? 0) && (Z.rem gridY 2 =? 0) then false
    else if (gridX =? 0) || (gridY =? 0) then false
    else if existsb (cell_eqb (gridX, gridY)) (greenSpaces d) then true
    else if existsb (fun b => cell_eqb (gridX, gridY) (snd b)) (blocks d) then false
    else if existsb (fun b => cell_eqb (gridX, gridY) (snd b)) (bombs d) then false
    else true.

(** [isValidExplosionPosition(x, y)] *)
Definition isValidExplosionPosition (x y : Z) : bool :=
  if (x <? 0) || (y <? 0) || (x >? GRID_WIDTH) || (y >? GRID_HEIGHT) then false
  else if (Z.rem x 2 =? 0) && (Z.rem y 2 =? 0) then false
  else if (x =? 0) || (y =? 0) then false
  else true.

(** ** Field updates *)

Definition set_position (x y : Q) (p : Player) : Player :=
  {| pid := pid p; nickname := nickname p; px := x; py := y;
     direction := direction p; moving := moving p; speed := speed p;
     lives := lives p; invulnerable := invulnerable p;
     invulnerabilityTimer := invulnerabilityTimer p;
     bombCapacity := bombCapacity p; explosionRange := explosionRange p;
     playerElement := playerElement p; bombCooldown := bombCooldown p;
     activeBombs := activeBombs p; gameContainer := gameContainer p;
     playerNumber := playerNumber p |}.

Definition set_heading (d : Direction) (m : bool) (p : Player) : Player :=
  {| pid := pid p; nickname := nickname p; px := px p; py := py p;
     direction := d; moving := m; speed := speed p;
     lives := lives p; invulnerable := invulnerable p;
     invulnerabilityTimer := invulnerabilityTimer p;
     bombCapacity := bombCapacity p; explosionRange := explosionRange p;
     playerElement := playerElement p; bombCooldown := bombCooldown p;
     activeBombs := activeBombs p; gameContainer := gameContainer p;
     playerNumber := playerNumber p |}.

Definition set_stats (sp cap rng : Q) (p : Player) : Player :=
  {| pid := pid p; nickname := nickname p; px := px p; py := py p;
     direction := direction p; moving := moving p; speed := sp;
     lives := lives p; invulnerable := invulnerable p;
     invulnerabilityTimer := invulnerabilityTimer p;
     bombCapacity := cap; explosionRange := rng;
     playerElement := playerElement p; bombCooldown := bombCooldown p;
     activeBombs := activeBombs p; gameContainer := gameContainer p;
     playerNumber := playerNumber p |}.

Definition set_lives (l : Z) (p : Player) : Player :=
  {| pid := pid p; nickname := nickname p; px := px p; py := py p;
     direction := direction p; moving := moving p; speed := speed p;
     lives := l; invulnerable := invulnerable p;
     invulnerabilityTimer := invulnerabilityTimer p;
     bombCapacity := bombCapacity p; explosionRange := explosionRange p;
     playerElement := playerElement p; bombCooldown := bombCooldown p;
     activeBombs := activeBombs p; gameContainer := gameContainer p;
     playerNumber := playerNumber p |}.

Definition set_invulnerable (b : bool) (t : option nat) (p : Player) : Player :=
  {| pid := pid p; nickname := nickname p; px := px p; py := py p;
     direction := direction p; moving := moving p; speed := speed p;
     lives := lives p; invulnerable := b; invulnerabilityTimer := t;
     bombCapacity := bombCapacity p; explosionRange := explosionRange p;
     playerElement := playerElement p; bombCooldown := bombCooldown p;
     activeBombs := activeBombs p; gameContainer := gameContainer p;
     playerNumber := playerNumber p |}.

Definition set_playerElement (e : option nat) (p : Player) : Player :=
  {| pid := pid p; nickname := nickname p; px := px p; py := py p;
     direction := direction p; moving := moving p; speed := speed p;
     lives := lives p; invulnerable := invulnerable p;
     invulnerabilityTimer := invulnerabilityTimer p;
     bombCapacity := bombCapacity p; explosionRange := explosionRange p;
     playerElement := e; bombCooldown := bombCooldown p;
     activeBombs := activeBombs p; gameContainer := gameContainer p;
     playerNumber := playerNumber p |}.

Definition set_bombCooldown (b : bool) (p : Player) : Player :=
  {| pid := pid p; nickname := nickname p; px := px p; py := py p;
     direction := direction p; moving := moving p; speed := speed p;
     lives := lives p; invulnerable := invulnerable p;
     invulnerabilityTimer := invulnerabilityTimer p;
     bombCapacity := bombCapacity p; explosionRange := explosionRange p;
     playerElement := playerElement p; bombCooldown := b;
     activeBombs := activeBombs p; gameContainer := gameContainer p;
     playerNumber := playerNumber p |}.

Definition set_activeBombs (n : Z) (p : Player) : Player :=
  {| pid := pid p; nickname := nickname p; px := px p; py := py p;
     direction := direction p; moving := moving p; speed := speed p;
     lives := lives p; invulnerable := invulnerable p;
     invulnerabilityTimer := invulnerabilityTimer p;
     bombCapacity := bombCapacity p; explosionRange := explosionRange p;
     playerElement := playerElement p; bombCooldown := bombCooldown p;
     activeBombs := n; gameContainer := gameContainer p;
     playerNumber := playerNumber p |}.

Definition with_me (f : Player -> Player) (s : State) : State :=
  {| me := f (me s); doc := doc s; timers := timers s;
     nextTimer := nextTimer s; nextNode := nextNode s; now := now s;
     isGamePaused := isGamePaused s; isGameOver := isGameOver s;
     storedPlayerId := storedPlayerId s; keyboard := keyboard s;
     log := log s |}.

Definition with_doc (f : Document -> Document) (s : State) : State :=
  {| me := me s; doc := f (doc s); timers := timers s;
     nextTimer := nextTimer s; nextNode := nextNode s; now := now s;
     isGamePaused := isGamePaused s; isGameOver := isGameOver s;
     storedPlayerId := storedPlayerId s; keyboard := keyboard s;
     log := log s |}.

Definition with_flags (paused over : bool) (s : State) : State :=
  {| me := me s; doc := doc s; timers := timers s;
     nextTimer := nextTimer s; nextNode := nextNode s; now := now s;
     isGamePaused := paused; isGameOver := over;
     storedPlayerId := storedPlayerId s; keyboard := keyboard s;
     log := log s |}.

Definition with_storage (i : option string) (s : State) : State :=
  {| me := me s; doc := doc s; timers := timers s;
     nextTimer := nextTimer s; nextNode := nextNode s; now := now s;
     isGamePaused := isGamePaused s; isGameOver := isGameOver s;
     storedPlayerId := i; keyboard := keyboard s;
     log := log s |}.

Definition with_clock (t : Z) (ts : list Timer) (s : State) : State :=
  {| me := me s; doc := doc s; timers := ts;
     nextTimer := nextTimer s; nextNode := nextNode s; now := t;
     isGamePaused := isGamePaused s; isGameOver := isGameOver s;
     storedPlayerId := storedPlayerId s; keyboard := keyboard s;
     log := log s |}.

(** [eventBus.emit] of a topic without a handler in this class, and
    [sendToServer]. *)
Definition emit (e : Effect) (s : State) : State :=
  {| me := me s; doc := doc s; timers := timers s;
     nextTimer := nextTimer s; nextNode := nextNode s; now := now s;
     isGamePaused := isGamePaused s; isGameOver := isGameOver s;
     storedPlayerId := storedPlayerId s; keyboard := keyboard s;
     log := log s ++ [e] |}.

(** [setTimeout(a, delay)]; the identifier returned is [nextTimer s]. *)
Definition setTimeout (a : TimerAction) (delay : Z) (s : State) : State :=
  {| me := me s; doc := doc s;
     timers := timers s ++ [{| tid := nextTimer s; due := now s + delay; act := a |}];
     nextTimer := S (nextTimer s); nextNode := nextNode s; now := now s;
     isGamePaused := isGamePaused s; isGameOver := isGameOver s;
     storedPlayerId := storedPlayerId s; keyboard := keyboard s;
     log := log s |}.

(** [window.clearTimeout(t)] *)
Definition clearTimeout (t : nat) (s : State) : State :=
  with_clock (now s) (List.filter (fun tm => negb (Nat.eqb (tid tm) t)) (timers s)) s.

(** [document.createElement]; the node created is [nextNode s]. *)
Definition createElement (s : State) : State :=
  {| me := me s; doc := doc s; timers := timers s;
     nextTimer := nextTimer s; nextNode := S (nextNode s); now := now s;
     isGamePaused := isGamePaused s; isGameOver := isGameOver s;
     storedPlayerId := storedPlayerId s; keyboard := keyboard s;
     log := log s |}.

Definition set_blocks (l : list (nat * Cell)) (d : Document) : Document :=
  {| blocks := l; bombs := bombs d; greenSpaces := greenSpaces d;
     players := players d; powerups := powerups d; explosions := explosions d |}.

Definition set_bombs (l : list (nat * Cell)) (d : Document) : Document :=
  {| blocks := blocks d; bombs := l; greenSpaces := greenSpaces d;
     players := players d; powerups := powerups d; explosions := explosions d |}.

Definition set_players (l : list PlayerEl) (d : Document) : Document :=
  {| blocks := blocks d; bombs := bombs d; greenSpaces := greenSpaces d;
     players := l; powerups := powerups d; explosions := explosions d |}.

Definition set_powerups (l : list PowerUpEl) (d : Document) : Document :=
  {| blocks := blocks d; bombs := bombs d; greenSpaces := greenSpaces d;
     players := players d; powerups := l; explosions := explosions d |}.

Definition set_explosions (l : list ExplosionEl) (d : Document) : Document :=
  {| blocks := blocks d; bombs := bombs d; greenSpaces := greenSpaces d;
     players := players d; powerups := powerups d; explosions := l |}.

Definition remove_node {A} (node : A -> nat) (n : nat) (l : list A) : list A :=
  List.filter (fun e => negb (Nat.eqb (node e) n)) l.

(** ** The methods of [Player] *)

Section PlayerMethods.

(** [TILE_SIZE] of [game/constants], which is not embedded here: the
    side of a cell in pixels, a positive whole number. *)
Variable TILE_SIZE : positive.

(** [PowerUpType] of [game/powerups]. *)
Variable PowerUpType : PowerUpTypeT.

(** Modelled from the spec: [maybeSpawnPowerup] of [game/powerups], the
    power-up selection policy, "consumed as a pure function: cell to
    optional type"; [Some ty] is a power-up whose element carries
    [data-type = ty]. *)
Variable maybeSpawnPowerup : Z -> Z -> option string.

(** [isLocalPlayer()] *)
Definition isLocalPlayer (s : State) : bool :=
  match storedPlayerId s with
  | Some i => String.eqb (pid (me s)) i
  | None => false
  end.

(** The column (or row) the scans read from an element whose
    [style.left] (or [style.top]) was written for the coordinate [x]:
    [Math.floor(parseInt(`${x * TILE_SIZE}px`) / TILE_SIZE)]. *)
Definition style_coord (x : Q) : Z :=
  Qfloor (inject_Z (parseInt_px (x * inject_Z (Zpos TILE_SIZE)))
          / inject_Z (Zpos TILE_SIZE)).

Definition style_cell (x y : Q) : Cell := (style_coord x, style_coord y).

(** [updateVisualPosition()] *)
Definition updateVisualPosition (s : State) : State :=
  match playerElement (me s) with
  | Some n =>
      let c := style_cell (px (me s)) (py (me s)) in
      with_doc (fun d =>
        set_players
          (map (fun e => if Nat.eqb (el_node e) n
                         then {| el_node := n; el_id := el_id e; el_cell := c |}
                         else e) (players d)) d) s
  | None => s
  end.

(** [emitPositionUpdate()] *)
Definition emitPositionUpdate (s : State) : State :=
  emit (EmitPlayerMoved (pid (me s)) (px (me s)) (py (me s))) s.

(** [setPosition(x, y)] *)
Definition setPosition (x y : Q) (s : State) : State :=
  emitPositionUpdate (updateVisualPosition (with_me (set_position x y) s)).

(** [removePlayerElement()]; the fade-out is a style change only. *)
Definition removePlayerElement (s : State) : State :=
  match playerElement (me s) with
  | Some n =>
      if existsb (fun e => Nat.eqb (el_node e) n) (players (doc s))
      then setTimeout TRemovePlayerElement 500 s
      else s
  | None => s
  end.

(** [setDirection(direction)] *)
Definition setDirection (d : Direction) (s : State) : State :=
  with_me (set_heading d (negb (bool_decide (d = NONE)))) s.

(** [stopMovement()] *)
Definition stopMovement (s : State) : State :=
  with_me (set_heading NONE false) s.

(** [move(direction, deltaTime, collisionCallback)] *)
Definition move (d : Direction) (deltaTime : Q) (collisionCallback : Q -> Q -> bool)
    (s : State) : State :=
  if isGamePaused s then s
  else if bool_decide (d = NONE) then with_me (set_heading (direction (me s)) false) s
  else
    let s := with_me (set_heading d true) s in
    let distance := (speed (me s) * (deltaTime / 1000))%Q in
    let newX := match d with
                | RIGHT => (px (me s) + distance)%Q
                | LEFT => (px (me s) - distance)%Q
                | _ => px (me s)
                end in
    let newY := match d with
                | UP => (py (me s) - distance)%Q
                | DOWN => (py (me s) + distance)%Q
                | _ => py (me s)
                end in
    if negb (collisionCallback newX newY)
    then emitPositionUpdate (updateVisualPosition (with_me (set_position newX newY) s))
    else s.

(** [getStats()] and [emitStatsUpdate()] *)
Definition emitStatsUpdate (s : State) : State :=
  emit (EmitStatsUpdate (pid (me s)) (speed (me s)) (bombCapacity (me s))
          (explosionRange (me s)) (lives (me s))) s.

(** [handlePowerUp(data)] *)
Definition handlePowerUp (data : PowerUpData) (s : State) : State :=
  if negb (strict_eq (pw_playerId data) (JString (pid (me s)))) then s
  else if negb (truthy (pw_source data))
          || negb (strict_eq (pw_source data) (JString "visual_verification"))
  then s
  else
    let powerupType :=
      match pw_type data with
      | JString t =>
          let l := toLowerCase t in
          if String.eqb l "bomb" then BOMB PowerUpType
          else if String.eqb l "flame" then FLAME PowerUpType
          else if String.eqb l "speed" then SPEED PowerUpType
          else pw_type data
      | v => v
      end in
    let p := me s in
    if strict_eq powerupType (BOMB PowerUpType)
    then emitStatsUpdate
           (with_me (set_stats (speed p) (bombCapacity p + 1)%Q (explosionRange p)) s)
    else if strict_eq powerupType (FLAME PowerUpType)
    then emitStatsUpdate
           (with_me (set_stats (speed p) (bombCapacity p) (explosionRange p + 1)%Q) s)
    else if strict_eq powerupType (SPEED PowerUpType)
    then emitStatsUpdate
           (with_me (set_stats (speed p + (1 # 2))%Q (bombCapacity p) (explosionRange p)) s)
    else if strict_eq powerupType (JString "extraLife")
    then emitStatsUpdate (with_me (set_lives (lives p + 1)) s)
    else s.

(** [data.value > 0], for a payload whose [value] is a number or is
    absent. *)
Definition positive_value (v : option Q) : option Q :=
  match v with
  | Some n => if Qlt_bool 0 n then Some n else None
  | None => None
  end.

(** [handleStatUpdate(data)] *)
Definition handleStatUpdate (data : StatData) (s : State) : State :=
  if negb (strict_eq (st_playerId data) (JString (pid (me s)))) then s
  else
    let p := me s in
    let ty := st_type data in
    let s :=
      if strict_eq ty (JString "bombCapacity") || strict_eq ty (BOMB PowerUpType)
      then with_me (set_stats (speed p)
                      (match positive_value (st_value data) with
                       | Some v => v
                       | None => (bombCapacity p + 1)%Q
                       end) (explosionRange p)) s
      else if strict_eq ty (JString "explosionRange") || strict_eq ty (FLAME PowerUpType)
      then with_me (set_stats (speed p) (bombCapacity p)
                      (match positive_value (st_value data) with
                       | Some v => v
                       | None => (explosionRange p + 1)%Q
                       end)) s
      else if strict_eq ty (JString "speed") || strict_eq ty (SPEED PowerUpType)
      then with_me (set_stats
                      (match positive_value (st_value data) with
                       | Some v => v
                       | None => (speed p + (1 # 2))%Q
                       end) (bombCapacity p) (explosionRange p)) s
      else if strict_eq ty (JString "extraLife")
      then with_me (set_lives (lives p + 1)) s
      else s in
    emitStatsUpdate s.

(** [setInvulnerable()] *)
Definition setInvulnerable (s : State) : State :=
  let s := with_me (set_invulnerable true (invulnerabilityTimer (me s))) s in
  let s := match invulnerabilityTimer (me s) with
           | Some t => clearTimeout t s
           | None => s
           end in
  let t := nextTimer s in
  let s := setTimeout TInvulnerabilityEnd invulnerabilityDuration s in
  let s := with_me (set_invulnerable true (Some t)) s in
  emit (EmitInvulnerabilityStart (pid (me s))) s.

(** [handleHit(data)] *)
Definition handleHit (data : HitData) (s : State) : State :=
  if negb (strict_eq (hit_playerId data) (JString (pid (me s)))) then s
  else if invulnerable (me s) then s
  else
    let s := with_me (set_lives (lives (me s) - 1)) s in
    let s := match playerElement (me s) with
             | Some _ => setTimeout THitClassEnd 500 s
             | None => s
             end in
    let me_id := pid (me s) in
    let attacker := js_or (hit_attackerId data) (JString me_id) in
    let s := emit (EmitPlayerDamaged me_id (lives (me s))) s in
    let s := emit (SendPlayerHit me_id attacker) s in
    let s := setInvulnerable s in
    if lives (me s) <=? 0 then
      let s := removePlayerElement s in
      let s := emit (EmitPlayerEliminated me_id attacker) s in
      let s := emit (SendPlayerEliminatedLiteral me_id attacker) s in
      if strict_eq (hit_attackerId data) (JString me_id)
      then emit (SendPlayerEliminated me_id me_id true) s
      else s
    else s.

(** [eventBus.emit('player:hit', data)]: the handler of this instance
    runs before [emit] returns. *)
Definition emit_player_hit (data : HitData) (s : State) : State :=
  handleHit data (emit (EmitPlayerHit data) s).

(** [eventBus.emit('powerup:applied', data)] *)
Definition emit_powerup_applied (data : PowerUpData) (s : State) : State :=
  handlePowerUp data (emit (EmitPowerupApplied data) s).

(** The callback of [powerUpElements.forEach] in
    [checkForVisiblePowerUp]; [found] is [foundPowerUp].  The floating
    notification is an element outside the queried classes; its removal
    timer is kept. *)
Definition collect_powerup (gridX gridY : Z) (acc : bool * State) (el : PowerUpEl)
    : bool * State :=
  let '(found, s) := acc in
  if cell_eqb (pu_cell el) (gridX, gridY) then
    match pu_type el with
    | Some ty =>
        if found || String.eqb ty "" then acc
        else
          let s := setTimeout TNotificationRemove 1500 s in
          let s := with_doc (fun d =>
                     set_powerups (remove_node pu_node (pu_node el) (powerups d)) d) s in
          let me_id := pid (me s) in
          let s := emit (SendCollectPowerup me_id (now s) ty gridX gridY) s in
          let s := emit_powerup_applied
                     {| pw_playerId := JString me_id; pw_type := JString ty;
                        pw_source := JString "visual_verification" |} s in
          let s := emit (EmitPowerupCollected me_id ty gridX gridY) s in
          (true, s)
    | None => acc
    end
  else acc.

(** [checkForVisiblePowerUp()]; the closing call of
    [checkAndCollectPowerUp] only clears bookkeeping of [game/powerups]. *)
Definition checkForVisiblePowerUp (s : State) : State :=
  let gridX := Qfloor (px (me s)) in
  let gridY := Qfloor (py (me s)) in
  snd (fold_left (collect_powerup gridX gridY) (powerups (doc s)) (false, s)).

(** [placeBomb()] *)
Definition placeBomb (s : State) : State :=
  let p := me s in
  if negb (bool_decide (is_Some (playerElement p))) || negb (gameContainer p) then s
  else if isGamePaused s then s
  else if bombCooldown p then s
  else if Qle_bool (bombCapacity p) (inject_Z (activeBombs p)) then s
  else
    let gridX := Qfloor (px p) in
    let gridY := Qfloor (py p) in
    if existsb (fun b => cell_eqb (snd b) (gridX, gridY)) (bombs (doc s)) then s
    else
      let bomb := nextNode s in
      let s := createElement s in
      let s := with_doc (fun d => set_bombs (bombs d ++ [(bomb, (gridX, gridY))]) d) s in
      let s := with_me (set_activeBombs (activeBombs (me s) + 1)) s in
      let s := with_me (set_bombCooldown true) s in
      let s := setTimeout TBombCooldownEnd bombCooldownTime s in
      let s := emit (SendDropBomb gridX gridY (explosionRange (me s))) s in
      let s := emit (EmitBombPlaced (pid (me s)) gridX gridY (explosionRange (me s))) s in
      setTimeout (TFuse bomb gridX gridY) 2000 s.

(** The callback of [redBlocks.forEach] in [destroyBlockAt]; the
    [empty-space] element it adds is outside the queried classes. *)
Definition destroy_block (x y : Z) (s : State) (b : nat * Cell) : State :=
  let s := setTimeout (TBlockRemove (fst b)) 500 s in
  let s := emit (EmitBlockDestroyed x y) s in
  let s := if isLocalPlayer s then emit (SendBlockDestroyed x y) s else s in
  setTimeout (TSpawnPowerup x y) 400 s.

(** [destroyBlockAt(x, y, destroyedBlocks)]; the key [`${x},${y}`] of
    the set is the cell. *)
Definition destroyBlockAt (x y : Z) (destroyedBlocks : gset Cell) (s : State)
    : bool * gset Cell * State :=
  if negb (gameContainer (me s)) then (false, destroyedBlocks, s)
  else if bool_decide ((x, y) ∈ destroyedBlocks) then (false, destroyedBlocks, s)
  else
    let redBlocks := List.filter (fun b => cell_eqb (snd b) (x, y)) (blocks (doc s)) in
    if (0 <? Z.of_nat (length redBlocks))
    then (true, {[ (x, y) ]} ∪ destroyedBlocks, fold_left (destroy_block x y) redBlocks s)
    else (false, destroyedBlocks, s).

(** [checkPlayerHit(x, y)]; the handlers run by the emission move no
    element, so the cells read during the scan are those of its start. *)
Definition checkPlayerHit (x y : Z) (s : State) : State :=
  fold_left
    (fun s el =>
       if cell_eqb (el_cell el) (x, y)
       then emit_player_hit {| hit_playerId := JString (el_id el);
                               hit_attackerId := JString (pid (me s)) |} s
       else s)
    (players (doc s)) s.

Record Dir := { dx : Z; dy : Z; name : string }.

Definition directions : list Dir :=
  [ {| dx := 0; dy := -1; name := "up" |};
    {| dx := 1; dy := 0; name := "right" |};
    {| dx := 0; dy := 1; name := "down" |};
    {| dx := -1; dy := 0; name := "left" |} ].

Definition append_explosion (node : nat) (nm : string) (c : Cell) (s : State) : State :=
  with_doc (fun d =>
    set_explosions (explosions d ++ [{| ex_node := node; ex_name := nm; ex_cell := c |}]) d) s.

Definition self_hit (s : State) : HitData :=
  {| hit_playerId := JString (pid (me s)); hit_attackerId := JString (pid (me s)) |}.

(** The body of [for (let i = 1; i <= radius; i++)] in
    [createExplosion], for one direction; [n] counts the iterations
    left, [floor(radius) - i + 1]. *)
Fixpoint explosionRay (dir : Dir) (x y : Z) (n : nat) (i : Z)
    (acc : gset Cell * State) : gset Cell * State :=
  match n with
  | O => acc
  | S n' =>
      let '(destroyedBlocks, s) := acc in
      let explosionX := x + dx dir * i in
      let explosionY := y + dy dir * i in
      if negb (isValidExplosionPosition explosionX explosionY) then acc
      else
        let explosion := nextNode s in
        let s := createElement s in
        let s := if gameContainer (me s)
                 then append_explosion explosion (name dir) (explosionX, explosionY) s
                 else s in
        let '(wasDestroyed, destroyedBlocks, s) :=
          destroyBlockAt explosionX explosionY destroyedBlocks s in
        let s := checkPlayerHit explosionX explosionY s in
        let s := if isLocalPlayer s
                    && cell_eqb (cell_of (px (me s)) (py (me s))) (explosionX, explosionY)
                 then emit (SendPlayerHit (pid (me s)) (JString (pid (me s))))
                        (emit_player_hit (self_hit s) s)
                 else s in
        let s := setTimeout (TExplosionRemove explosion) 500 s in
        if wasDestroyed then (destroyedBlocks, s)
        else explosionRay dir x y n' (i + 1) (destroyedBlocks, s)
  end.

(** [createExplosion(x, y, radius)]; the style sheet it installs once is
    outside the queried classes.  The radius is read by the loop test
    [i <= radius] only, with [i = 1, 2, ...]: each ray makes
    [floor(radius)] iterations at most. *)
Definition createExplosion (x y : Z) (radius : Q) (s : State) : State :=
  if negb (gameContainer (me s)) then s
  else
    let destroyedBlocks : gset Cell := ∅ in
    let centerExplosion := nextNode s in
    let s := createElement s in
    let s := if gameContainer (me s)
             then append_explosion centerExplosion "center" (x, y) s
             else s in
    let s := setTimeout (TExplosionRemove centerExplosion) 500 s in
    let '(_, destroyedBlocks, s) := destroyBlockAt x y destroyedBlocks s in
    let s := checkPlayerHit x y s in
    let s := if isLocalPlayer s && cell_eqb (cell_of (px (me s)) (py (me s))) (x, y)
             then emit_player_hit (self_hit s) s
             else s in
    snd (fold_left (fun acc dir => explosionRay dir x y (Z.to_nat (Qfloor radius)) 1 acc)
           directions (destroyedBlocks, s)).

(** The [keydown] listener installed by [setupKeyboardControls]. *)
Definition handleKeyDown (key : string) (s : State) : State :=
  if negb (bool_decide (is_Some (playerElement (me s)))) then s
  else if isGamePaused s || isGameOver s then s
  else
    let p := me s in
    let arrow :=
      if String.eqb key "ArrowUp" then Some (px p, (py p - 1)%Q, UP)
      else if String.eqb key "ArrowRight" then Some ((px p + 1)%Q, py p, RIGHT)
      else if String.eqb key "ArrowDown" then Some (px p, (py p + 1)%Q, DOWN)
      else if String.eqb key "ArrowLeft" then Some ((px p - 1)%Q, py p, LEFT)
      else None in
    match arrow with
    | Some (newX, newY, d) =>
        let s := with_me (set_heading d (moving p)) s in
        let s :=
          if isValidPosition (doc s) newX newY
          then
            let s := with_me (set_position newX newY) s in
            let s := emitPositionUpdate (updateVisualPosition s) in
            if isLocalPlayer s then checkForVisiblePowerUp s else s
          else s in
        emit (SendMove (px (me s)) (py (me s)) (direction (me s))) s
    | None => if String.eqb key " " then placeBomb s else s
    end.

(** The closures run by the timer queue. *)
Definition run_timer (a : TimerAction) (s : State) : State :=
  match a with
  | TRemovePlayerElement =>
      match playerElement (me s) with
      | Some n =>
          if existsb (fun e => Nat.eqb (el_node e) n) (players (doc s))
          then with_me (set_playerElement None)
                 (with_doc (fun d => set_players (remove_node el_node n (players d)) d) s)
          else s
      | None => s
      end
  | TPlayerDomCheck node =>
      if existsb (fun e => String.eqb (el_id e) (pid (me s))) (players (doc s)) then s
      else if gameContainer (me s)
      then with_doc (fun d =>
             set_players (players d ++ [{| el_node := node; el_id := pid (me s);
                                           el_cell := style_cell (px (me s)) (py (me s)) |}]) d) s
      else s
  | THitClassEnd => s
  | TInvulnerabilityEnd =>
      emit (EmitInvulnerabilityEnd (pid (me s)))
        (with_me (set_invulnerable false None) s)
  | TBombCooldownEnd => with_me (set_bombCooldown false) s
  | TFuse bomb gridX gridY =>
      let s := with_doc (fun d => set_bombs (remove_node fst bomb (bombs d)) d) s in
      let s := with_me (set_activeBombs (activeBombs (me s) - 1)) s in
      createExplosion gridX gridY (explosionRange (me s)) s
  | TExplosionRemove el =>
      with_doc (fun d => set_explosions (remove_node ex_node el (explosions d)) d) s
  | TBlockRemove el =>
      with_doc (fun d => set_blocks (remove_node fst el (blocks d)) d) s
  | TSpawnPowerup x y =>
      match maybeSpawnPowerup x y with
      | Some ty =>
          if gameContainer (me s) then
            let node := nextNode s in
            let s := createElement s in
            let s := with_doc (fun d =>
                       set_powerups (powerups d ++ [{| pu_node := node; pu_cell := (x, y);
                                                       pu_type := Some ty |}]) d) s in
            setTimeout TSpawnIndicatorRemove 500 s
          else s
      | None => s
      end
  | TSpawnIndicatorRemove => s
  | TNotificationRemove => s
  end.

(** ** The instance in its environment *)

(** What can happen to the instance: a key press, a publication on a
    topic it subscribes to, a call of a public method, a change of the
    scene or of [localStorage] by other code, the passing of time, and
    the expiry of the next timer. *)
Inductive Label :=
| KeyDown (key : string)
| PowerupApplied (data : PowerUpData)
| StatUpdated (data : StatData)
| PlayerHit (data : HitData)
| GamePause
| GameResume
| GameEnd
| GameOver
| GameReset
| CallSetPosition (x y : Q)
| CallSetDirection (d : Direction)
| CallMove (d : Direction) (deltaTime : Q) (collisionCallback : Q -> Q -> bool)
| CallStopMovement
| CallRemovePlayerElement
| CallPlaceBomb
| CallCreateExplosion (x y : Z) (radius : Q)
| Scene (d : Document)
| Storage (i : option string)
| Idle (dt : Z)
| Fire.

Definition earlier (a b : Timer) : Timer := if due b <? due a then b else a.

(** The pending timer to expire next: the least deadline, the first
    registered among equals. *)
Definition next_timer (ts : list Timer) : option Timer :=
  match ts with
  | [] => None
  | t :: r => Some (fold_left earlier r t)
  end.

Definition step (l : Label) (s : State) : option State :=
  match l with
  | KeyDown key => Some (if keyboard s then handleKeyDown key s else s)
  | PowerupApplied data => Some (handlePowerUp data s)
  | StatUpdated data => Some (handleStatUpdate data s)
  | PlayerHit data => Some (handleHit data s)
  | GamePause => Some (with_flags true (isGameOver s) s)
  | GameResume => Some (with_flags false (isGameOver s) s)
  | GameEnd => Some (with_flags (isGamePaused s) true s)
  | GameOver => Some (with_flags (isGamePaused s) true s)
  | GameReset => Some (with_flags (isGamePaused s) false s)
  | CallSetPosition x y => Some (setPosition x y s)
  | CallSetDirection d => Some (setDirection d s)
  | CallMove d dt cb => Some (move d dt cb s)
  | CallStopMovement => Some (stopMovement s)
  | CallRemovePlayerElement => Some (removePlayerElement s)
  | CallPlaceBomb => Some (placeBomb s)
  | CallCreateExplosion x y radius => Some (createExplosion x y radius s)
  | Scene d => Some (with_doc (fun _ => d) s)
  | Storage i => Some (with_storage i s)
  | Idle dt =>
      if (0 <=? dt) && forallb (fun t => now s + dt <=? due t) (timers s)
      then Some (with_clock (now s + dt) (timers s) s)
      else None
  | Fire =>
      match next_timer (timers s) with
      | Some t =>
          Some (run_timer (act t)
                  (with_clock (Z.max (now s) (due t))
                     (List.filter (fun tm => negb (Nat.eqb (tid tm) (tid t))) (timers s)) s))
      | None => None
      end
  end.

Fixpoint run (ls : list Label) (s : State) : option State :=
  match ls with
  | [] => Some s
  | l :: r =>
      match step l s with
      | Some s' => run r s'
      | None => None
      end
  end.

(** [new Player(id, nickname, startX, startY, container, playerNum)] in
    a scene [d], at time [t0], with [localStorage.playerId = stored]. *)
Definition construct (id nick : string) (startX startY : Q) (container : bool)
    (playerNum : option Z) (d : Document) (stored : option string) (t0 : Z) : State :=
  let p := {| pid := id; nickname := nick; px := startX; py := startY;
              direction := NONE; moving := false; speed := 3;
              lives := 3; invulnerable := false; invulnerabilityTimer := None;
              bombCapacity := 1; explosionRange := 1; playerElement := None;
              bombCooldown := false; activeBombs := 0; gameContainer := container;
              playerNumber := match playerNum with
                              | Some n => if n =? 0 then 1 else n
                              | None => 1
                              end |} in
  let s := {| me := p; doc := d; timers := []; nextTimer := O; nextNode := O;
              now := t0; isGamePaused := false; isGameOver := false;
              storedPlayerId := stored; keyboard := false; log := [] |} in
  let s :=
    if container then
      let node := nextNode s in
      let s := createElement s in
      let s := with_doc (fun d =>
                 set_players (players d ++ [{| el_node := node; el_id := id;
                                               el_cell := style_cell startX startY |}]) d) s in
      let s := with_me (set_playerElement (Some node)) s in
      setTimeout (TPlayerDomCheck node) 500 s
    else s in
  {| me := me s; doc := doc s; timers := timers s;
     nextTimer := nextTimer s; nextNode := nextNode s; now := now s;
     isGamePaused := isGamePaused s; isGameOver := isGameOver s;
     storedPlayerId := storedPlayerId s; keyboard := isLocalPlayer s;
     log := log s |}.

End PlayerMethods.

(** A concrete tile size, [PowerUpType] and spawn policy, for the
    worked scenarios. *)
Definition tile : positive := 40.

Definition PowerUpType_strings : PowerUpTypeT :=
  {| BOMB := JString "bomb"; FLAME := JString "flame"; SPEED := JString "speed" |}.

Definition no_spawn (x y : Z) : option string := None.

Definition empty_scene : Document :=
  {| blocks := []; bombs := []; greenSpaces := []; players := [];
     powerups := []; explosions := [] |}.

(** ** Notions of the specification *)

(** A parity wall or a border wall of the data model. *)
Definition is_wall (x y : Z) : bool :=
  (Z.even x && Z.even y) || (x =? 0) || (y =? 0).


(** One iteration of the loop of [explosionRay] at a cell the blast
    enters, from the creation of its element to its removal timer. *)
Definition ray_body (dir : Dir) (ex ey : Z) (D : gset Cell) (s : State)
    : bool * gset Cell * State :=
  let explosion := nextNode s in
  let s := createElement s in
  let s := if gameContainer (me s)
           then append_explosion explosion (name dir) (ex, ey) s
           else s in
  let '(wasDestroyed, D, s) := destroyBlockAt ex ey D s in
  let s := checkPlayerHit ex ey s in
  let s := if isLocalPlayer s && cell_eqb (cell_of (px (me s)) (py (me s))) (ex, ey)
           then emit (SendPlayerHit (pid (me s)) (JString (pid (me s))))
                  (emit_player_hit (self_hit s) s)
           else s in
  (wasDestroyed, D, setTimeout (TExplosionRemove explosion) 500 s).

(** The cells [(x, y) + j.d] for [j = i, ..., i + n - 1]. *)
Fixpoint cells_from (dir : Dir) (x y : Z) (n : nat) (i : Z) : list Cell :=
  match n with
  | O => []
  | S n' => (x + dx dir * i, y + dy dir * i) :: cells_from dir x y n' (i + 1)
  end.

(** The cells a ray of radius [radius] from [(x, y)] may visit:
    C + 1.d, ..., C + R.d. *)
Definition ray_cells (dir : Dir) (x y radius : Z) : list Cell :=
  cells_from dir x y (Z.to_nat radius) 1.

Definition has_block (d : Document) (c : Cell) : bool :=
  existsb (fun b => cell_eqb (snd b) c) (blocks d).

(** The prefix of a ray that the specification describes: it ends
    before the first cell refused by the blast check, or with the first
    cell that holds a block. *)
Fixpoint blast_prefix (d : Document) (cells : list Cell) : list Cell :=
  match cells with
  | [] => []
  | c :: r =>
      if negb (isValidExplosionPosition (fst c) (snd c)) then []
      else if has_block d c then [c]
      else c :: blast_prefix d r
  end.

(** The cells of the explosion elements of class [nm] that [after] has
    in addition to [before]. *)
Definition rendered (nm : string) (before after : Document) : list Cell :=
  map ex_cell
    (List.filter (fun e => String.eqb (ex_name e) nm)
       (skipn (length (explosions before)) (explosions after))).

(** The [player:hit] payloads addressed to [id] among the effects [l]. *)
Definition hits_on (id : string) (l : list Effect) : list HitData :=
  flat_map (fun e => match e with
                     | EmitPlayerHit d =>
                         if strict_eq (hit_playerId d) (JString id) then [d] else []
                     | _ => []
                     end) l.

(** The cells a detonation at [(x, y)] resolves: the origin, then the
    prefix of each ray. *)
Definition blast_cells (d : Document) (x y radius : Z) : list Cell :=
  (x, y) :: flat_map (fun dir => blast_prefix d (ray_cells dir x y radius)) directions.

(** The [player:hit] payloads addressed to [id] that the resolution of
    the cell [c] publishes: one per element of class [player] with that
    id at [c], found by the scan of [checkPlayerHit], then one more when
    the instance is the local player and stands on [c]. *)
Definition scan_hits (s : State) (id : string) (c : Cell) : list HitData :=
  map (fun e => {| hit_playerId := JString (el_id e);
                   hit_attackerId := JString (pid (me s)) |})
      (List.filter (fun e => cell_eqb (el_cell e) c && String.eqb (el_id e) id)
         (players (doc s))).

Definition overlap_hits (s : State) (id : string) (c : Cell) : list HitData :=
  if isLocalPlayer s && cell_eqb (cell_of (px (me s)) (py (me s))) c
     && String.eqb (pid (me s)) id
  then [self_hit s] else [].

Definition cell_hits (s : State) (id : string) (c : Cell) : list HitData :=
  scan_hits s id c ++ overlap_hits s id c.

(** What the explosion leaves alone in the state it started from. *)
Definition still (s s' : State) : Prop :=
  blocks (doc s') = blocks (doc s)
  /\ players (doc s') = players (doc s)
  /\ pid (me s') = pid (me s)
  /\ px (me s') = px (me s)
  /\ py (me s') = py (me s)
  /\ gameContainer (me s') = gameContainer (me s)
  /\ storedPlayerId s' = storedPlayerId s.

(** The position and heading an arrow key asks for, from [(x, y)]. *)
Definition arrow_target (key : string) (x y : Q) : option (Q * Q * Direction) :=
  if String.eqb key "ArrowUp" then Some (x, (y - 1)%Q, UP)
  else if String.eqb key "ArrowRight" then Some ((x + 1)%Q, y, RIGHT)
  else if String.eqb key "ArrowDown" then Some (x, (y + 1)%Q, DOWN)
  else if String.eqb key "ArrowLeft" then Some ((x - 1)%Q, y, LEFT)
  else None.

(** A power-up element the player standing on [c] can collect: it is
    on [c] and carries a non-empty [data-type]. *)
Definition collectable (c : Cell) (el : PowerUpEl) : bool :=
  cell_eqb (pu_cell el) c
  && match pu_type el with
     | Some ty => negb (String.eqb ty "")
     | None => false
     end.

(** The key press [key] makes the player collect the element [el]: the
    player has its element, the game is neither paused nor over, the
    key is an arrow whose target [isValidPosition] accepts, the player
    is the local one, and [el] is the first element of class [powerup],
    in document order, that lies on the cell of the target and carries
    a non-empty [data-type]. *)
Definition key_collects (key : string) (s : State) (el : PowerUpEl) : Prop :=
  is_Some (playerElement (me s))
  /\ isGamePaused s = false /\ isGameOver s = false
  /\ isLocalPlayer s = true
  /\ exists tx ty dir,
       arrow_target key (px (me s)) (py (me s)) = Some (tx, ty, dir)
       /\ isValidPosition (doc s) tx ty = true
       /\ find (collectable (Qfloor tx, Qfloor ty)) (powerups (doc s)) = Some el.

(** The operations that hand the player an extra life: a verified
    [powerup:applied] or a [stat:updated] of type 'extraLife' addressed
    to the player, or a key press, received by the listener, whose move
    collects an element with [data-type] 'extraLife'. *)
Definition gains_life (l : Label) (s : State) : Prop :=
  match l with
  | PowerupApplied d =>
      pw_playerId d = JString (pid (me s))
      /\ pw_source d = JString "visual_verification"
      /\ pw_type d = JString "extraLife"
  | StatUpdated d =>
      st_playerId d = JString (pid (me s)) /\ st_type d = JString "extraLife"
  | KeyDown key =>
      keyboard s = true
      /\ exists el, key_collects key s el /\ pu_type el = Some "extraLife"
  | _ => False
  end.

(** The end of invulnerability [t] is pending: the flag is set, [t] is
    the timer the player holds, it is in the queue and is the only timer
    there that ends invulnerability; timer identifiers are distinct and
    below the next one to be handed out, and no deadline is in the past. *)
Definition pending (t : Timer) (s : State) : Prop :=
  invulnerable (me s) = true
  /\ invulnerabilityTimer (me s) = Some (tid t)
  /\ act t = TInvulnerabilityEnd
  /\ In t (timers s)
  /\ (forall u, In u (timers s) -> act u = TInvulnerabilityEnd -> u = t)
  /\ NoDup (map tid (timers s))
  /\ (forall u, In u (timers s) -> (tid u < nextTimer s)%nat)
  /\ (forall u, In u (timers s) -> now s <= due u).

(** The queue of a state the code can reach: identifiers are distinct
    and below the next one, no deadline is in the past, and a timer that
    ends invulnerability is the one the player holds. *)
Definition queue_ok (s : State) : Prop :=
  NoDup (map tid (timers s))
  /\ (forall u, In u (timers s) -> (tid u < nextTimer s)%nat)
  /\ (forall u, In u (timers s) -> now s <= due u)
  /\ (forall u, In u (timers s) -> act u = TInvulnerabilityEnd ->
                invulnerabilityTimer (me s) = Some (tid u)).

(** [still], and neither an explosion element nor a node is created. *)
Definition quiet (s s' : State) : Prop :=
  still s s'
  /\ explosions (doc s') = explosions (doc s)
  /\ nextNode s' = nextNode s.

(** The log of [s'] is the log of [s] followed by [l]. *)
Definition emits (s s' : State) (l : list Effect) : Prop :=
  log s' = (log s ++ l)%list.

(** [quiet], and no [player:hit] is published. *)
Definition silent (s s' : State) : Prop :=
  quiet s s' /\ exists l, emits s s' l /\ forall id, hits_on id l = [].

(** ** States and runs of the worked scenarios *)

Definition PowerUpType_numbers : PowerUpTypeT :=
  {| BOMB := JNumber 0; FLAME := JNumber 1; SPEED := JNumber 2 |}.

(** The local player "p1", just created on cell (1, 1) of an empty
    scene at time 0. *)
Definition fresh : State :=
  construct tile "p1" "Ann" 1 1 true None empty_scene (Some "p1") 0.

Definition hit_by (attacker : string) : HitData :=
  {| hit_playerId := JString "p1"; hit_attackerId := JString attacker |}.

Definition flame_collected : PowerUpData :=
  {| pw_playerId := JString "p1"; pw_type := JString "flame";
     pw_source := JString "visual_verification" |}.

Definition extra_life_collected : PowerUpData :=
  {| pw_playerId := JString "p1"; pw_type := JString "extraLife";
     pw_source := JString "visual_verification" |}.

Definition extra_life_stat : StatData :=
  {| st_playerId := JString "p1"; st_type := JString "extraLife"; st_value := None |}.

(** The player drops a bomb, collects a flame power-up during the fuse,
    and the timers expire up to the fuse: the scene check at 500 ms,
    the end of the cooldown at 1000 ms, the fuse at 2000 ms. *)
Definition upgrade_during_fuse : list Label :=
  [KeyDown " "; PowerupApplied flame_collected; Fire; Fire; Fire].

(** Three hits by "p2", each after the previous window of
    invulnerability has ended; the third takes the lives to 0. *)
Definition three_hits : list Label :=
  [PlayerHit (hit_by "p2"); Fire; Fire; Fire;
   PlayerHit (hit_by "p2"); Fire; Fire;
   PlayerHit (hit_by "p2")].

(** 100 ms after the elimination the player drops a bomb, stays on its
    cell, and the timers expire up to the fuse of that bomb. *)
Definition bomb_after_elimination : list Label :=
  [Idle 100; KeyDown " "; Fire; Fire; Fire; Fire; Fire].

(** The state of a run that does not get stuck. *)
Definition outcome (PT : PowerUpTypeT) (ls : list Label) (s : State) : State :=
  match run tile PT no_spawn ls s with
  | Some s' => s'
  | None => s
  end.

(** The state after the fuse of the bomb dropped before the upgrade. *)
Definition upgraded : State := outcome PowerUpType_strings upgrade_during_fuse fresh.

(** The state after the three hits, and after the bomb that follows. *)
Definition eliminated : State := outcome PowerUpType_strings three_hits fresh.

Definition bombed_again : State :=
  outcome PowerUpType_strings bomb_after_elimination eliminated.

(** The same run up to the expiry of the fuse, and the state it
    reaches: the bomb is armed under the player, whose element is gone. *)
Definition before_fuse : list Label :=
  [Idle 100; KeyDown " "; Fire; Fire; Fire; Fire].

Definition pre_fuse : State := outcome PowerUpType_strings before_fuse eliminated.

(** A fresh player after an 'extraLife' stat update or power-up. *)
Definition with_extra_life (PT : PowerUpTypeT) (l : Label) : State :=
  outcome PT [l] fresh.

(** A player on the last life, and the same player 100 ms after the
    hit that takes it. *)
Definition last_life : State := with_me (set_lives 1) fresh.

Definition just_eliminated : State := handleHit (hit_by "p2") last_life.

Definition soon_after : State := outcome PowerUpType_strings [Idle 100] just_eliminated.

(** A scene with one block, on cell (3, 1), and the player in it. *)
Definition one_block : Document :=
  {| blocks := [(7%nat, (3, 1))]; bombs := []; greenSpaces := []; players := [];
     powerups := []; explosions := [] |}.

Definition walled_in : State :=
  construct tile "p1" "Ann" 1 1 true None one_block (Some "p1") 0.

(** The fresh player with an 'extraLife' power-up on the cell to its
    right, (2, 1), and another one far away, on (9, 9). *)
Definition life_ahead : State :=
  with_doc (set_powerups
              [ {| pu_node := 8%nat; pu_cell := (9, 9); pu_type := Some "extraLife" |};
                {| pu_node := 9%nat; pu_cell := (2, 1); pu_type := Some "extraLife" |} ])
    fresh.

(** The fresh player after one hit, and after dropping a bomb. *)
Definition hit_once : State := handleHit (hit_by "p2") fresh.

Definition bomb_dropped : State := placeBomb fresh.

(** ** Further notions *)

(** The flag and its timer go together: when the player is
    invulnerable the end of invulnerability is pending and due within
    the window; when not, the player holds no timer. *)
Definition flag_ok (s : State) : Prop :=
  queue_ok s
  /\ if invulnerable (me s)
     then exists t, pending t s /\ due t <= now s + invulnerabilityDuration
     else invulnerabilityTimer (me s) = None.

(** A hit whose payload names no attacker. *)
Definition anonymous_hit : HitData :=
  {| hit_playerId := JString "p1"; hit_attackerId := JUndefined |}.

(** The player on cell (1, 1) of the fresh state presses the right
    arrow: cell (2, 1) is free. *)
Definition stepped_right : State :=
  handleKeyDown tile PowerUpType_strings "ArrowRight" fresh.

(** Two flame power-ups on cell (1, 1), under the fresh player. *)
Definition two_flames : State :=
  with_doc (set_powerups [ {| pu_node := 8%nat; pu_cell := (1, 1); pu_type := Some "flame" |};
                           {| pu_node := 9%nat; pu_cell := (1, 1); pu_type := Some "flame" |} ])
    fresh.

(** The stats a bomb and a move rely on are positive. *)
Definition stats_positive (s : State) : Prop :=
  (0 < bombCapacity (me s))%Q /\ (0 < explosionRange (me s))%Q /\ (0 < speed (me s))%Q.

(** A stat update that sets the bomb capacity of "p1" to 1/2, and the
    fresh player after it. *)
Definition half_capacity : StatData :=
  {| st_playerId := JString "p1"; st_type := JString "bombCapacity";
     st_value := Some (1 # 2)%Q |}.

Definition halved : State := outcome PowerUpType_strings [StatUpdated half_capacity] fresh.

(** No two bomb elements lie on one cell. *)
Definition bombs_apart (s : State) : Prop := NoDup (map snd (bombs (doc s))).

(** The cells of the [block:destroyed] events among the effects [l]. *)
Definition destroyed_in (l : list Effect) : list Cell :=
  flat_map (fun e => match e with
                     | EmitBlockDestroyed x y => [(x, y)]
                     | _ => []
                     end) l.

(** The block elements of the scene that lie on the cell [c]. *)
Definition blocks_at (d : Document) (c : Cell) : list (nat * Cell) :=
  List.filter (fun b => cell_eqb (snd b) c) (blocks d).

(** A detonation of radius 3 at (1, 1) in the scene with a block on
    (3, 1). *)
Definition block_blasted : State := createExplosion 1 1 3 walled_in.

(** A player built while [localStorage.playerId] names somebody else,
    and the same player after the stored identifier is changed to its
    own. *)
Definition remote : State :=
  construct tile "p1" "Ann" 1 1 true None empty_scene (Some "p2") 0.

Definition remote_renamed : State := with_storage (Some "p1") remote.

(** The eliminated player after the three timers due 500 ms later have
    expired: the scene check of the constructor, the end of the hit
    class, and the removal of the element. *)
Definition gone : State := outcome PowerUpType_strings [Fire; Fire; Fire] just_eliminated.

(** The operations whose code reads [isGamePaused] or [isGameOver], or
    writes them. *)
Definition consults_flags (l : Label) : bool :=
  match l with
  | KeyDown _ | CallMove _ _ _ | CallPlaceBomb
  | GamePause | GameResume | GameEnd | GameOver | GameReset => true
  | _ => false
  end.

(** The scene, the position and the element handle are those of [s]. *)
Definition same_place (s s' : State) : Prop :=
  players (doc s') = players (doc s)
  /\ px (me s') = px (me s) /\ py (me s') = py (me s)
  /\ playerElement (me s') = playerElement (me s).

(** The element the player holds is drawn where the player is: an
    element of class [player] with the handle of [playerElement] is
    read on the cell written for the player's position. *)
Definition rendered_in_place (TS : positive) (s : State) : Prop :=
  forall e, In e (players (doc s)) -> playerElement (me s) = Some (el_node e) ->
            el_cell e = style_cell TS (px (me s)) (py (me s)).

(** The fresh player moved to (3/2, 1) by [setPosition]. *)
Definition moved_half : State := setPosition tile (3 # 2) 1 fresh.
Local Open Scope list_scope.

(** ** Grid rules: walls and bounds *)

Lemma rem2_even (x : Z) : (Z.rem x 2 =? 0) = Z.even x.
Proof.
  destruct (Z.le_gt_cases 0 x) as [Hx | Hx].
  - rewrite Z.rem_mod_nonneg by lia. rewrite Zmod_even.
    destruct (Z.even x); reflexivity.
  - replace x with (- (- x)) by lia.
    rewrite Z.rem_opp_l by lia. rewrite Z.even_opp.
    rewrite Z.rem_mod_nonneg by lia. rewrite Zmod_even.
    destruct (Z.even (- x)); reflexivity.
Qed.

Lemma isValidExplosionPosition_spec (x y : Z) :
  isValidExplosionPosition x y
  = (0 <=? x) && (0 <=? y) && (x <=? GRID_WIDTH) && (y <=? GRID_HEIGHT)
    && negb (is_wall x y).
Proof.
  unfold isValidExplosionPosition, is_wall, GRID_WIDTH, GRID_HEIGHT.
  rewrite !rem2_even.
  destruct (Z.ltb_spec x 0), (Z.ltb_spec y 0), (Z.gtb_spec x 14), (Z.gtb_spec y 16),
    (Z.leb_spec 0 x), (Z.leb_spec 0 y), (Z.leb_spec x 14), (Z.leb_spec y 16);
    try lia; simpl; try reflexivity.
  destruct (Z.even x && Z.even y); simpl; [reflexivity|].
  destruct ((x =? 0) || (y =? 0)); reflexivity.
Qed.

Lemma isValidPosition_wall (d : Document) (x y : Q) :
  is_wall (Qfloor x) (Qfloor y) = true -> isValidPosition d x y = false.
Proof.
  unfold isValidPosition, is_wall. intros H.
  destruct (Qlt_bool x 0 || Qlt_bool y 0 || Qle_bool (inject_Z GRID_WIDTH) x
            || Qle_bool (inject_Z GRID_HEIGHT) y); [reflexivity|].
  rewrite !rem2_even.
  destruct (Z.even (Qfloor x) && Z.even (Qfloor y)); [reflexivity|].
  simpl in H. rewrite H. reflexivity.
Qed.

Lemma isValidPosition_far (d : Document) (x y : Q) :
  (inject_Z GRID_WIDTH <= x)%Q \/ (inject_Z GRID_HEIGHT <= y)%Q ->
  isValidPosition d x y = false.
Proof.
  unfold isValidPosition. intros [H | H]; apply Qle_bool_iff in H; rewrite H;
    rewrite ?orb_true_r; reflexivity.
Qed.

Lemma explosionRay_blocked dir x y n i acc :
  isValidExplosionPosition (x + dx dir * i) (y + dy dir * i) = false ->
  explosionRay dir x y n i acc = acc.
Proof.
  intros H. destruct n as [|n]; [reflexivity|].
  destruct acc as [D s]. simpl. rewrite H. reflexivity.
Qed.

(** C4. Every cell with both coordinates even, or with x = 0, or with
    y = 0, is refused by the movement check and by the blast check, and
    an explosion ray that reaches it there leaves the explosion as it
    was: nothing is rendered or resolved at it or beyond it. *)
Theorem wall_cells_stop_movement_and_blast (d : Document) (x y : Z) :
  (Z.even x = true /\ Z.even y = true) \/ x = 0 \/ y = 0 ->
  isValidPosition d (inject_Z x) (inject_Z y) = false
  /\ isValidExplosionPosition x y = false
  /\ forall dir ox oy n i acc,
       ox + dx dir * i = x -> oy + dy dir * i = y ->
       explosionRay dir ox oy n i acc = acc.
Proof.
  intros H.
  assert (Hw : is_wall x y = true).
  { unfold is_wall. destruct H as [[Hx Hy] | [-> | ->]].
    - rewrite Hx, Hy. reflexivity.
    - rewrite orb_true_r. reflexivity.
    - rewrite Z.eqb_refl, orb_true_r. reflexivity. }
  assert (He : isValidExplosionPosition x y = false).
  { rewrite isValidExplosionPosition_spec, Hw. apply andb_false_r. }
  split; [|split].
  - apply isValidPosition_wall. rewrite !Qfloor_Z. exact Hw.
  - exact He.
  - intros dir ox oy n i acc Hx Hy. apply explosionRay_blocked.
    rewrite Hx, Hy. exact He.
Qed.

Lemma wall_cells_stop_movement_and_blast_witness :
  isValidPosition empty_scene (inject_Z 4) (inject_Z 6) = false
  /\ isValidExplosionPosition 4 6 = false
  /\ forall dir ox oy n i acc,
       ox + dx dir * i = 4 -> oy + dy dir * i = 6 ->
       explosionRay dir ox oy n i acc = acc.
Proof.
  apply (wall_cells_stop_movement_and_blast empty_scene 4 6).
  left. split; reflexivity.
Defined.

(** C8. With [GRID_WIDTH = 14] and [GRID_HEIGHT = 16], the blast check
    accepts every cell of the far border column x = 14 or row y = 16
    that its bounds check lets through and that is no parity or border
    wall, whereas the movement check refuses every position with
    x >= 14 or y >= 16; both refuse x = 0 and y = 0. *)
Theorem blast_bounds_include_far_border :
  GRID_WIDTH = 14 /\ GRID_HEIGHT = 16
  /\ (forall x y : Z,
        x = 14 \/ y = 16 ->
        0 <= x <= 14 -> 0 <= y <= 16 -> is_wall x y = false ->
        isValidExplosionPosition x y = true)
  /\ (forall x y : Z, isValidExplosionPosition x y = true -> x <= 14 /\ y <= 16)
  /\ (forall (d : Document) (x y : Q),
        (14 <= x)%Q \/ (16 <= y)%Q -> isValidPosition d x y = false)
  /\ (forall (d : Document) (x y : Q),
        (x == 0)%Q \/ (y == 0)%Q -> isValidPosition d x y = false)
  /\ (forall x y : Z, x = 0 \/ y = 0 -> isValidExplosionPosition x y = false).
Proof.
  split; [reflexivity|]. split; [reflexivity|].
  split; [|split; [|split; [|split]]].
  - intros x y _ Hx Hy Hw. rewrite isValidExplosionPosition_spec, Hw.
    unfold GRID_WIDTH, GRID_HEIGHT.
    destruct (Z.leb_spec 0 x), (Z.leb_spec 0 y), (Z.leb_spec x 14), (Z.leb_spec y 16);
      try lia; reflexivity.
  - intros x y H. rewrite isValidExplosionPosition_spec in H.
    unfold GRID_WIDTH, GRID_HEIGHT in H.
    destruct (Z.leb_spec x 14), (Z.leb_spec y 16); try lia;
      rewrite ?andb_false_r in H; simpl in H; discriminate.
  - intros d x y H. apply isValidPosition_far. exact H.
  - intros d x y H. apply isValidPosition_wall. unfold is_wall.
    destruct H as [H | H]; rewrite H; simpl; rewrite ?orb_true_r; reflexivity.
  - intros x y H. rewrite isValidExplosionPosition_spec.
    replace (is_wall x y) with true; [apply andb_false_r|].
    unfold is_wall. destruct H as [-> | ->]; simpl; rewrite ?orb_true_r; reflexivity.
Qed.

Lemma blast_bounds_include_far_border_witness :
  isValidExplosionPosition 14 1 = true
  /\ isValidExplosionPosition 3 16 = true
  /\ isValidPosition empty_scene (inject_Z 14) (inject_Z 1) = false
  /\ isValidPosition empty_scene (inject_Z 3) (inject_Z 16) = false
  /\ isValidPosition empty_scene 0 (inject_Z 3) = false
  /\ isValidExplosionPosition 0 3 = false.
Proof.
  destruct blast_bounds_include_far_border as (_ & _ & Hb & _ & Hm & Hz & He).
  refine (conj _ (conj _ (conj _ (conj _ (conj _ _))))).
  - apply (Hb 14 1); [left; reflexivity | lia | lia | reflexivity].
  - apply (Hb 3 16); [right; reflexivity | lia | lia | reflexivity].
  - apply (Hm empty_scene (inject_Z 14) (inject_Z 1)). left. apply Qle_refl.
  - apply (Hm empty_scene (inject_Z 3) (inject_Z 16)). right. apply Qle_refl.
  - apply (Hz empty_scene 0%Q (inject_Z 3)). left. reflexivity.
  - apply (He 0 3). left. reflexivity.
Defined.

(** ** Refused actions change nothing *)

Ltac break_if :=
  match goal with
  | |- context [if ?b then _ else _] => destruct b eqn:?
  end.

Ltac break_match :=
  match goal with
  | |- context [match ?b with _ => _ end] => destruct b eqn:?
  end.

Lemma handleHit_invulnerable (data : HitData) (s : State) :
  invulnerable (me s) = true -> handleHit data s = s.
Proof. intros Hinv. unfold handleHit. rewrite Hinv. break_if; reflexivity. Qed.

(** C7. A damage event delivered while the invulnerable flag is set
    leaves the whole state as it was: lives, the log of published events
    and relay messages, and the queue of pending timers (so the pending
    end of invulnerability is neither cleared nor rescheduled). *)
Theorem hit_while_invulnerable_changes_nothing (data : HitData) (s : State) :
  invulnerable (me s) = true ->
  handleHit data s = s
  /\ lives (me (handleHit data s)) = lives (me s)
  /\ log (handleHit data s) = log s
  /\ timers (handleHit data s) = timers s
  /\ invulnerabilityTimer (me (handleHit data s)) = invulnerabilityTimer (me s).
Proof.
  intros Hinv. rewrite (handleHit_invulnerable data s Hinv). repeat split.
Qed.

(** C6. [placeBomb] called during the placement cooldown, or at bomb
    capacity, or on a cell that already holds a bomb, returns the state
    unchanged: no field of the player, no bomb element, no pending
    timer, no DROP_BOMB message and no bomb:placed event. *)
Theorem placeBomb_refused_changes_nothing (s : State) :
  bombCooldown (me s) = true
  \/ (bombCapacity (me s) <= inject_Z (activeBombs (me s)))%Q
  \/ (exists b, In b (bombs (doc s))
                /\ snd b = (Qfloor (px (me s)), Qfloor (py (me s)))) ->
  placeBomb s = s
  /\ me (placeBomb s) = me s
  /\ bombs (doc (placeBomb s)) = bombs (doc s)
  /\ timers (placeBomb s) = timers s
  /\ log (placeBomb s) = log s.
Proof.
  intros H.
  assert (E : placeBomb s = s).
  { unfold placeBomb.
    destruct (negb (bool_decide (is_Some (playerElement (me s))))
              || negb (gameContainer (me s))); [reflexivity|].
    destruct (isGamePaused s); [reflexivity|].
    destruct (bombCooldown (me s)) eqn:Hc; [reflexivity|].
    destruct (Qle_bool (bombCapacity (me s)) (inject_Z (activeBombs (me s)))) eqn:Hq;
      [reflexivity|].
    destruct H as [H | [H | (b & Hin & Hb)]];
      [discriminate | apply Qle_bool_iff in H; congruence |].
    replace (existsb _ (bombs (doc s))) with true; [reflexivity|].
    symmetry. apply existsb_exists. exists b. split; [exact Hin|].
    rewrite Hb. unfold cell_eqb. simpl. rewrite !Z.eqb_refl. reflexivity. }
  rewrite E. repeat split.
Qed.

(** ** Properties kept by the explosion and by the plain operations *)

Lemma fold_left_keeps {A} (P : State -> Prop) (f : State -> A -> State) (l : list A) :
  (forall s a, P s -> P (f s a)) -> forall s, P s -> P (fold_left f l s).
Proof.
  intros Hf. induction l as [|a l IH]; intros s Hs; simpl; [exact Hs|].
  apply IH, Hf, Hs.
Qed.

Lemma explosionRay_S dir x y n i D s :
  explosionRay dir x y (S n) i (D, s)
  = if negb (isValidExplosionPosition (x + dx dir * i) (y + dy dir * i)) then (D, s)
    else
      let r := ray_body dir (x + dx dir * i) (y + dy dir * i) D s in
      if fst (fst r) then (snd (fst r), snd r)
      else explosionRay dir x y n (i + 1) (snd (fst r), snd r).
Proof.
  simpl. unfold ray_body.
  destruct (negb (isValidExplosionPosition (x + dx dir * i) (y + dy dir * i)));
    [reflexivity|].
  destruct (destroyBlockAt _ _ _ _) as [[w D'] s']. reflexivity.
Qed.

Lemma strict_eq_true a b : strict_eq a b = true -> a = b.
Proof. unfold strict_eq. apply bool_decide_eq_true_1. Qed.

Lemma strict_eq_refl a : strict_eq a a = true.
Proof. unfold strict_eq. apply bool_decide_eq_true_2. reflexivity. Qed.

Lemma handleHit_lives d s : lives (me (handleHit d s)) <= lives (me s).
Proof.
  unfold handleHit, setInvulnerable, removePlayerElement.
  repeat (first [break_if | break_match]; simpl); lia.
Qed.

Lemma handlePowerUp_cases PT d s :
  handlePowerUp PT d s = s
  \/ (exists sp cap rng,
        handlePowerUp PT d s = emitStatsUpdate (with_me (set_stats sp cap rng) s))
  \/ (gains_life (PowerupApplied d) s
      /\ handlePowerUp PT d s
         = emitStatsUpdate (with_me (set_lives (lives (me s) + 1)) s)).
Proof.
  unfold handlePowerUp.
  destruct (strict_eq (pw_playerId d) (JString (pid (me s)))) eqn:Hid; simpl;
    [|left; reflexivity].
  destruct (truthy (pw_source d)); simpl; [|left; reflexivity].
  destruct (strict_eq (pw_source d) (JString "visual_verification")) eqn:Hsrc; simpl;
    [|left; reflexivity].
  match goal with
  | |- context [strict_eq ?e (BOMB PT)] => set (pt := e)
  end.
  assert (Hpt : pt = pw_type d \/ pt = BOMB PT \/ pt = FLAME PT \/ pt = SPEED PT).
  { subst pt. destruct (pw_type d); auto. repeat break_if; auto. }
  clearbody pt.
  destruct (strict_eq pt (BOMB PT)) eqn:E1; [right; left; eauto|].
  destruct (strict_eq pt (FLAME PT)) eqn:E2; [right; left; eauto|].
  destruct (strict_eq pt (SPEED PT)) eqn:E3; [right; left; eauto|].
  destruct (strict_eq pt (JString "extraLife")) eqn:E4; [|left; reflexivity].
  right; right. split; [|reflexivity].
  destruct Hpt as [-> | [-> | [-> | ->]]];
    rewrite ?strict_eq_refl in *; try discriminate.
  repeat split; apply strict_eq_true; assumption.
Qed.

Lemma handleStatUpdate_cases PT d s :
  handleStatUpdate PT d s = s
  \/ (exists sp cap rng,
        handleStatUpdate PT d s = emitStatsUpdate (with_me (set_stats sp cap rng) s))
  \/ handleStatUpdate PT d s = emitStatsUpdate s
  \/ (gains_life (StatUpdated d) s
      /\ handleStatUpdate PT d s
         = emitStatsUpdate (with_me (set_lives (lives (me s) + 1)) s)).
Proof.
  unfold handleStatUpdate.
  destruct (strict_eq (st_playerId d) (JString (pid (me s)))) eqn:Hid; simpl;
    [|left; reflexivity].
  destruct (strict_eq (st_type d) (JString "bombCapacity") || _);
    [right; left; eauto|].
  destruct (strict_eq (st_type d) (JString "explosionRange") || _);
    [right; left; eauto|].
  destruct (strict_eq (st_type d) (JString "speed") || _);
    [right; left; eauto|].
  destruct (strict_eq (st_type d) (JString "extraLife")) eqn:E;
    [|right; right; left; reflexivity].
  right; right; right. split; [|reflexivity].
  split; apply strict_eq_true; assumption.
Qed.

Create HintDb stable.

Section Stable.

Variable P : State -> Prop.
Hypothesis P_emit : forall e s, P s -> P (emit e s).
Hypothesis P_node : forall s, P s -> P (createElement s).
Hypothesis P_doc : forall f s, P s -> P (with_doc f s).
Hypothesis P_append : forall n nm c s, P s -> P (append_explosion n nm c s).
Hypothesis P_timeout :
  forall a d s, a <> TInvulnerabilityEnd -> 0 <= d -> P s -> P (setTimeout a d s).
Hypothesis P_hit : forall d s, P s -> P (handleHit d s).
Hypothesis P_position : forall x y s, P s -> P (with_me (set_position x y) s).
Hypothesis P_heading : forall d m s, P s -> P (with_me (set_heading d m) s).
Hypothesis P_element : forall e s, P s -> P (with_me (set_playerElement e) s).
Hypothesis P_cooldown : forall b s, P s -> P (with_me (set_bombCooldown b) s).
Hypothesis P_active : forall n s, P s -> P (with_me (set_activeBombs n) s).
Hypothesis P_flags : forall a b s, P s -> P (with_flags a b s).
Hypothesis P_storage : forall i s, P s -> P (with_storage i s).
Hypothesis P_lives : forall l s, P s -> P (with_me (set_lives l) s).
Hypothesis P_stats : forall sp c r s, P s -> P (with_me (set_stats sp c r) s).

Local Hint Resolve P_emit P_node P_doc P_hit P_position P_heading P_element
  P_cooldown P_active P_flags P_storage P_lives P_stats : stable.

Ltac by_timeout := apply P_timeout; [discriminate | vm_compute; discriminate |].

Lemma keeps_emit_player_hit d s : P s -> P (emit_player_hit d s).
Proof. unfold emit_player_hit. auto with stable. Qed.

Lemma keeps_checkPlayerHit x y s : P s -> P (checkPlayerHit x y s).
Proof.
  unfold checkPlayerHit. apply fold_left_keeps. intros s' el Hs'.
  break_if; [apply keeps_emit_player_hit|]; exact Hs'.
Qed.

Lemma keeps_destroy_block x y s b : P s -> P (destroy_block x y s b).
Proof.
  intros Hs. unfold destroy_block. by_timeout.
  break_if; [apply P_emit|]; apply P_emit; by_timeout; exact Hs.
Qed.

Lemma keeps_destroyBlockAt x y D s : P s -> P (snd (destroyBlockAt x y D s)).
Proof.
  intros Hs. unfold destroyBlockAt. repeat break_if; simpl; try exact Hs.
  apply fold_left_keeps; [|exact Hs]. intros. apply keeps_destroy_block. assumption.
Qed.

Lemma keeps_ray_body dir ex ey D s : P s -> P (snd (ray_body dir ex ey D s)).
Proof.
  intros Hs. unfold ray_body.
  destruct (destroyBlockAt _ _ _ _) as [[w D'] s'] eqn:E. simpl.
  assert (Hs' : P s').
  { change s' with (snd (w, D', s')). rewrite <- E. apply keeps_destroyBlockAt.
    break_if; [apply P_append|]; auto with stable. }
  by_timeout. break_if.
  - apply P_emit, keeps_emit_player_hit, keeps_checkPlayerHit, Hs'.
  - apply keeps_checkPlayerHit, Hs'.
Qed.

Lemma keeps_explosionRay dir x y n :
  forall i D s, P s -> P (snd (explosionRay dir x y n i (D, s))).
Proof.
  induction n as [|n IH]; intros i D s Hs; [exact Hs|].
  rewrite explosionRay_S. break_if; [exact Hs|]. cbv zeta.
  pose proof (keeps_ray_body dir (x + dx dir * i) (y + dy dir * i) D s Hs) as Hb.
  break_if; [exact Hb|]. apply IH, Hb.
Qed.

Lemma keeps_rays x y n dirs :
  forall D s, P s ->
  P (snd (fold_left (fun acc dir => explosionRay dir x y n 1 acc) dirs (D, s))).
Proof.
  induction dirs as [|dir dirs IH]; intros D s Hs; simpl; [exact Hs|].
  pose proof (keeps_explosionRay dir x y n 1 D s Hs) as Hr.
  destruct (explosionRay dir x y n 1 (D, s)) as [D' s']. apply IH, Hr.
Qed.

Lemma keeps_createExplosion x y radius s : P s -> P (createExplosion x y radius s).
Proof.
  intros Hs. unfold createExplosion. break_if; [exact Hs|].
  destruct (destroyBlockAt _ _ _ _) as [[w D'] s'] eqn:E.
  assert (Hs' : P s').
  { change s' with (snd (w, D', s')). rewrite <- E. apply keeps_destroyBlockAt.
    by_timeout. break_if; [apply P_append|]; auto with stable. }
  apply keeps_rays.
  break_if; [apply keeps_emit_player_hit|]; apply keeps_checkPlayerHit, Hs'.
Qed.

Lemma keeps_updateVisualPosition {TS : positive} s : P s -> P (updateVisualPosition TS s).
Proof. unfold updateVisualPosition. intros. break_match; auto with stable. Qed.

Lemma keeps_setPosition {TS : positive} x y s : P s -> P (setPosition TS x y s).
Proof.
  intros. unfold setPosition, emitPositionUpdate.
  apply P_emit, keeps_updateVisualPosition. auto with stable.
Qed.

Lemma keeps_removePlayerElement s : P s -> P (removePlayerElement s).
Proof.
  intros. unfold removePlayerElement. break_match; [|assumption].
  break_if; [by_timeout|]; assumption.
Qed.

Lemma keeps_move {TS : positive} d dt cb s : P s -> P (move TS d dt cb s).
Proof.
  intros. unfold move. repeat break_if; auto with stable.
  unfold emitPositionUpdate. apply P_emit, keeps_updateVisualPosition.
  auto with stable.
Qed.

Lemma keeps_placeBomb s : P s -> P (placeBomb s).
Proof.
  intros. unfold placeBomb. repeat break_if; try assumption.
  by_timeout. do 2 apply P_emit. by_timeout. auto 10 with stable.
Qed.

Lemma keeps_run_timer {TS : positive} spawn a s :
  a <> TInvulnerabilityEnd -> P s -> P (run_timer TS spawn a s).
Proof.
  intros Ha Hs. destruct a; simpl; try assumption; try congruence.
  - repeat break_match; auto with stable.
  - repeat break_if; auto with stable.
  - auto with stable.
  - apply keeps_createExplosion. auto with stable.
  - auto with stable.
  - auto with stable.
  - repeat break_match; try assumption. by_timeout. auto with stable.
Qed.

Lemma keeps_handlePowerUp PT d s : P s -> P (handlePowerUp PT d s).
Proof.
  intros Hs.
  destruct (handlePowerUp_cases PT d s) as [E | [(sp & cap & rng & E) | [_ E]]];
    rewrite E; unfold emitStatsUpdate; auto with stable.
Qed.

Lemma keeps_handleStatUpdate PT d s : P s -> P (handleStatUpdate PT d s).
Proof.
  intros Hs.
  destruct (handleStatUpdate_cases PT d s)
    as [E | [(sp & cap & rng & E) | [E | [_ E]]]];
    rewrite E; unfold emitStatsUpdate; auto with stable.
Qed.

Lemma keeps_collect_powerup PT gx gy acc el :
  P (snd acc) -> P (snd (collect_powerup PT gx gy acc el)).
Proof.
  destruct acc as [found s]. unfold collect_powerup. intros Hs.
  repeat (first [break_if | break_match]); try exact Hs.
  cbn [snd] in *. apply P_emit. unfold emit_powerup_applied.
  apply keeps_handlePowerUp, P_emit, P_emit, P_doc. by_timeout. exact Hs.
Qed.

Lemma keeps_checkForVisiblePowerUp PT s : P s -> P (checkForVisiblePowerUp PT s).
Proof.
  intros Hs. unfold checkForVisiblePowerUp.
  generalize (Qfloor (px (me s))) (Qfloor (py (me s))). intros gx gy.
  assert (H : forall els acc, P (snd acc) ->
                P (snd (fold_left (collect_powerup PT gx gy) els acc))).
  { induction els as [|el els IH]; intros acc Ha; simpl; [exact Ha|].
    apply IH, keeps_collect_powerup, Ha. }
  apply H. exact Hs.
Qed.

Lemma keeps_handleKeyDown {TS : positive} PT key s : P s -> P (handleKeyDown TS PT key s).
Proof.
  intros Hs. unfold handleKeyDown.
  destruct (negb (bool_decide (is_Some (playerElement (me s))))); [exact Hs|].
  destruct (isGamePaused s || isGameOver s); [exact Hs|].
  destruct (if String.eqb key "ArrowUp" then _ else _) as [[[newX newY] d]|].
  - apply P_emit. destruct (isValidPosition _ newX newY); [|auto with stable].
    assert (H1 : P (emitPositionUpdate (updateVisualPosition TS
                      (with_me (set_position newX newY)
                         (with_me (set_heading d (moving (me s))) s))))).
    { unfold emitPositionUpdate. apply P_emit, keeps_updateVisualPosition.
      auto with stable. }
    break_if; [apply keeps_checkForVisiblePowerUp|]; exact H1.
  - break_if; [apply keeps_placeBomb|]; exact Hs.
Qed.

(** Every step but the passing of time and the expiry of a timer. *)
Lemma keeps_step {TS : positive} PT spawn l s s' :
  l <> Fire -> (forall dt, l <> Idle dt) ->
  step TS PT spawn l s = Some s' -> P s -> P s'.
Proof.
  intros Hf Hi Hstep Hs.
  destruct l; simpl in Hstep; try congruence;
    try (injection Hstep as <-); auto with stable;
    first [ break_if; [apply keeps_handleKeyDown|]; exact Hs
          | apply keeps_handlePowerUp, Hs
          | apply keeps_handleStatUpdate, Hs
          | apply keeps_setPosition, Hs
          | apply keeps_move, Hs
          | apply keeps_removePlayerElement, Hs
          | apply keeps_placeBomb, Hs
          | apply keeps_createExplosion, Hs
          | unfold setDirection, stopMovement; solve [auto with stable]
          | exfalso; exact (Hi _ eq_refl) ].
Qed.

End Stable.

(** ** Lives *)

Lemma handlePowerUp_lives PT d s :
  lives (me (handlePowerUp PT d s)) <= lives (me s) + 1
  /\ (lives (me s) < lives (me (handlePowerUp PT d s)) ->
      gains_life (PowerupApplied d) s).
Proof.
  destruct (handlePowerUp_cases PT d s) as [E | [(sp & cap & rng & E) | [G E]]];
    rewrite E; simpl; split; try lia; intros; assumption.
Qed.

Lemma handleStatUpdate_lives PT d s :
  lives (me (handleStatUpdate PT d s)) <= lives (me s) + 1
  /\ (lives (me s) < lives (me (handleStatUpdate PT d s)) ->
      gains_life (StatUpdated d) s).
Proof.
  destruct (handleStatUpdate_cases PT d s)
    as [E | [(sp & cap & rng & E) | [E | [G E]]]];
    rewrite E; simpl; split; try lia; intros; assumption.
Qed.

Lemma collect_powerup_step PT gx gy found s el :
  let r := collect_powerup PT gx gy (found, s) el in
  r = (found, s)
  \/ (found = false /\ fst r = true
      /\ lives (me (snd r)) <= lives (me s) + 1
      /\ (lives (me s) < lives (me (snd r)) -> pu_type el = Some "extraLife")).
Proof.
  unfold collect_powerup.
  destruct (cell_eqb (pu_cell el) (gx, gy)); [|left; reflexivity].
  destruct (pu_type el) as [ty|]; [|left; reflexivity].
  destruct (found || String.eqb ty "") eqn:Hf; [left; reflexivity|].
  apply orb_false_iff in Hf. destruct Hf as [-> _].
  right. split; [reflexivity|]. split; [reflexivity|].
  unfold emit_powerup_applied.
  match goal with
  | |- context [handlePowerUp PT ?d ?s0] =>
      destruct (handlePowerUp_lives PT d s0) as [L1 L2]; simpl in L1, L2
  end.
  simpl. split; [exact L1|]. intros H. destruct (L2 H) as (_ & _ & Ht).
  congruence.
Qed.

Lemma collect_powerup_found PT gx gy els s :
  fold_left (collect_powerup PT gx gy) els (true, s) = (true, s).
Proof.
  induction els as [|el els IH]; [reflexivity|]. cbn [fold_left].
  replace (collect_powerup PT gx gy (true, s) el) with (true, s); [exact IH|].
  unfold collect_powerup. destruct (cell_eqb (pu_cell el) (gx, gy)); [|reflexivity].
  destruct (pu_type el); reflexivity.
Qed.

Lemma collect_powerup_hit PT gx gy s el :
  collectable (gx, gy) el = true ->
  fst (collect_powerup PT gx gy (false, s) el) = true.
Proof.
  unfold collectable, collect_powerup. intros H.
  apply andb_true_iff in H. destruct H as [-> H].
  destruct (pu_type el) as [ty|]; [|discriminate].
  apply negb_true_iff in H. rewrite H. reflexivity.
Qed.

Lemma collect_powerup_miss PT gx gy s el :
  collectable (gx, gy) el = false ->
  collect_powerup PT gx gy (false, s) el = (false, s).
Proof.
  unfold collectable, collect_powerup. intros H.
  destruct (cell_eqb (pu_cell el) (gx, gy)); [|reflexivity].
  destruct (pu_type el) as [ty|]; [|reflexivity].
  simpl in H. apply negb_false_iff in H. rewrite H. reflexivity.
Qed.

Lemma collect_powerup_first PT gx gy els :
  forall s,
    fold_left (collect_powerup PT gx gy) els (false, s)
    = match find (collectable (gx, gy)) els with
      | Some el => collect_powerup PT gx gy (false, s) el
      | None => (false, s)
      end.
Proof.
  induction els as [|el els IH]; intros s; [reflexivity|]. cbn [fold_left find].
  destruct (collectable (gx, gy) el) eqn:Hc.
  - pose proof (collect_powerup_hit PT gx gy s el Hc) as Hf.
    destruct (collect_powerup PT gx gy (false, s) el) as [f s1]. simpl in Hf.
    subst f. apply collect_powerup_found.
  - rewrite collect_powerup_miss by exact Hc. apply IH.
Qed.

Ltac lives_side :=
  intros;
  lazymatch goal with
  | |- context [handleHit ?d ?s] => pose proof (handleHit_lives d s); lia
  | _ => cbn in *; lia
  end.

Lemma createExplosion_lives x y radius s :
  lives (me (createExplosion x y radius s)) <= lives (me s).
Proof.
  apply keeps_createExplosion with (P := fun s' => lives (me s') <= lives (me s));
    try lives_side.
Qed.

Lemma placeBomb_lives s : lives (me (placeBomb s)) <= lives (me s).
Proof.
  apply keeps_placeBomb with (P := fun s' => lives (me s') <= lives (me s));
    try lives_side.
Qed.

Lemma run_timer_lives {TS : positive} spawn a s :
  lives (me (run_timer TS spawn a s)) <= lives (me s).
Proof.
  destruct (decide (a = TInvulnerabilityEnd)) as [-> | Ha]; [simpl; lia|].
  apply keeps_run_timer with (P := fun s' => lives (me s') <= lives (me s));
    try lives_side. exact Ha.
Qed.

Lemma updateVisualPosition_frame {TS : positive} s :
  me (updateVisualPosition TS s) = me s
  /\ powerups (doc (updateVisualPosition TS s)) = powerups (doc s).
Proof. unfold updateVisualPosition. break_match; split; reflexivity. Qed.

Lemma checkForVisiblePowerUp_lives PT s :
  lives (me (checkForVisiblePowerUp PT s)) <= lives (me s) + 1
  /\ (lives (me s) < lives (me (checkForVisiblePowerUp PT s)) ->
      exists el,
        find (collectable (Qfloor (px (me s)), Qfloor (py (me s)))) (powerups (doc s))
        = Some el
        /\ pu_type el = Some "extraLife").
Proof.
  unfold checkForVisiblePowerUp. rewrite collect_powerup_first.
  destruct (find _ (powerups (doc s))) as [el|]; [|simpl; split; lia].
  destruct (collect_powerup_step PT (Qfloor (px (me s))) (Qfloor (py (me s))) false s el)
    as [E | (_ & _ & L1 & L2)].
  - rewrite E. simpl. split; lia.
  - split; [exact L1|]. intros H. exists el. split; [reflexivity | exact (L2 H)].
Qed.

Lemma handleKeyDown_lives {TS : positive} PT key s :
  lives (me (handleKeyDown TS PT key s)) <= lives (me s) + 1
  /\ (lives (me s) < lives (me (handleKeyDown TS PT key s)) ->
      exists el, key_collects key s el /\ pu_type el = Some "extraLife").
Proof.
  unfold handleKeyDown, key_collects.
  destruct (bool_decide (is_Some (playerElement (me s)))) eqn:Hel; [|split; simpl; lia].
  apply bool_decide_eq_true_1 in Hel. simpl negb. cbv iota.
  destruct (isGamePaused s) eqn:Hp; [split; simpl; lia|].
  destruct (isGameOver s) eqn:Ho; [split; simpl; lia|]. simpl orb. cbv iota.
  change (if String.eqb key "ArrowUp" then _ else _)
    with (arrow_target key (px (me s)) (py (me s))).
  destruct (arrow_target key (px (me s)) (py (me s))) as [[[tx ty] d]|] eqn:Ha.
  - change (doc (with_me (set_heading d (moving (me s))) s)) with (doc s).
    destruct (isValidPosition (doc s) tx ty) eqn:Hv; [|simpl; split; lia].
    set (s1 := emitPositionUpdate (updateVisualPosition TS
                 (with_me (set_position tx ty)
                    (with_me (set_heading d (moving (me s))) s)))).
    assert (Hl : lives (me s1) = lives (me s) /\ px (me s1) = tx /\ py (me s1) = ty
                 /\ powerups (doc s1) = powerups (doc s)
                 /\ isLocalPlayer s1 = isLocalPlayer s).
    { subst s1. unfold emitPositionUpdate, isLocalPlayer.
      match goal with
      | |- context [updateVisualPosition TS ?s0] =>
          destruct (updateVisualPosition_frame (TS:=TS) s0) as [Hm Hpw];
          assert (Hst : storedPlayerId (updateVisualPosition TS s0) = storedPlayerId s)
            by (unfold updateVisualPosition; break_match; reflexivity)
      end.
      simpl. rewrite Hm, Hpw, Hst. repeat split; reflexivity. }
    destruct Hl as (Hl & Hx & Hy & Hpw & Hloc). clearbody s1.
    destruct (isLocalPlayer s1) eqn:Hl1; [|simpl; rewrite Hl; split; lia].
    destruct (checkForVisiblePowerUp_lives PT s1) as [A B].
    simpl. rewrite <- Hl. split; [exact A|].
    intros H. destruct (B H) as (el & Hf & Hty). rewrite Hx, Hy, Hpw in Hf.
    exists el. split; [|exact Hty].
    split; [exact Hel|]. split; [reflexivity|]. split; [reflexivity|].
    split; [symmetry; exact Hloc|]. exists tx, ty, d.
    split; [reflexivity|]. split; [exact Hv | exact Hf].
  - destruct (String.eqb key " "); [|split; lia].
    pose proof (placeBomb_lives s). split; lia.
Qed.

(** C5 (as amended). Lives start at 3; a single operation on the player
    never raises them by more than one, and raises them only when an
    'extraLife' power-up or stat update addressed to the player is
    applied: a verified [powerup:applied] event or a [stat:updated]
    event of that type, or a key press whose move collects a power-up
    element of that type (an arrow key received by the local player in
    a running game, whose target [isValidPosition] accepts and on whose
    cell the first collectable element has [data-type] 'extraLife').
    Every other operation leaves lives as they are or lowers them. *)
Theorem lives_rise_only_by_extra_life {TS : positive} PT spawn (l : Label) (s s' : State) :
  step TS PT spawn l s = Some s' ->
  lives (me s') <= lives (me s) + 1
  /\ (lives (me s) < lives (me s') -> gains_life l s).
Proof.
  intros Hstep.
  assert (Hle : forall t, Some t = Some s' -> lives (me t) <= lives (me s) ->
                          lives (me s') <= lives (me s) + 1
                          /\ (lives (me s) < lives (me s') -> gains_life l s)).
  { intros t [= <-] Ht. split; lia. }
  destruct l; simpl in Hstep.
  - injection Hstep as <-. destruct (keyboard s) eqn:Hk; [|split; lia].
    destruct (handleKeyDown_lives (TS:=TS) PT key s) as [A B]. split; [exact A|].
    intros H. split; [exact Hk | exact (B H)].
  - injection Hstep as <-. apply handlePowerUp_lives.
  - injection Hstep as <-. apply handleStatUpdate_lives.
  - apply (Hle _ Hstep), handleHit_lives.
  - apply (Hle _ Hstep). simpl. lia.
  - apply (Hle _ Hstep). simpl. lia.
  - apply (Hle _ Hstep). simpl. lia.
  - apply (Hle _ Hstep). simpl. lia.
  - apply (Hle _ Hstep). simpl. lia.
  - apply (Hle _ Hstep).
    apply keeps_setPosition with (P := fun s' => lives (me s') <= lives (me s));
      try lives_side.
  - apply (Hle _ Hstep). simpl. lia.
  - apply (Hle _ Hstep).
    apply keeps_move with (P := fun s' => lives (me s') <= lives (me s));
      try lives_side.
  - apply (Hle _ Hstep). simpl. lia.
  - apply (Hle _ Hstep).
    apply keeps_removePlayerElement
      with (P := fun s' => lives (me s') <= lives (me s)); try lives_side.
  - apply (Hle _ Hstep), placeBomb_lives.
  - apply (Hle _ Hstep), createExplosion_lives.
  - apply (Hle _ Hstep). simpl. lia.
  - apply (Hle _ Hstep). simpl. lia.
  - destruct (_ && _); [|discriminate]. apply (Hle _ Hstep). simpl. lia.
  - destruct (next_timer (timers s)) as [t|]; [|discriminate].
    apply (Hle _ Hstep).
    match goal with
    | |- context [run_timer TS spawn ?a ?s0] =>
        pose proof (run_timer_lives (TS:=TS) spawn a s0) as H
    end.
    simpl in H. exact H.
Qed.

(** ** What an explosion renders and whom it hits *)

Lemma quiet_refl s : quiet s s.
Proof. unfold quiet, still. repeat split. Qed.

Lemma quiet_trans s1 s2 s3 : quiet s1 s2 -> quiet s2 s3 -> quiet s1 s3.
Proof.
  unfold quiet, still.
  intros (A & B & C) (A' & B' & C'). repeat split; try congruence;
    destruct A as (? & ? & ? & ? & ? & ? & ?), A' as (? & ? & ? & ? & ? & ? & ?);
    congruence.
Qed.

Lemma handleHit_quiet d s : quiet s (handleHit d s).
Proof.
  unfold handleHit, setInvulnerable, removePlayerElement, quiet, still.
  repeat (first [break_if | break_match]; simpl); repeat split.
Qed.

Lemma hits_on_app id l1 l2 : hits_on id (l1 ++ l2) = hits_on id l1 ++ hits_on id l2.
Proof. unfold hits_on. apply flat_map_app. Qed.

Lemma emits_refl s : emits s s [].
Proof. unfold emits. symmetry. apply app_nil_r. Qed.

Lemma emits_trans s1 s2 s3 l1 l2 :
  emits s1 s2 l1 -> emits s2 s3 l2 -> emits s1 s3 (l1 ++ l2).
Proof. unfold emits. intros H1 H2. rewrite H2, H1. symmetry. apply app_assoc. Qed.

Lemma emits_emit e s : emits s (emit e s) [e].
Proof. reflexivity. Qed.

Lemma handleHit_emits d s :
  exists l, emits s (handleHit d s) l /\ forall id, hits_on id l = [].
Proof.
  unfold handleHit, setInvulnerable, removePlayerElement, emits.
  repeat (first [break_if | break_match]; simpl);
    first [ exists []; split; [symmetry; apply app_nil_r | reflexivity]
          | rewrite <- ?app_assoc; eexists; split; [reflexivity | reflexivity] ].
Qed.

Lemma emit_player_hit_emits d s :
  quiet s (emit_player_hit d s)
  /\ exists l, emits s (emit_player_hit d s) l
               /\ forall id, hits_on id l
                             = if strict_eq (hit_playerId d) (JString id) then [d] else [].
Proof.
  unfold emit_player_hit. split.
  - eapply quiet_trans; [|apply handleHit_quiet]. unfold quiet, still. repeat split.
  - destruct (handleHit_emits d (emit (EmitPlayerHit d) s)) as (l & Hl & Hh).
    exists (EmitPlayerHit d :: l). split.
    + apply (emits_trans _ _ _ [EmitPlayerHit d] l (emits_emit _ s) Hl).
    + intros id. change (EmitPlayerHit d :: l) with ([EmitPlayerHit d] ++ l).
      rewrite hits_on_app, Hh, app_nil_r. simpl. rewrite app_nil_r. reflexivity.
Qed.

Lemma checkPlayerHit_fold x y s0 els :
  forall s, quiet s0 s ->
    let s' := fold_left
                (fun s el =>
                   if cell_eqb (el_cell el) (x, y)
                   then emit_player_hit {| hit_playerId := JString (el_id el);
                                           hit_attackerId := JString (pid (me s)) |} s
                   else s) els s in
    quiet s0 s'
    /\ exists l, emits s s' l
                 /\ forall id,
                      hits_on id l
                      = map (fun e => {| hit_playerId := JString (el_id e);
                                         hit_attackerId := JString (pid (me s0)) |})
                          (List.filter (fun e => cell_eqb (el_cell e) (x, y)
                                                 && String.eqb (el_id e) id) els).
Proof.
  induction els as [|el els IH]; intros s Hq; cbv zeta; cbn [fold_left].
  - split; [exact Hq|]. exists []. split; [apply emits_refl | reflexivity].
  - assert (Hpid : pid (me s) = pid (me s0)) by (apply Hq).
    destruct (cell_eqb (el_cell el) (x, y)) eqn:Hc.
    + match goal with
      | |- context [emit_player_hit ?d s] =>
          destruct (emit_player_hit_emits d s) as (Hq1 & l1 & Hl1 & Hh1);
          destruct (IH (emit_player_hit d s) (quiet_trans _ _ _ Hq Hq1))
            as (Hq2 & l2 & Hl2 & Hh2)
      end.
      split; [exact Hq2|]. exists (l1 ++ l2). split; [eapply emits_trans; eassumption|].
      intros id. rewrite hits_on_app, Hh1, Hh2. simpl. rewrite Hc. simpl.
      unfold strict_eq.
      destruct (String.eqb_spec (el_id el) id) as [Heq | Hne].
      * rewrite bool_decide_eq_true_2 by congruence. rewrite Hpid. reflexivity.
      * rewrite bool_decide_eq_false_2 by congruence. reflexivity.
    + destruct (IH s Hq) as (Hq2 & l2 & Hl2 & Hh2).
      split; [exact Hq2|]. exists l2. split; [exact Hl2|].
      intros id. rewrite Hh2. simpl. rewrite Hc. reflexivity.
Qed.

Lemma checkPlayerHit_spec x y s0 s :
  quiet s0 s ->
  quiet s0 (checkPlayerHit x y s)
  /\ exists l, emits s (checkPlayerHit x y s) l
               /\ forall id, hits_on id l = scan_hits s0 id (x, y).
Proof.
  intros Hq. unfold checkPlayerHit, scan_hits.
  replace (players (doc s0)) with (players (doc s)) by (apply Hq).
  apply (checkPlayerHit_fold x y s0 (players (doc s)) s Hq).
Qed.

Lemma still_refl s : still s s.
Proof. unfold still. repeat split. Qed.

Lemma still_trans s1 s2 s3 : still s1 s2 -> still s2 s3 -> still s1 s3.
Proof.
  unfold still. intros (? & ? & ? & ? & ? & ? & ?) (? & ? & ? & ? & ? & ? & ?).
  repeat split; congruence.
Qed.

Lemma silent_refl s : silent s s.
Proof.
  split; [apply quiet_refl|]. exists []. split; [apply emits_refl | reflexivity].
Qed.

Lemma silent_trans s1 s2 s3 : silent s1 s2 -> silent s2 s3 -> silent s1 s3.
Proof.
  intros (Q1 & l1 & E1 & H1) (Q2 & l2 & E2 & H2). split.
  - eapply quiet_trans; eassumption.
  - exists (l1 ++ l2). split; [eapply emits_trans; eassumption|].
    intros id. rewrite hits_on_app, H1, H2. reflexivity.
Qed.

Lemma scan_hits_still s0 s id c : still s0 s -> scan_hits s id c = scan_hits s0 id c.
Proof.
  intros (_ & Hp & Hi & _). unfold scan_hits. rewrite Hp, Hi. reflexivity.
Qed.

Lemma isLocalPlayer_still s0 s : still s0 s -> isLocalPlayer s = isLocalPlayer s0.
Proof.
  intros (_ & _ & Hi & _ & _ & _ & Hs). unfold isLocalPlayer. rewrite Hi, Hs.
  reflexivity.
Qed.

Lemma overlap_hits_still s0 s id c :
  still s0 s -> overlap_hits s id c = overlap_hits s0 id c.
Proof.
  intros H. unfold overlap_hits, self_hit. rewrite (isLocalPlayer_still s0 s H).
  destruct H as (_ & _ & Hi & Hx & Hy & _). rewrite Hi, Hx, Hy. reflexivity.
Qed.

Lemma destroy_block_silent x y s b : silent s (destroy_block x y s b).
Proof.
  unfold destroy_block, silent, quiet, still, emits.
  break_if; simpl; (split; [repeat split|]);
    rewrite <- ?app_assoc; eexists; (split; [reflexivity | reflexivity]).
Qed.

Lemma destroy_blocks_silent x y bs : forall s, silent s (fold_left (destroy_block x y) bs s).
Proof.
  induction bs as [|b bs IH]; intros s; simpl; [apply silent_refl|].
  eapply silent_trans; [apply destroy_block_silent | apply IH].
Qed.

Lemma filter_length_existsb {A} (f : A -> bool) (l : list A) :
  (0 <? Z.of_nat (length (List.filter f l))) = existsb f l.
Proof.
  induction l as [|a l IH]; [reflexivity|]. simpl.
  destruct (f a); simpl; [|exact IH].
  destruct (Z.ltb_spec 0 (Z.of_nat (S (length (List.filter f l))))); [reflexivity | lia].
Qed.

Lemma destroyBlockAt_spec (x y : Z) (D : gset Cell) (s : State) :
  gameContainer (me s) = true -> (x, y) ∉ D ->
  let r := destroyBlockAt x y D s in
  silent s (snd r)
  /\ fst (fst r) = has_block (doc s) (x, y)
  /\ snd (fst r) = (if fst (fst r) then {[ (x, y) ]} ∪ D else D).
Proof.
  intros Hg HD. unfold destroyBlockAt. rewrite Hg. simpl negb. cbv iota.
  rewrite bool_decide_eq_false_2 by exact HD.
  rewrite filter_length_existsb. fold (has_block (doc s) (x, y)).
  destruct (has_block (doc s) (x, y)); simpl.
  - split; [apply destroy_blocks_silent | split; reflexivity].
  - split; [apply silent_refl | split; reflexivity].
Qed.

Lemma ray_body_spec (dir : Dir) (ex ey : Z) (D : gset Cell) (s0 s : State) :
  still s0 s -> gameContainer (me s0) = true -> (ex, ey) ∉ D ->
  let r := ray_body dir ex ey D s in
  still s0 (snd r)
  /\ fst (fst r) = has_block (doc s0) (ex, ey)
  /\ snd (fst r) = (if fst (fst r) then {[ (ex, ey) ]} ∪ D else D)
  /\ (exists n, explosions (doc (snd r))
                = explosions (doc s)
                  ++ [{| ex_node := n; ex_name := name dir; ex_cell := (ex, ey) |}])
  /\ exists l, emits s (snd r) l /\ forall id, hits_on id l = cell_hits s0 id (ex, ey).
Proof.
  intros Hst Hg HD. unfold ray_body.
  assert (Hg1 : gameContainer (me (createElement s)) = true).
  { simpl. destruct Hst as (_ & _ & _ & _ & _ & -> & _). exact Hg. }
  rewrite Hg1.
  set (s2 := append_explosion (nextNode s) (name dir) (ex, ey) (createElement s)).
  assert (Hst2 : still s0 s2).
  { eapply still_trans; [exact Hst|]. unfold still. repeat split. }
  assert (Hg2 : gameContainer (me s2) = true) by exact Hg1.
  destruct (destroyBlockAt_spec ex ey D s2 Hg2 HD) as (Hsil & Hw & HD').
  destruct (destroyBlockAt ex ey D s2) as [[w D'] s3]. simpl in Hsil, Hw, HD'.
  destruct Hsil as (Hq3 & l3 & He3 & Hh3).
  assert (Hst3 : still s0 s3) by (eapply still_trans; [exact Hst2 | apply Hq3]).
  destruct (checkPlayerHit_spec ex ey s3 s3 (quiet_refl s3)) as (Hq4 & l4 & He4 & Hh4).
  set (s4 := checkPlayerHit ex ey s3) in *.
  assert (Hst4 : still s0 s4) by (eapply still_trans; [exact Hst3 | apply Hq4]).
  set (s5 := if isLocalPlayer s4 && cell_eqb (cell_of (px (me s4)) (py (me s4))) (ex, ey)
             then emit (SendPlayerHit (pid (me s4)) (JString (pid (me s4))))
                    (emit_player_hit (self_hit s4) s4)
             else s4).
  assert (H5 : quiet s4 s5
               /\ exists l, emits s4 s5 l
                            /\ forall id, hits_on id l = overlap_hits s4 id (ex, ey)).
  { subst s5. unfold overlap_hits.
    destruct (isLocalPlayer s4 && cell_eqb (cell_of (px (me s4)) (py (me s4))) (ex, ey)).
    - destruct (emit_player_hit_emits (self_hit s4) s4) as (Hq & l & He & Hh).
      split.
      + eapply quiet_trans; [exact Hq|]. unfold quiet, still. repeat split.
      + exists (l ++ [SendPlayerHit (pid (me s4)) (JString (pid (me s4)))]).
        split; [eapply emits_trans; [exact He | apply emits_emit]|].
        intros id. rewrite hits_on_app, Hh. simpl. rewrite app_nil_r.
        unfold strict_eq. destruct (String.eqb_spec (pid (me s4)) id) as [Heq | Hne].
        * rewrite bool_decide_eq_true_2 by congruence. reflexivity.
        * rewrite bool_decide_eq_false_2 by congruence. reflexivity.
    - split; [apply quiet_refl|]. exists []. split; [apply emits_refl | reflexivity]. }
  destruct H5 as (Hq5 & l5 & He5 & Hh5).
  simpl. split; [|split; [|split; [|split]]].
  - eapply still_trans; [exact Hst4|]. eapply still_trans; [apply Hq5|].
    unfold still. repeat split.
  - rewrite Hw. unfold has_block. f_equal. exact (proj1 Hst2).
  - exact HD'.
  - exists (nextNode s).
    destruct Hq5 as (_ & -> & _). destruct Hq4 as (_ & -> & _).
    destruct Hq3 as (_ & -> & _). reflexivity.
  - exists (l3 ++ l4 ++ l5). split.
    + unfold emits in *. simpl. rewrite He5, He4, He3. simpl.
      rewrite <- !app_assoc. reflexivity.
    + intros id. rewrite !hits_on_app, Hh3, Hh4, Hh5. simpl. unfold cell_hits.
      rewrite (scan_hits_still s0 s3 id (ex, ey) Hst3).
      rewrite (overlap_hits_still s0 s4 id (ex, ey) Hst4). reflexivity.
Qed.

Lemma blast_prefix_incl d cells c : In c (blast_prefix d cells) -> In c cells.
Proof.
  induction cells as [|a cells IH]; simpl; [tauto|].
  destruct (negb (isValidExplosionPosition (fst a) (snd a))); [simpl; tauto|].
  destruct (has_block d a); simpl; [tauto|]. intros [H | H]; auto.
Qed.

Lemma explosionRay_spec (dir : Dir) (x y : Z) (s0 : State) (n : nat) :
  forall (i : Z) (D : gset Cell) (s : State),
    still s0 s -> gameContainer (me s0) = true ->
    (forall c, In c (cells_from dir x y n i) -> c ∉ D) ->
    let r := explosionRay dir x y n i (D, s) in
    let pre := blast_prefix (doc s0) (cells_from dir x y n i) in
    still s0 (snd r)
    /\ (forall c, c ∈ fst r -> c ∈ D \/ In c pre)
    /\ (exists els, explosions (doc (snd r)) = explosions (doc s) ++ els
                    /\ map ex_name els = map (fun _ => name dir) pre
                    /\ map ex_cell els = pre)
    /\ exists l, emits s (snd r) l
                 /\ forall id, hits_on id l = flat_map (cell_hits s0 id) pre.
Proof.
  induction n as [|n IH]; intros i D s Hst Hg HD; cbv zeta.
  - simpl. split; [exact Hst|]. split; [auto|]. split.
    + exists []. rewrite app_nil_r. repeat split.
    + exists []. split; [apply emits_refl | reflexivity].
  - rewrite explosionRay_S. cbn [cells_from blast_prefix fst snd].
    destruct (negb (isValidExplosionPosition (x + dx dir * i) (y + dy dir * i))).
    + simpl. split; [exact Hst|]. split; [auto|]. split.
      * exists []. rewrite app_nil_r. repeat split.
      * exists []. split; [apply emits_refl | reflexivity].
    + assert (Hc : (x + dx dir * i, y + dy dir * i) ∉ D).
      { apply HD. left. reflexivity. }
      destruct (ray_body_spec dir _ _ D s0 s Hst Hg Hc)
        as (Hst1 & Hw & HD1 & (nd & Hex) & l1 & He1 & Hh1).
      destruct (ray_body dir (x + dx dir * i) (y + dy dir * i) D s) as [[w D1] s1].
      cbn [fst snd] in *. cbv zeta. cbn [fst snd]. rewrite <- Hw.
      destruct w.
      * cbn [fst snd]. split; [exact Hst1|]. split.
        { intros c Hin. rewrite HD1 in Hin. apply elem_of_union in Hin.
          destruct Hin as [Hin | Hin]; [|left; exact Hin].
          apply elem_of_singleton in Hin. right. left. symmetry. exact Hin. }
        split.
        { eexists. split; [exact Hex|]. split; reflexivity. }
        exists l1. split; [exact He1|]. intros id. rewrite Hh1. simpl.
        rewrite app_nil_r. reflexivity.
      * subst D1.
        destruct (IH (i + 1) D s1 Hst1 Hg) as (Hst2 & HD2 & (els & Hex2 & Hn2 & Hc2) & l2 & He2 & Hh2).
        { intros c Hin. apply HD. right. exact Hin. }
        split; [exact Hst2|]. split.
        { intros c Hin. destruct (HD2 c Hin) as [H | H]; [left | right; right]; exact H. }
        split.
        { exists ({| ex_node := nd; ex_name := name dir;
                     ex_cell := (x + dx dir * i, y + dy dir * i) |} :: els).
          split; [rewrite Hex2, Hex, <- app_assoc; reflexivity|].
          simpl. rewrite Hn2, Hc2. split; reflexivity. }
        exists (l1 ++ l2). split; [eapply emits_trans; eassumption|].
        intros id. rewrite hits_on_app, Hh1, Hh2. reflexivity.
Qed.

Lemma rays_spec (x y radius : Z) (s0 : State) (dirs : list Dir) :
  forall (D : gset Cell) (s : State),
    still s0 s -> gameContainer (me s0) = true ->
    (forall c, c ∈ D -> ~ In c (flat_map (fun dir => ray_cells dir x y radius) dirs)) ->
    NoDup (flat_map (fun dir => ray_cells dir x y radius) dirs) ->
    let r := fold_left (fun acc dir => explosionRay dir x y (Z.to_nat radius) 1 acc)
               dirs (D, s) in
    still s0 (snd r)
    /\ (exists els,
          explosions (doc (snd r)) = explosions (doc s) ++ els
          /\ map (fun e => (ex_name e, ex_cell e)) els
             = flat_map (fun dir => map (pair (name dir))
                                      (blast_prefix (doc s0) (ray_cells dir x y radius)))
                 dirs)
    /\ exists l, emits s (snd r) l
                 /\ forall id,
                      hits_on id l
                      = flat_map (cell_hits s0 id)
                          (flat_map (fun dir => blast_prefix (doc s0)
                                                  (ray_cells dir x y radius)) dirs).
Proof.
  induction dirs as [|dir dirs IH]; intros D s Hst Hg HD Hnd; cbv zeta.
  - simpl. split; [exact Hst|]. split.
    + exists []. rewrite app_nil_r. split; reflexivity.
    + exists []. split; [apply emits_refl | reflexivity].
  - cbn [fold_left flat_map] in *.
    apply NoDup_app in Hnd. destruct Hnd as (_ & Hdisj & Hnd).
    destruct (explosionRay_spec dir x y s0 (Z.to_nat radius) 1 D s Hst Hg)
      as (Hst1 & HD1 & (els1 & Hex1 & Hn1 & Hc1) & l1 & He1 & Hh1).
    { intros c Hin Hc. apply (HD c Hc). apply in_or_app. left. exact Hin. }
    fold (ray_cells dir x y radius) in *.
    destruct (explosionRay dir x y (Z.to_nat radius) 1 (D, s)) as [D1 s1].
    cbn [fst snd] in *.
    destruct (IH D1 s1 Hst1 Hg) as (Hst2 & (els2 & Hex2 & Hm2) & l2 & He2 & Hh2).
    { intros c Hc Hin. destruct (HD1 c Hc) as [H | H].
      - apply (HD c H). apply in_or_app. right. exact Hin.
      - apply blast_prefix_incl in H.
        apply (Hdisj c); apply list_elem_of_In; assumption. }
    { exact Hnd. }
    split; [exact Hst2|]. split.
    + exists (els1 ++ els2). split; [rewrite Hex2, Hex1, app_assoc; reflexivity|].
      rewrite map_app, Hm2. f_equal.
      clear -Hn1 Hc1. revert Hn1 Hc1.
      generalize (blast_prefix (doc s0) (ray_cells dir x y radius)).
      induction els1 as [|e els1 IHe]; intros [|c l]; simpl; try discriminate;
        [reflexivity|].
      intros [= Hn Hns] [= Hc Hcs]. rewrite Hn, Hc. f_equal. apply IHe; assumption.
    + exists (l1 ++ l2). split; [eapply emits_trans; eassumption|].
      intros id. rewrite hits_on_app, Hh1, Hh2, flat_map_app. reflexivity.
Qed.

(** The rays of a detonation share no cell with one another or with
    the origin. *)

Lemma cells_from_In dir x y n :
  forall i c,
    In c (cells_from dir x y n i)
    <-> exists j, i <= j < i + Z.of_nat n /\ c = (x + dx dir * j, y + dy dir * j).
Proof.
  induction n as [|n IH]; intros i c; simpl.
  - split; [tauto | intros (j & Hj & _); lia].
  - rewrite IH. split.
    + intros [H | (j & Hj & H)]; [exists i; split; [lia | congruence]|].
      exists j. split; [lia | exact H].
    + intros (j & Hj & H). destruct (Z.eq_dec j i) as [-> | Hne]; [left; congruence|].
      right. exists j. split; [lia | exact H].
Qed.

Lemma cells_from_NoDup dir x y n :
  In dir directions -> forall i, NoDup (cells_from dir x y n i).
Proof.
  intros Hdir. induction n as [|n IH]; intros i; simpl; constructor; [|apply IH].
  intros Hin. apply list_elem_of_In, cells_from_In in Hin.
  destruct Hin as (j & Hj & Heq).
  simpl in Hdir. destruct Hdir as [<- | [<- | [<- | [<- | []]]]];
    simpl in Heq; injection Heq; lia.
Qed.

Ltac on_rays :=
  repeat match goal with
         | H : _ ∈ _ |- _ => apply list_elem_of_In in H
         | H : In _ (_ ++ _) |- _ => apply in_app_or in H; destruct H as [H | H]
         | H : In _ (ray_cells _ _ _ _) |- _ =>
             apply cells_from_In in H; destruct H as (? & ? & H); simpl in H
         | H : In _ [] |- _ => destruct H
         end.

Lemma rays_NoDup x y radius :
  NoDup (flat_map (fun dir => ray_cells dir x y radius) directions).
Proof.
  unfold directions. cbn [flat_map].
  repeat (apply NoDup_app; split;
          [apply cells_from_NoDup; simpl; tauto | split]);
    try apply NoDup_nil_2;
    intros c H1 H2; on_rays; subst c;
    match goal with H : (_, _) = (_, _) |- _ => injection H; lia end.
Qed.

Lemma origin_off_rays x y radius :
  ~ In (x, y) (flat_map (fun dir => ray_cells dir x y radius) directions).
Proof.
  unfold directions. cbn [flat_map]. intros H. on_rays;
    match goal with H : (_, _) = (_, _) |- _ => injection H; lia end.
Qed.

Lemma blast_cells_NoDup d x y radius : NoDup (blast_cells d x y radius).
Proof.
  assert (Hsub : forall dirs c,
            In c (flat_map (fun dir => blast_prefix d (ray_cells dir x y radius)) dirs) ->
            In c (flat_map (fun dir => ray_cells dir x y radius) dirs)).
  { intros dirs c H. apply in_flat_map in H. destruct H as (dir & Hd & Hc).
    apply in_flat_map. exists dir. split; [exact Hd|].
    apply blast_prefix_incl in Hc. exact Hc. }
  assert (Hpre : forall cells, NoDup cells -> NoDup (blast_prefix d cells)).
  { induction cells as [|a cells IH]; simpl; intros Hn; [constructor|].
    apply NoDup_cons in Hn. destruct Hn as [Ha Hn].
    destruct (negb (isValidExplosionPosition (fst a) (snd a))); [constructor|].
    destruct (has_block d a); [apply NoDup_singleton|].
    constructor; [|apply IH, Hn]. intros H. apply Ha.
    apply list_elem_of_In, (blast_prefix_incl d), list_elem_of_In. exact H. }
  unfold blast_cells. constructor.
  - intros H. apply list_elem_of_In, Hsub in H. exact (origin_off_rays x y radius H).
  - pose proof (rays_NoDup x y radius) as Hnd. revert Hnd.
    generalize directions. induction l as [|dir dirs IH]; cbn [flat_map]; intros Hnd;
      [constructor|].
    apply NoDup_app in Hnd. destruct Hnd as (H1 & H2 & H3).
    apply NoDup_app. split; [apply Hpre, H1|]. split; [|apply IH, H3].
    intros c Hc Hc'. apply (H2 c).
    + apply list_elem_of_In, (blast_prefix_incl d), list_elem_of_In. exact Hc.
    + apply list_elem_of_In, Hsub, list_elem_of_In. exact Hc'.
Qed.

Lemma createExplosion_spec (x y : Z) (radius : Q) (s : State) :
  gameContainer (me s) = true ->
  let s' := createExplosion x y radius s in
  still s s'
  /\ (exists els,
        explosions (doc s') = explosions (doc s) ++ els
        /\ map (fun e => (ex_name e, ex_cell e)) els
           = ("center", (x, y))
             :: flat_map (fun dir => map (pair (name dir))
                                       (blast_prefix (doc s) (ray_cells dir x y (Qfloor radius))))
                  directions)
  /\ exists l, emits s s' l
               /\ forall id,
                    hits_on id l
                    = flat_map (cell_hits s id) (blast_cells (doc s) x y (Qfloor radius)).
Proof.
  intros Hg. cbv zeta. unfold createExplosion. rewrite Hg. simpl negb. cbv iota.
  assert (Hg1 : gameContainer (me (createElement s)) = true) by exact Hg.
  rewrite Hg1.
  set (s3 := setTimeout (TExplosionRemove (nextNode s)) 500
               (append_explosion (nextNode s) "center" (x, y) (createElement s))).
  assert (Hst3 : still s s3) by (unfold still; repeat split).
  assert (Hex3 : explosions (doc s3)
                 = explosions (doc s)
                   ++ [{| ex_node := nextNode s; ex_name := "center"; ex_cell := (x, y) |}])
    by reflexivity.
  assert (He3 : emits s s3 []) by (unfold emits; simpl; symmetry; apply app_nil_r).
  assert (Hg3 : gameContainer (me s3) = true) by exact Hg.
  destruct (destroyBlockAt_spec x y ∅ s3 Hg3 (not_elem_of_empty _)) as (Hsil & Hw & HD).
  destruct (destroyBlockAt x y ∅ s3) as [[w D1] s4]. cbn [fst snd] in *.
  destruct Hsil as (Hq4 & l4 & He4 & Hh4).
  assert (Hst4 : still s s4) by (eapply still_trans; [exact Hst3 | apply Hq4]).
  destruct (checkPlayerHit_spec x y s4 s4 (quiet_refl s4)) as (Hq5 & l5 & He5 & Hh5).
  set (s5 := checkPlayerHit x y s4) in *.
  assert (Hst5 : still s s5) by (eapply still_trans; [exact Hst4 | apply Hq5]).
  set (s6 := if isLocalPlayer s5 && cell_eqb (cell_of (px (me s5)) (py (me s5))) (x, y)
             then emit_player_hit (self_hit s5) s5 else s5).
  assert (H6 : quiet s5 s6
               /\ exists l, emits s5 s6 l
                            /\ forall id, hits_on id l = overlap_hits s5 id (x, y)).
  { subst s6. unfold overlap_hits.
    destruct (isLocalPlayer s5 && cell_eqb (cell_of (px (me s5)) (py (me s5))) (x, y)).
    - destruct (emit_player_hit_emits (self_hit s5) s5) as (Hq & l & He & Hh).
      split; [exact Hq|]. exists l. split; [exact He|].
      intros id. rewrite Hh. simpl. unfold strict_eq.
      destruct (String.eqb_spec (pid (me s5)) id) as [Heq | Hne].
      + rewrite bool_decide_eq_true_2 by congruence. reflexivity.
      + rewrite bool_decide_eq_false_2 by congruence. reflexivity.
    - split; [apply quiet_refl|]. exists []. split; [apply emits_refl | reflexivity]. }
  destruct H6 as (Hq6 & l6 & He6 & Hh6).
  assert (Hst6 : still s s6) by (eapply still_trans; [exact Hst5 | apply Hq6]).
  destruct (rays_spec x y (Qfloor radius) s directions D1 s6 Hst6 Hg)
    as (Hst7 & (els & Hex7 & Hm7) & l7 & He7 & Hh7).
  { intros c Hc Hin. rewrite HD in Hc. destruct w.
    - apply elem_of_union in Hc. destruct Hc as [Hc | Hc].
      + apply elem_of_singleton in Hc. subst c. exact (origin_off_rays x y (Qfloor radius) Hin).
      + exact (not_elem_of_empty _ Hc).
    - exact (not_elem_of_empty _ Hc). }
  { apply rays_NoDup. }
  split; [exact Hst7|]. split.
  - exists ({| ex_node := nextNode s; ex_name := "center"; ex_cell := (x, y) |} :: els).
    split.
    + rewrite Hex7. destruct Hq6 as (_ & -> & _). destruct Hq5 as (_ & -> & _).
      destruct Hq4 as (_ & -> & _). rewrite Hex3, <- app_assoc. reflexivity.
    + simpl. rewrite Hm7. reflexivity.
  - exists (l4 ++ l5 ++ l6 ++ l7). split.
    + unfold emits in *. rewrite He7, He6, He5, He4, He3.
      rewrite app_nil_r, <- !app_assoc. reflexivity.
    + intros id. rewrite !hits_on_app, Hh4, Hh5, Hh6, Hh7. simpl.
      rewrite (scan_hits_still s s4 id (x, y) Hst4).
      rewrite (overlap_hits_still s s5 id (x, y) Hst5).
      unfold cell_hits. rewrite <- app_assoc. reflexivity.
Qed.

Lemma skipn_exact {A} (l l' : list A) : skipn (length l) (l ++ l') = l'.
Proof. induction l as [|a l IH]; [reflexivity | exact IH]. Qed.

Lemma filter_by_name nm (els : list ExplosionEl) :
  map ex_cell (List.filter (fun e => String.eqb (ex_name e) nm) els)
  = map snd (List.filter (fun p => String.eqb (fst p) nm)
               (map (fun e => (ex_name e, ex_cell e)) els)).
Proof.
  induction els as [|e els IH]; [reflexivity|]. simpl.
  destruct (String.eqb (ex_name e) nm); simpl; rewrite IH; reflexivity.
Qed.

Lemma filter_tagged nm nm' (l : list Cell) :
  map snd (List.filter (fun p : string * Cell => String.eqb (fst p) nm) (map (pair nm') l))
  = if String.eqb nm' nm then l else [].
Proof.
  induction l as [|c l IH]; [destruct (String.eqb nm' nm); reflexivity|].
  cbn [map List.filter fst]. destruct (String.eqb nm' nm); [|exact IH].
  cbn [map snd]. rewrite IH. reflexivity.
Qed.

Lemma rendered_createExplosion (s : State) (x y : Z) (radius : Q) (dir : Dir) :
  gameContainer (me s) = true -> In dir directions ->
  rendered (name dir) (doc s) (doc (createExplosion x y radius s))
  = blast_prefix (doc s) (ray_cells dir x y (Qfloor radius)).
Proof.
  intros Hg Hdir.
  destruct (createExplosion_spec x y radius s Hg) as (_ & (els & Hex & Hm) & _).
  unfold rendered. rewrite Hex, skipn_exact, filter_by_name, Hm.
  unfold directions in *. cbn [flat_map].
  cbn [In] in Hdir. destruct Hdir as [<- | [<- | [<- | [<- | []]]]];
    cbn [name List.filter fst]; simpl String.eqb; cbv iota;
    rewrite ?List.filter_app, ?map_app, ?filter_tagged; simpl String.eqb; cbv iota;
    simpl; rewrite ?app_nil_r; reflexivity.
Qed.

Lemma blast_prefix_shape d cells :
  exists k,
    (k <= length cells)%nat
    /\ blast_prefix d cells = firstn k cells
    /\ (forall c, In c (firstn k cells) ->
                  isValidExplosionPosition (fst c) (snd c) = true)
    /\ (forall j c, (S j < k)%nat -> nth_error cells j = Some c -> has_block d c = false)
    /\ ((k < length cells)%nat ->
        (exists c, nth_error cells k = Some c
                   /\ isValidExplosionPosition (fst c) (snd c) = false)
        \/ (exists j c, k = S j /\ nth_error cells j = Some c /\ has_block d c = true)).
Proof.
  induction cells as [|a cells IH].
  - exists O. simpl. repeat split; try lia; try tauto.
  - cbn [blast_prefix].
    destruct (isValidExplosionPosition (fst a) (snd a)) eqn:Hv; simpl negb; cbv iota.
    + destruct (has_block d a) eqn:Hb.
      * exists 1%nat. simpl. repeat split; try lia.
        -- intros c [<- | []]. exact Hv.
        -- intros _. right. exists O, a. repeat split. exact Hb.
      * destruct IH as (k & Hk & He & Hval & Hblk & Hstop).
        exists (S k). simpl. split; [lia|]. split; [rewrite He; reflexivity|].
        split; [intros c [<- | H]; [exact Hv | exact (Hval c H)]|].
        split.
        -- intros [|j] c Hj Hn; simpl in Hn; [congruence|].
           apply (Hblk j c); [lia | exact Hn].
        -- intros Hlt. destruct Hstop as [(c & Hn & Hc) | (j & c & -> & Hn & Hc)];
             [lia | left; exists c; split; assumption |].
           right. exists (S j), c. repeat split; assumption.
    + exists O. simpl. repeat split; try lia; try tauto.
      intros _. left. exists a. split; [reflexivity | exact Hv].
Qed.

Lemma blast_prefix_clear d cells :
  (forall c, In c cells ->
             isValidExplosionPosition (fst c) (snd c) = true /\ has_block d c = false) ->
  blast_prefix d cells = cells.
Proof.
  induction cells as [|a cells IH]; intros H; [reflexivity|]. simpl.
  destruct (H a (or_introl eq_refl)) as [-> ->]. simpl. f_equal.
  apply IH. intros c Hc. apply H. right. exact Hc.
Qed.

Lemma cells_from_length dir x y n : forall i, length (cells_from dir x y n i) = n.
Proof. induction n as [|n IH]; intros i; simpl; [reflexivity | rewrite IH; reflexivity]. Qed.

Lemma cells_from_nth dir x y n :
  forall i j, (j < n)%nat ->
    nth_error (cells_from dir x y n i) j
    = Some (x + dx dir * (i + Z.of_nat j), y + dy dir * (i + Z.of_nat j)).
Proof.
  induction n as [|n IH]; intros i j Hj; [lia|].
  destruct j as [|j]; simpl.
  - rewrite Z.add_0_r. reflexivity.
  - rewrite IH by lia.
    replace (i + 1 + Z.of_nat j) with (i + Z.of_nat (S j)) by lia. reflexivity.
Qed.

(** C3. In a detonation at [(x, y)] with radius [radius], the cells at
    which the blast is rendered in a direction [dir] are a prefix of
    C + 1.d, ..., C + R.d, where R is the radius, or its integer part
    when the range has been set to a number that is not whole: every
    cell of the prefix passes the blast
    check, none but its last holds a block, and where it is shorter
    than R it ends just before a cell that fails the blast check or
    with a cell that holds a block; with neither within R steps it is
    the whole ray. *)
Theorem blast_ray_is_stopped_prefix (s : State) (x y : Z) (radius : Q) (dir : Dir) :
  gameContainer (me s) = true -> In dir directions ->
  let cells := ray_cells dir x y (Qfloor radius) in
  let out := rendered (name dir) (doc s) (doc (createExplosion x y radius s)) in
  length cells = Z.to_nat (Qfloor radius)
  /\ (forall j, (j < Z.to_nat (Qfloor radius))%nat ->
        nth_error cells j
        = Some (x + dx dir * Z.of_nat (S j), y + dy dir * Z.of_nat (S j)))
  /\ out = blast_prefix (doc s) cells
  /\ (exists k,
        (k <= length cells)%nat
        /\ out = firstn k cells
        /\ (forall c, In c (firstn k cells) ->
                      isValidExplosionPosition (fst c) (snd c) = true)
        /\ (forall j c, (S j < k)%nat -> nth_error cells j = Some c ->
                        has_block (doc s) c = false)
        /\ ((k < length cells)%nat ->
            (exists c, nth_error cells k = Some c
                       /\ isValidExplosionPosition (fst c) (snd c) = false)
            \/ (exists j c, k = S j /\ nth_error cells j = Some c
                            /\ has_block (doc s) c = true)))
  /\ ((forall c, In c cells ->
         isValidExplosionPosition (fst c) (snd c) = true
         /\ has_block (doc s) c = false) ->
      out = cells /\ length out = Z.to_nat (Qfloor radius)).
Proof.
  intros Hg Hdir cells out.
  assert (Hout : out = blast_prefix (doc s) cells)
    by (apply rendered_createExplosion; assumption).
  assert (Hlen : length cells = Z.to_nat (Qfloor radius)) by apply cells_from_length.
  split; [exact Hlen|]. split.
  { intros j Hj. unfold cells, ray_cells. rewrite cells_from_nth by exact Hj.
    replace (1 + Z.of_nat j) with (Z.of_nat (S j)) by lia. reflexivity. }
  split; [exact Hout|]. split.
  - rewrite Hout. apply blast_prefix_shape.
  - intros Hclear. rewrite Hout, (blast_prefix_clear _ _ Hclear).
    split; [reflexivity | exact Hlen].
Qed.

Lemma cell_eqb_eq (a b : Cell) : cell_eqb a b = true <-> a = b.
Proof.
  destruct a as [a1 a2], b as [b1 b2]. unfold cell_eqb. simpl.
  rewrite andb_true_iff, !Z.eqb_eq. split; [intros [-> ->]; reflexivity|].
  intros [= -> ->]. split; reflexivity.
Qed.

Lemma flat_map_only {A B} (f : A -> list B) (a : A) (l : list A) :
  NoDup l -> In a l -> (forall c, c <> a -> f c = []) -> flat_map f l = f a.
Proof.
  intros Hnd Hin Hf. induction l as [|c l IH]; [destruct Hin|].
  apply NoDup_cons in Hnd. destruct Hnd as [Hc Hnd]. simpl.
  destruct Hin as [-> | Hin].
  - assert (E : flat_map f l = []).
    { clear IH Hnd. induction l as [|c l IHl]; [reflexivity|]. simpl.
      rewrite Hf, IHl; [reflexivity | |].
      - intros H. apply Hc. right. exact H.
      - intros ->. apply Hc. left. }
    rewrite E. apply app_nil_r.
  - rewrite Hf, (IH Hnd Hin); [reflexivity|].
    intros ->. apply Hc, list_elem_of_In. exact Hin.
Qed.

Lemma filter_filter {A} (f g : A -> bool) (l : list A) :
  List.filter (fun a => f a && g a) l = List.filter f (List.filter g l).
Proof.
  induction l as [|a l IH]; [reflexivity|]. simpl.
  destruct (g a); simpl; [destruct (f a); simpl; rewrite IH; reflexivity|].
  rewrite andb_false_r. exact IH.
Qed.

Lemma scan_hits_own (s : State) (c : Cell) :
  scan_hits s (pid (me s)) c
  = map (fun _ => self_hit s)
      (List.filter (fun el => cell_eqb (el_cell el) c)
         (List.filter (fun el => String.eqb (el_id el) (pid (me s))) (players (doc s)))).
Proof.
  unfold scan_hits, self_hit. rewrite filter_filter. apply map_ext_in.
  intros e He. apply filter_In in He. destruct He as [He _].
  apply filter_In in He. destruct He as [_ He]. apply String.eqb_eq in He.
  rewrite He. reflexivity.
Qed.

(** C10 (as amended). When the detonating player is the local player
    and stands on a cell of its own blast, the resolution of that cell
    publishes [player:hit] for that player, with [playerId] and
    [attackerId] the player's own id, once for each element of class
    [player] carrying its id that lies on the cell (the scan of
    [checkPlayerHit]) and once more from the check of the local player's
    own position.  The detonation so publishes it exactly twice when the
    player is rendered by exactly one such element, lying on its cell,
    and exactly once when the scene holds no element of the player, as
    after the removal that follows an elimination; in general it
    publishes, cell by cell of the blast, one per element of the player
    on the cell, and one more on the cell the player stands on. *)
Theorem own_blast_hits_self_twice (s : State) (x y : Z) (radius : Q) :
  gameContainer (me s) = true ->
  isLocalPlayer s = true ->
  In (cell_of (px (me s)) (py (me s))) (blast_cells (doc s) x y (Qfloor radius)) ->
  let id := pid (me s) in
  let c0 := cell_of (px (me s)) (py (me s)) in
  let self := {| hit_playerId := JString id; hit_attackerId := JString id |} in
  let own := List.filter (fun el => String.eqb (el_id el) id) (players (doc s)) in
  overlap_hits s id c0 = [self]
  /\ scan_hits s id c0
     = map (fun _ => self) (List.filter (fun el => cell_eqb (el_cell el) c0) own)
  /\ exists l, log (createExplosion x y radius s) = log s ++ l
               /\ (forall e, own = [e] -> el_cell e = c0 -> hits_on id l = [self; self])
               /\ (own = [] -> hits_on id l = [self])
               /\ hits_on id l
                  = flat_map (cell_hits s id) (blast_cells (doc s) x y (Qfloor radius)).
Proof.
  intros Hg Hloc Hin id c0 self own.
  assert (Hover : forall c, overlap_hits s id c = if cell_eqb c0 c then [self] else []).
  { intros c. unfold overlap_hits. subst id. rewrite Hloc, String.eqb_refl, andb_true_r.
    reflexivity. }
  assert (Hrefl : cell_eqb c0 c0 = true) by (apply cell_eqb_eq; reflexivity).
  split; [rewrite Hover, Hrefl; reflexivity|].
  split; [apply scan_hits_own|].
  destruct (createExplosion_spec x y radius s Hg) as (_ & _ & l & He & Hh).
  exists l. split; [exact He|]. split; [|split; [|apply Hh]].
  - intros e Hown Hcell. rewrite Hh.
    assert (Hscan : forall c, scan_hits s id c = if cell_eqb c0 c then [self] else []).
    { intros c. subst id. rewrite scan_hits_own. fold own. rewrite Hown. simpl.
      rewrite Hcell. destruct (cell_eqb c0 c); reflexivity. }
    rewrite (flat_map_only (cell_hits s id) c0).
    + unfold cell_hits. rewrite Hscan, Hover, Hrefl. reflexivity.
    + apply blast_cells_NoDup.
    + exact Hin.
    + intros c Hne. unfold cell_hits. rewrite Hscan, Hover.
      destruct (cell_eqb c0 c) eqn:Hc; [|reflexivity].
      apply cell_eqb_eq in Hc. congruence.
  - intros Hown. rewrite Hh.
    assert (Hscan : forall c, scan_hits s id c = []).
    { intros c. subst id. rewrite scan_hits_own. fold own. rewrite Hown. reflexivity. }
    rewrite (flat_map_only (cell_hits s id) c0).
    + unfold cell_hits. rewrite Hscan, Hover, Hrefl. reflexivity.
    + apply blast_cells_NoDup.
    + exact Hin.
    + intros c Hne. unfold cell_hits. rewrite Hscan, Hover.
      destruct (cell_eqb c0 c) eqn:Hc; [|reflexivity].
      apply cell_eqb_eq in Hc. congruence.
Qed.

(** ** The window of invulnerability *)

Lemma pending_setTimeout t a d s :
  a <> TInvulnerabilityEnd -> 0 <= d -> pending t s -> pending t (setTimeout a d s).
Proof.
  intros Ha Hd (Hi & Ht & Hact & Hin & Huniq & Hnd & Hlt & Hnow).
  unfold pending. simpl. repeat split; try assumption.
  - apply in_or_app. left. exact Hin.
  - intros u Hu Hau. apply in_app_or in Hu. destruct Hu as [Hu | [<- | []]].
    + apply Huniq; assumption.
    + simpl in Hau. congruence.
  - rewrite map_app. simpl. apply NoDup_app. split; [exact Hnd|]. split.
    + intros n Hn Hn'. apply list_elem_of_In in Hn. apply in_map_iff in Hn.
      destruct Hn as (u & <- & Hu). apply Hlt in Hu.
      apply list_elem_of_In in Hn'. destruct Hn' as [Hn' | []]. lia.
    + apply NoDup_singleton.
  - intros u Hu. apply in_app_or in Hu. destruct Hu as [Hu | [<- | []]].
    + apply Hlt in Hu. lia.
    + simpl. lia.
  - intros u Hu. apply in_app_or in Hu. destruct Hu as [Hu | [<- | []]].
    + apply Hnow, Hu.
    + simpl. lia.
Qed.

Lemma pending_handleHit t d s : pending t s -> pending t (handleHit d s).
Proof.
  intros H. rewrite (handleHit_invulnerable d s); [exact H | apply H].
Qed.

Ltac pending_side :=
  first [ exact (pending_setTimeout _)
        | exact (pending_handleHit _)
        | intros; assumption ].

Lemma pending_step_plain {TS : positive} PT spawn t l s s' :
  l <> Fire -> (forall dt, l <> Idle dt) ->
  step TS PT spawn l s = Some s' -> pending t s -> pending t s'.
Proof.
  intros Hf Hi. apply keeps_step; try assumption; pending_side.
Qed.

Lemma pending_run_timer {TS : positive} spawn t a s :
  a <> TInvulnerabilityEnd -> pending t s -> pending t (run_timer TS spawn a s).
Proof. apply keeps_run_timer; pending_side. Qed.

Lemma earliest_least (r : list Timer) :
  forall t, let u := fold_left earlier r t in
            In u (t :: r) /\ forall v, In v (t :: r) -> due u <= due v.
Proof.
  induction r as [|a r IH]; intros t; cbv zeta; cbn [fold_left].
  - split; [left; reflexivity|]. intros v [<- | []]. lia.
  - destruct (IH (earlier t a)) as [Hin Hle]. split.
    + destruct Hin as [Hin | Hin]; [|right; right; exact Hin].
      rewrite <- Hin. unfold earlier. destruct (due a <? due t); simpl; tauto.
    + intros v Hv.
      assert (He : due (earlier t a) <= due t /\ due (earlier t a) <= due a).
      { unfold earlier. destruct (Z.ltb_spec (due a) (due t)); lia. }
      specialize (Hle (earlier t a) (or_introl eq_refl)) as Hm.
      destruct Hv as [<- | [<- | Hv]]; [lia | lia |].
      apply Hle. right. exact Hv.
Qed.

Lemma next_timer_least ts u :
  next_timer ts = Some u -> In u ts /\ forall v, In v ts -> due u <= due v.
Proof.
  destruct ts as [|t r]; simpl; [discriminate|]. intros [= <-].
  apply earliest_least.
Qed.

Lemma NoDup_tid_eq (ts : list Timer) (u v : Timer) :
  NoDup (map tid ts) -> In u ts -> In v ts -> tid u = tid v -> u = v.
Proof.
  induction ts as [|a ts IH]; simpl; [tauto|]. intros Hnd Hu Hv He.
  apply NoDup_cons in Hnd. destruct Hnd as [Ha Hnd].
  destruct Hu as [-> | Hu], Hv as [-> | Hv]; try reflexivity.
  - exfalso. apply Ha. rewrite He. apply list_elem_of_In, in_map, Hv.
  - exfalso. apply Ha. rewrite <- He. apply list_elem_of_In, in_map, Hu.
  - apply IH; assumption.
Qed.

Lemma NoDup_tid_filter (f : Timer -> bool) (ts : list Timer) :
  NoDup (map tid ts) -> NoDup (map tid (List.filter f ts)).
Proof.
  induction ts as [|a ts IH]; simpl; [tauto|]. intros Hnd.
  apply NoDup_cons in Hnd. destruct Hnd as [Ha Hnd].
  destruct (f a); simpl; [|apply IH, Hnd].
  apply NoDup_cons. split; [|apply IH, Hnd].
  intros H. apply Ha. apply list_elem_of_In in H. apply in_map_iff in H.
  destruct H as (u & Hu & Hin). apply filter_In in Hin.
  apply list_elem_of_In. rewrite <- Hu. apply in_map. apply Hin.
Qed.

(** The state in which the timer [t] has just expired. *)
Lemma pending_step {TS : positive} PT spawn t l s s' :
  pending t s -> step TS PT spawn l s = Some s' ->
  pending t s'
  \/ (l = Fire /\ now s' = due t /\ invulnerable (me s') = false
      /\ invulnerabilityTimer (me s') = None
      /\ log s' = log s ++ [EmitInvulnerabilityEnd (pid (me s))]
      /\ lives (me s') = lives (me s)).
Proof.
  intros Hp Hstep.
  destruct l;
    try (left; eapply pending_step_plain; [| |exact Hstep|exact Hp];
         [discriminate | intros; discriminate]).
  - simpl in Hstep.
    destruct (0 <=? dt) eqn:Hdt; simpl in Hstep; [|discriminate].
    destruct (forallb _ (timers s)) eqn:Hall; [|discriminate].
    injection Hstep as <-. left.
    destruct Hp as (Hi & Ht & Hact & Hin & Huniq & Hnd & Hlt & Hnow).
    unfold pending. simpl. repeat split; try assumption.
    intros u Hu. rewrite forallb_forall in Hall. specialize (Hall u Hu).
    simpl in Hall. lia.
  - simpl in Hstep. destruct (next_timer (timers s)) as [u|] eqn:Hn; [|discriminate].
    injection Hstep as <-.
    destruct (next_timer_least _ _ Hn) as [Hu Hmin].
    destruct Hp as (Hi & Ht & Hact & Hin & Huniq & Hnd & Hlt & Hnow).
    destruct (decide (u = t)) as [-> | Hne].
    + right. rewrite Hact. simpl. repeat split. specialize (Hnow t Hin). lia.
    + left. apply pending_run_timer.
      { intros Hau. apply Hne, Huniq; assumption. }
      unfold pending. simpl. repeat split; try assumption.
      * apply filter_In. split; [exact Hin|].
        apply negb_true_iff, Nat.eqb_neq. intros He.
        apply Hne. symmetry. apply (NoDup_tid_eq (timers s)); assumption.
      * intros v Hv. apply filter_In in Hv. apply Huniq, Hv.
      * apply NoDup_tid_filter, Hnd.
      * intros v Hv. apply filter_In in Hv. apply Hlt, Hv.
      * intros v Hv. apply filter_In in Hv. destruct Hv as [Hv _].
        specialize (Hmin v Hv). specialize (Hnow u Hu). lia.
Qed.

Lemma pending_queue_ok t s : pending t s -> queue_ok s.
Proof.
  intros (Hi & Ht & Hact & Hin & Huniq & Hnd & Hlt & Hnow).
  unfold queue_ok. repeat split; try assumption.
  intros u Hu Hau. rewrite (Huniq u Hu Hau). exact Ht.
Qed.

Lemma queue_ok_setTimeout a d s :
  a <> TInvulnerabilityEnd -> 0 <= d -> queue_ok s -> queue_ok (setTimeout a d s).
Proof.
  intros Ha Hd (Hnd & Hlt & Hnow & Hheld). unfold queue_ok. simpl. repeat split.
  - rewrite map_app. simpl. apply NoDup_app. split; [exact Hnd|]. split.
    + intros n Hn Hn'. apply list_elem_of_In in Hn. apply in_map_iff in Hn.
      destruct Hn as (u & <- & Hu). apply Hlt in Hu.
      apply list_elem_of_In in Hn'. destruct Hn' as [Hn' | []]. lia.
    + apply NoDup_singleton.
  - intros u Hu. apply in_app_or in Hu. destruct Hu as [Hu | [<- | []]].
    + apply Hlt in Hu. lia.
    + simpl. lia.
  - intros u Hu. apply in_app_or in Hu. destruct Hu as [Hu | [<- | []]].
    + apply Hnow, Hu.
    + simpl. lia.
  - intros u Hu Hau. apply in_app_or in Hu. destruct Hu as [Hu | [<- | []]].
    + apply Hheld; assumption.
    + simpl in Hau. congruence.
Qed.

Lemma setInvulnerable_pending s :
  queue_ok s ->
  pending {| tid := nextTimer s; due := now s + invulnerabilityDuration;
             act := TInvulnerabilityEnd |} (setInvulnerable s).
Proof.
  intros (Hnd & Hlt & Hnow & Hheld).
  set (t := {| tid := nextTimer s; due := now s + invulnerabilityDuration;
               act := TInvulnerabilityEnd |}).
  assert (Hgen : forall ts : list Timer,
            (forall u, In u ts -> In u (timers s)) ->
            NoDup (map tid ts) ->
            (forall u, In u ts -> act u <> TInvulnerabilityEnd) ->
            In t (ts ++ [t])
            /\ (forall u, In u (ts ++ [t]) -> act u = TInvulnerabilityEnd -> u = t)
            /\ NoDup (map tid (ts ++ [t]))
            /\ (forall u, In u (ts ++ [t]) -> (tid u < S (nextTimer s))%nat)
            /\ (forall u, In u (ts ++ [t]) -> now s <= due u)).
  { intros ts Hsub Hnd' Hno. split; [apply in_or_app; right; left; reflexivity|].
    split; [|split; [|split]].
    - intros u Hu Hau. apply in_app_or in Hu. destruct Hu as [Hu | [<- | []]];
        [exfalso; exact (Hno u Hu Hau) | reflexivity].
    - rewrite map_app. simpl. apply NoDup_app. split; [exact Hnd'|]. split.
      + intros n Hn Hn'. apply list_elem_of_In in Hn. apply in_map_iff in Hn.
        destruct Hn as (u & <- & Hu). apply Hsub, Hlt in Hu.
        apply list_elem_of_In in Hn'. destruct Hn' as [Hn' | []]. lia.
      + apply NoDup_singleton.
    - intros u Hu. apply in_app_or in Hu. destruct Hu as [Hu | [<- | []]].
      + apply Hsub, Hlt in Hu. lia.
      + simpl. lia.
    - intros u Hu. apply in_app_or in Hu. destruct Hu as [Hu | [<- | []]].
      + apply Hnow, Hsub, Hu.
      + simpl. unfold invulnerabilityDuration. lia. }
  unfold setInvulnerable, pending. simpl.
  destruct (invulnerabilityTimer (me s)) as [t0|] eqn:E; simpl.
  - split; [reflexivity|]. split; [reflexivity|]. split; [reflexivity|].
    apply Hgen.
    + intros u Hu. apply filter_In in Hu. apply Hu.
    + apply NoDup_tid_filter, Hnd.
    + intros u Hu Hau. apply filter_In in Hu. destruct Hu as [Hu Hf].
      specialize (Hheld u Hu Hau). injection Hheld as ->.
      rewrite Nat.eqb_refl in Hf. discriminate.
  - split; [reflexivity|]. split; [reflexivity|]. split; [reflexivity|].
    apply Hgen.
    + auto.
    + exact Hnd.
    + intros u Hu Hau. specialize (Hheld u Hu Hau). discriminate.
Qed.

Lemma handleHit_accepted_pending d s :
  queue_ok s ->
  hit_playerId d = JString (pid (me s)) ->
  invulnerable (me s) = false ->
  exists t, pending t (handleHit d s) /\ due t = now s + 2000.
Proof.
  intros Hq Hid Hinv. unfold handleHit.
  rewrite Hid, strict_eq_refl, Hinv. simpl negb. cbv iota.
  match goal with
  | |- context [setInvulnerable ?sp] =>
      set (s_pre := sp);
      assert (Hpre : queue_ok s_pre /\ now s_pre = now s)
  end.
  { subst s_pre. split.
    - assert (He : forall e s1, queue_ok s1 -> queue_ok (emit e s1))
        by (intros e s1 H; exact H).
      apply He, He. break_match; [apply queue_ok_setTimeout|];
        try discriminate; try lia; exact Hq.
    - simpl. break_match; reflexivity. }
  destruct Hpre as [Hqp Hnow].
  pose proof (setInvulnerable_pending s_pre Hqp) as Hp. clearbody s_pre.
  set (t := {| tid := nextTimer s_pre; due := now s_pre + invulnerabilityDuration;
               act := TInvulnerabilityEnd |}) in *.
  exists t. split; [|subst t; cbn [due]; rewrite Hnow; reflexivity].
  assert (He : forall e s1, pending t s1 -> pending t (emit e s1))
    by (intros e s1 H; exact H).
  assert (Hr : pending t (removePlayerElement (setInvulnerable s_pre))).
  { apply keeps_removePlayerElement; [|exact Hp].
    intros a dl s1 Ha Hdl. apply pending_setTimeout; assumption. }
  break_if; [|exact Hp].
  break_if; repeat apply He; exact Hr.
Qed.

Lemma handleHit_steady d s :
  now (handleHit d s) = now s /\ pid (me (handleHit d s)) = pid (me s).
Proof.
  unfold handleHit, setInvulnerable, removePlayerElement.
  repeat (first [break_if | break_match]; simpl); split; reflexivity.
Qed.

Ltac steady_side :=
  intros;
  lazymatch goal with
  | H : _ <= now ?s1 /\ _ |- context [handleHit ?d ?s1] =>
      destruct (handleHit_steady d s1) as [-> ->]; exact H
  | H : _ |- _ => exact H
  end.

Lemma step_steady {TS : positive} PT spawn l s s' :
  step TS PT spawn l s = Some s' ->
  now s <= now s' /\ pid (me s') = pid (me s).
Proof.
  intros Hstep.
  destruct l;
    try (eapply (keeps_step (fun s1 => now s <= now s1 /\ pid (me s1) = pid (me s)));
         [..|exact Hstep|split; [lia | reflexivity]];
         first [discriminate | intros; discriminate | steady_side]).
  - simpl in Hstep. destruct (Z.leb_spec 0 dt); simpl in Hstep; [|discriminate].
    destruct (forallb _ (timers s)); [|discriminate]. injection Hstep as <-.
    simpl. split; [lia | reflexivity].
  - simpl in Hstep. destruct (next_timer (timers s)) as [u|]; [|discriminate].
    injection Hstep as <-.
    destruct (decide (act u = TInvulnerabilityEnd)) as [-> | Hne];
      [simpl; split; [lia | reflexivity]|].
    apply (keeps_run_timer (fun s1 => now s <= now s1 /\ pid (me s1) = pid (me s)));
      [steady_side .. | exact Hne | simpl; split; [lia | reflexivity]].
Qed.

Lemma run_steady {TS : positive} PT spawn ls :
  forall s s', run TS PT spawn ls s = Some s' ->
               now s <= now s' /\ pid (me s') = pid (me s).
Proof.
  induction ls as [|l ls IH]; intros s s' Hrun; simpl in Hrun.
  - injection Hrun as <-. split; [lia | reflexivity].
  - destruct (step TS PT spawn l s) as [s1|] eqn:Hstep; [|discriminate].
    destruct (step_steady (TS:=TS) _ _ _ _ _ Hstep) as [H1 H2].
    destruct (IH _ _ Hrun) as [H3 H4]. split; [lia | congruence].
Qed.

(** Along a run from a state where [t] is pending, either [t] is still
    pending at the end, or the run has a step at which [t] expired. *)
Lemma pending_run {TS : positive} PT spawn t ls :
  forall s s', pending t s -> run TS PT spawn ls s = Some s' ->
    pending t s'
    \/ exists ls1 ls2 sa sb,
         ls = ls1 ++ Fire :: ls2
         /\ run TS PT spawn ls1 s = Some sa
         /\ pending t sa
         /\ step TS PT spawn Fire sa = Some sb
         /\ run TS PT spawn ls2 sb = Some s'
         /\ now sb = due t
         /\ invulnerable (me sb) = false
         /\ log sb = log sa ++ [EmitInvulnerabilityEnd (pid (me sa))]
         /\ lives (me sb) = lives (me sa).
Proof.
  induction ls as [|l ls IH]; intros s s' Hp Hrun; simpl in Hrun.
  - injection Hrun as <-. left. exact Hp.
  - destruct (step TS PT spawn l s) as [s1|] eqn:Hstep; [|discriminate].
    destruct (pending_step (TS:=TS) _ _ _ _ _ _ Hp Hstep)
      as [Hp1 | (-> & Hnow & Hinv & _ & Hlog & Hlives)].
    + destruct (IH _ _ Hp1 Hrun)
        as [Hp' | (ls1 & ls2 & sa & sb & -> & Hr1 & Hpa & Hf & Hr2 & Hrest)].
      * left. exact Hp'.
      * right. exists (l :: ls1), ls2, sa, sb. split; [reflexivity|].
        split; [simpl; rewrite Hstep; exact Hr1|].
        split; [exact Hpa|]. split; [exact Hf|]. split; [exact Hr2|]. exact Hrest.
    + right. exists [], ls, s, s1.
      split; [reflexivity|]. split; [reflexivity|]. split; [exact Hp|].
      split; [exact Hstep|]. split; [exact Hrun|]. split; [exact Hnow|].
      split; [exact Hinv|]. split; [exact Hlog | exact Hlives].
Qed.

Ltac hit_cbn := cbn -[Z.leb Z.sub String.eqb existsb js_or strict_eq].

Lemma handleHit_accepted_log d s :
  hit_playerId d = JString (pid (me s)) ->
  invulnerable (me s) = false ->
  let id := pid (me s) in
  let attacker := js_or (hit_attackerId d) (JString id) in
  lives (me (handleHit d s)) = lives (me s) - 1
  /\ invulnerable (me (handleHit d s)) = true
  /\ exists rest,
       log (handleHit d s)
       = log s ++ [EmitPlayerDamaged id (lives (me s) - 1); SendPlayerHit id attacker;
                   EmitInvulnerabilityStart id] ++ rest
       /\ (lives (me s) - 1 <= 0 ->
           exists rest', rest = EmitPlayerEliminated id attacker
                                :: SendPlayerEliminatedLiteral id attacker :: rest')
       /\ (0 < lives (me s) - 1 -> rest = []).
Proof.
  intros Hid Hinv id attacker. subst id attacker.
  unfold handleHit, setInvulnerable, removePlayerElement.
  rewrite Hid, strict_eq_refl, Hinv.
  destruct (playerElement (me s)) eqn:Hel;
    destruct (invulnerabilityTimer (me s)) eqn:Htm;
    repeat (progress (hit_cbn; rewrite ?Hel, ?Htm));
    destruct (Z.leb_spec (lives (me s) - 1) 0);
    repeat (progress (hit_cbn; rewrite ?Hel, ?Htm));
    repeat (break_if; repeat (progress (hit_cbn; rewrite ?Hel, ?Htm)));
    (split; [reflexivity | split; [reflexivity|]]);
    rewrite <- ?app_assoc; eexists; (split; [reflexivity|]);
    (split; intros; try lia; try (eexists; reflexivity); reflexivity).
Qed.

(** C9. Every accepted hit marks the player invulnerable before the
    elimination check, the fatal one included: after the handler the
    player has one life less and the flag set, the start of
    invulnerability is published before the elimination, and the end of
    invulnerability is queued for 2000 ms later.  Whatever happens
    next, the flag stays set until that time; an execution that goes
    beyond it has a step, at that time exactly, at which the timer
    expires, the flag clears and [player:invulnerabilityEnd] is
    published for the player, whose lives the expiry leaves as they
    are. *)
Theorem accepted_hit_sets_invulnerable_before_elimination {TS : positive}
    PT spawn (data : HitData) (s : State) :
  queue_ok s ->
  hit_playerId data = JString (pid (me s)) ->
  invulnerable (me s) = false ->
  let s1 := handleHit data s in
  let id := pid (me s) in
  let attacker := js_or (hit_attackerId data) (JString id) in
  lives (me s1) = lives (me s) - 1
  /\ invulnerable (me s1) = true
  /\ (exists rest,
        log s1 = log s ++ [EmitPlayerDamaged id (lives (me s) - 1);
                           SendPlayerHit id attacker;
                           EmitInvulnerabilityStart id] ++ rest
        /\ (lives (me s) - 1 <= 0 ->
            exists rest', rest = EmitPlayerEliminated id attacker
                                 :: SendPlayerEliminatedLiteral id attacker :: rest')
        /\ (0 < lives (me s) - 1 -> rest = []))
  /\ (exists t, In t (timers s1) /\ act t = TInvulnerabilityEnd
                /\ due t = now s + 2000
                /\ invulnerabilityTimer (me s1) = Some (tid t))
  /\ forall ls s2,
       run TS PT spawn ls s1 = Some s2 ->
       (now s2 < now s + 2000 -> invulnerable (me s2) = true)
       /\ (now s + 2000 < now s2 ->
           exists ls1 ls2 sa sb,
             ls = ls1 ++ Fire :: ls2
             /\ run TS PT spawn ls1 s1 = Some sa
             /\ invulnerable (me sa) = true
             /\ step TS PT spawn Fire sa = Some sb
             /\ run TS PT spawn ls2 sb = Some s2
             /\ now sb = now s + 2000
             /\ invulnerable (me sb) = false
             /\ log sb = log sa ++ [EmitInvulnerabilityEnd id]
             /\ lives (me sb) = lives (me sa)).
Proof.
  intros Hq Hid Hinv s1 id attacker.
  destruct (handleHit_accepted_log data s Hid Hinv) as (Hl & Hi & Hlog).
  destruct (handleHit_accepted_pending data s Hq Hid Hinv) as (t & Hp & Hdue).
  fold s1 in Hl, Hi, Hlog, Hp.
  split; [exact Hl|]. split; [exact Hi|]. split; [exact Hlog|]. split.
  { exists t. destruct Hp as (_ & Ht & Hact & Hin & _). repeat split; assumption. }
  intros ls s2 Hrun.
  assert (Hid1 : pid (me s1) = id) by (apply handleHit_steady).
  destruct (pending_run (TS:=TS) PT spawn t ls s1 s2 Hp Hrun)
    as [Hp2 | (ls1 & ls2 & sa & sb & -> & Hr1 & Hpa & Hf & Hr2 & Hnow & Hinvb & Hlogb & Hlb)].
  - split; [intros _; apply Hp2|].
    intros Hlate. exfalso.
    destruct Hp2 as (_ & _ & _ & Hin & _ & _ & _ & Hbound).
    specialize (Hbound t Hin). lia.
  - split.
    + intros Hearly. exfalso.
      destruct (run_steady (TS:=TS) PT spawn ls2 sb s2 Hr2) as [Hmono _]. lia.
    + intros _. exists ls1, ls2, sa, sb.
      split; [reflexivity|]. split; [exact Hr1|]. split; [apply Hpa|].
      split; [exact Hf|]. split; [exact Hr2|]. split; [lia|].
      split; [exact Hinvb|]. split; [|exact Hlb].
      rewrite Hlogb. destruct (run_steady (TS:=TS) PT spawn ls1 s1 sa Hr1) as [_ ->].
      rewrite Hid1. reflexivity.
Qed.

(** C2 (as amended). After the hit that takes a player's lives to 0 or
    below, a [player:hit] event addressed to that player is refused for
    as long as the invulnerable flag set by that hit is up, that is at
    any time before 2000 ms have passed: the handler leaves the state as
    it is, so lives are not decremented and nothing is published or
    sent.  The handler tests that flag only; it has no test of
    elimination. *)
Theorem eliminated_player_refuses_hits_while_flag_is_set {TS : positive}
    PT spawn (data data' : HitData) (s s2 : State) (ls : list Label) :
  queue_ok s ->
  hit_playerId data = JString (pid (me s)) ->
  invulnerable (me s) = false ->
  lives (me s) - 1 <= 0 ->
  run TS PT spawn ls (handleHit data s) = Some s2 ->
  now s2 < now s + 2000 ->
  lives (me (handleHit data s)) <= 0
  /\ invulnerable (me s2) = true
  /\ handleHit data' s2 = s2
  /\ step TS PT spawn (PlayerHit data') s2 = Some s2.
Proof.
  intros Hq Hid Hinv Hfatal Hrun Hearly.
  destruct (handleHit_accepted_log data s Hid Hinv) as (Hl & _).
  destruct (handleHit_accepted_pending data s Hq Hid Hinv) as (t & Hp & Hdue).
  assert (Hi2 : invulnerable (me s2) = true).
  { destruct (pending_run (TS:=TS) PT spawn t ls _ s2 Hp Hrun)
      as [Hp2 | (ls1 & ls2 & sa & sb & -> & Hr1 & Hpa & Hf & Hr2 & Hnow & _)].
    - apply Hp2.
    - exfalso. destruct (run_steady (TS:=TS) PT spawn ls2 sb s2 Hr2) as [Hmono _]. lia. }
  split; [lia|]. split; [exact Hi2|].
  assert (E : handleHit data' s2 = s2) by (apply handleHit_invulnerable, Hi2).
  split; [exact E|]. simpl. rewrite E. reflexivity.
Qed.

(** ** The queue of every reachable state *)

Lemma queue_ok_handleHit d s : queue_ok s -> queue_ok (handleHit d s).
Proof.
  intros Hq.
  destruct (strict_eq (hit_playerId d) (JString (pid (me s)))) eqn:Hid.
  - destruct (invulnerable (me s)) eqn:Hinv.
    + rewrite handleHit_invulnerable by exact Hinv. exact Hq.
    + apply strict_eq_true in Hid.
      destruct (handleHit_accepted_pending d s Hq Hid Hinv) as (t & Hp & _).
      exact (pending_queue_ok t _ Hp).
  - unfold handleHit. rewrite Hid. exact Hq.
Qed.

Ltac queue_side :=
  first [ exact queue_ok_setTimeout
        | exact queue_ok_handleHit
        | intros; assumption ].

Lemma queue_ok_step {TS : positive} PT spawn l s s' :
  step TS PT spawn l s = Some s' -> queue_ok s -> queue_ok s'.
Proof.
  intros Hstep Hq.
  destruct l;
    try (eapply (keeps_step queue_ok); [..|exact Hstep|exact Hq];
         first [discriminate | intros; discriminate | queue_side]).
  - simpl in Hstep. destruct (Z.leb_spec 0 dt); simpl in Hstep; [|discriminate].
    destruct (forallb _ (timers s)) eqn:Hall; [|discriminate].
    injection Hstep as <-. destruct Hq as (Hnd & Hlt & Hnow & Hheld).
    unfold queue_ok. simpl. repeat split; try assumption.
    intros u Hu. rewrite forallb_forall in Hall. specialize (Hall u Hu).
    simpl in Hall. lia.
  - simpl in Hstep. destruct (next_timer (timers s)) as [u|] eqn:Hn; [|discriminate].
    injection Hstep as <-.
    destruct (next_timer_least _ _ Hn) as [Hu Hmin].
    destruct Hq as (Hnd & Hlt & Hnow & Hheld).
    set (s1 := with_clock (Z.max (now s) (due u))
                 (List.filter (fun tm => negb (Nat.eqb (tid tm) (tid u))) (timers s)) s).
    assert (Hq1 : queue_ok s1).
    { unfold queue_ok. simpl. repeat split.
      - apply NoDup_tid_filter, Hnd.
      - intros v Hv. apply filter_In in Hv. apply Hlt, Hv.
      - intros v Hv. apply filter_In in Hv. destruct Hv as [Hv _].
        specialize (Hmin v Hv). specialize (Hnow v Hv). lia.
      - intros v Hv Hav. apply filter_In in Hv. apply Hheld; [apply Hv | exact Hav]. }
    destruct (decide (act u = TInvulnerabilityEnd)) as [Hau | Hne].
    + rewrite Hau. destruct Hq1 as (Hnd1 & Hlt1 & Hnow1 & _).
      unfold queue_ok. simpl. repeat split; try assumption.
      intros v Hv Hav. exfalso. apply filter_In in Hv. destruct Hv as [Hv Hf].
      pose proof (Hheld v Hv Hav) as H1. pose proof (Hheld u Hu Hau) as H2.
      rewrite H1 in H2. injection H2 as H2. rewrite H2, Nat.eqb_refl in Hf.
      discriminate.
    + apply (keeps_run_timer queue_ok); [queue_side .. | exact Hne | exact Hq1].
Qed.

Lemma queue_ok_construct {TS : positive} id nick startX startY container playerNum d stored t0 :
  queue_ok (construct TS id nick startX startY container playerNum d stored t0).
Proof.
  unfold queue_ok. destruct container; simpl; repeat split;
    try apply NoDup_nil_2; try apply NoDup_singleton;
    try (intros u [<- | []]; simpl; first [lia | discriminate]);
    intros u [].
Qed.

(** Every state reached from a newly created player has a queue that
    is in order. *)
Lemma queue_ok_reachable {TS : positive} PT spawn ls :
  forall s s', queue_ok s -> run TS PT spawn ls s = Some s' -> queue_ok s'.
Proof.
  induction ls as [|l ls IH]; intros s s' Hq Hrun; simpl in Hrun.
  - injection Hrun as <-. exact Hq.
  - destruct (step TS PT spawn l s) as [s1|] eqn:Hstep; [|discriminate].
    apply (IH s1 s'); [|exact Hrun]. exact (queue_ok_step (TS:=TS) _ _ _ _ _ Hstep Hq).
Qed.

(** ** The worked scenarios, evaluated *)

(** C1. The closure of the fuse reads [this.explosionRange] when it
    runs: a bomb dropped with range 1 and announced with range 1
    detonates with range 2 when a flame power-up is collected during the
    fuse, rendering the blast two cells to the right and below. *)
Theorem fuse_reads_range_at_expiry :
  (forall TS spawn bomb gridX gridY s,
      run_timer TS spawn (TFuse bomb gridX gridY) s
      = createExplosion gridX gridY (explosionRange (me s))
          (with_me (set_activeBombs (activeBombs (me s) - 1))
             (with_doc (fun d => set_bombs (remove_node fst bomb (bombs d)) d) s)))
  /\ explosionRange (me fresh) = 1%Q
  /\ run tile PowerUpType_strings no_spawn upgrade_during_fuse fresh = Some upgraded
  /\ now upgraded = 2000
  /\ log upgraded = [SendDropBomb 1 1 1; EmitBombPlaced "p1" 1 1 1;
                     EmitStatsUpdate "p1" 3 1 2 3;
                     EmitPlayerHit (hit_by "p1"); EmitPlayerDamaged "p1" 2;
                     SendPlayerHit "p1" (JString "p1"); EmitInvulnerabilityStart "p1";
                     EmitPlayerHit (hit_by "p1")]
  /\ rendered "right" (doc fresh) (doc upgraded) = [(2, 1); (3, 1)]
  /\ rendered "down" (doc fresh) (doc upgraded) = [(1, 2); (1, 3)]
  /\ rendered "right" (doc fresh) (doc upgraded)
     <> blast_prefix (doc fresh)
          (ray_cells {| dx := 1; dy := 0; name := "right" |} 1 1 1).
Proof.
  split; [reflexivity|]. split; [reflexivity|].
  vm_compute. repeat split. discriminate.
Qed.

(** C2 (counterexample). The player loses the three lives, drops a bomb
    100 ms after the elimination and stays on its cell; the bomb
    detonates 100 ms after the invulnerability of the fatal hit has
    ended, and the damage is accepted: lives go from 0 to -1,
    [player:damaged] is published, PLAYER_HIT and the elimination are
    sent again. *)
Lemma eliminated_player_is_hit_again :
  run tile PowerUpType_strings no_spawn three_hits fresh = Some eliminated
  /\ lives (me eliminated) = 0
  /\ run tile PowerUpType_strings no_spawn bomb_after_elimination eliminated
     = Some bombed_again
  /\ lives (me bombed_again) = -1
  /\ skipn (length (log eliminated)) (log bombed_again)
     = [SendDropBomb 1 1 1; EmitBombPlaced "p1" 1 1 1;
        EmitInvulnerabilityEnd "p1";
        EmitPlayerHit (hit_by "p1");
        EmitPlayerDamaged "p1" (-1);
        SendPlayerHit "p1" (JString "p1");
        EmitInvulnerabilityStart "p1";
        EmitPlayerEliminated "p1" (JString "p1");
        SendPlayerEliminatedLiteral "p1" (JString "p1");
        SendPlayerEliminated "p1" "p1" true].
Proof. vm_compute. repeat split. Qed.

(** C5 (counterexample). An 'extraLife' stat update, and a verified
    'extraLife' power-up, each raise the lives of a fresh player from 3
    to 4, whether [PowerUpType] is a string enum or a numeric one. *)
Lemma extra_life_raises_lives :
  lives (me fresh) = 3
  /\ step tile PowerUpType_strings no_spawn (StatUpdated extra_life_stat) fresh
     = Some (with_extra_life PowerUpType_strings (StatUpdated extra_life_stat))
  /\ lives (me (with_extra_life PowerUpType_strings (StatUpdated extra_life_stat))) = 4
  /\ step tile PowerUpType_strings no_spawn (PowerupApplied extra_life_collected) fresh
     = Some (with_extra_life PowerUpType_strings (PowerupApplied extra_life_collected))
  /\ lives (me (with_extra_life PowerUpType_strings
                  (PowerupApplied extra_life_collected))) = 4
  /\ lives (me (with_extra_life PowerUpType_numbers (StatUpdated extra_life_stat))) = 4
  /\ lives (me (with_extra_life PowerUpType_numbers
                  (PowerupApplied extra_life_collected))) = 4.
Proof. vm_compute. repeat split. Qed.

(** C10 (counterexample). The eliminated local player drops a bomb
    during the fade-out and stays on its cell; its element is removed
    500 ms after the elimination.  When the fuse expires the player is
    the local player, stands on the origin of its own blast and has no
    element in the scene: the detonation publishes [player:hit] for it
    once, from the check of its own position, and not twice. *)
Lemma removed_player_is_hit_once :
  run tile PowerUpType_strings no_spawn (three_hits ++ before_fuse) fresh = Some pre_fuse
  /\ isLocalPlayer pre_fuse = true
  /\ gameContainer (me pre_fuse) = true
  /\ cell_of (px (me pre_fuse)) (py (me pre_fuse)) = (1, 1)
  /\ map snd (bombs (doc pre_fuse)) = [(1, 1)]
  /\ players (doc pre_fuse) = []
  /\ step tile PowerUpType_strings no_spawn Fire pre_fuse = Some bombed_again
  /\ hits_on "p1" (skipn (length (log pre_fuse)) (log bombed_again)) = [hit_by "p1"].
Proof. vm_compute. repeat split. Qed.

Lemma fresh_queue_ok : queue_ok fresh.
Proof. apply queue_ok_construct. Qed.

Lemma last_life_queue_ok : queue_ok last_life.
Proof. exact fresh_queue_ok. Qed.

Lemma blast_ray_is_stopped_prefix_witness :
  rendered "right" (doc walled_in) (doc (createExplosion 1 1 3 walled_in))
  = [(2, 1); (3, 1)].
Proof.
  destruct (blast_ray_is_stopped_prefix walled_in 1 1 3
              {| dx := 1; dy := 0; name := "right" |})
    as (_ & _ & H & _).
  - reflexivity.
  - right. left. reflexivity.
  - exact H.
Defined.

Lemma lives_rise_only_by_extra_life_witness :
  lives (me (outcome PowerUpType_strings [KeyDown "ArrowRight"] life_ahead))
  = lives (me life_ahead) + 1
  /\ gains_life (KeyDown "ArrowRight") life_ahead.
Proof.
  split; [vm_compute; reflexivity|].
  refine (proj2 (lives_rise_only_by_extra_life (TS:=tile) PowerUpType_strings no_spawn
                   (KeyDown "ArrowRight") life_ahead
                   (outcome PowerUpType_strings [KeyDown "ArrowRight"] life_ahead) _) _).
  - vm_compute. reflexivity.
  - vm_compute. reflexivity.
Defined.

Lemma placeBomb_refused_changes_nothing_witness :
  bombCooldown (me bomb_dropped) = true
  /\ placeBomb bomb_dropped = bomb_dropped.
Proof.
  split; [reflexivity|].
  apply (placeBomb_refused_changes_nothing bomb_dropped).
  left. reflexivity.
Defined.

Lemma hit_while_invulnerable_changes_nothing_witness :
  invulnerable (me hit_once) = true
  /\ handleHit (hit_by "p2") hit_once = hit_once.
Proof.
  split; [reflexivity|].
  apply (hit_while_invulnerable_changes_nothing (hit_by "p2") hit_once).
  reflexivity.
Defined.

Lemma accepted_hit_sets_invulnerable_before_elimination_witness :
  lives (me just_eliminated) = lives (me last_life) - 1
  /\ invulnerable (me just_eliminated) = true.
Proof.
  destruct (accepted_hit_sets_invulnerable_before_elimination (TS:=tile)
              PowerUpType_strings no_spawn (hit_by "p2") last_life)
    as (H1 & H2 & _).
  - exact last_life_queue_ok.
  - reflexivity.
  - reflexivity.
  - split; [exact H1 | exact H2].
Defined.

Lemma own_blast_hits_self_twice_witness :
  exists l, log (createExplosion 1 1 1 fresh) = log fresh ++ l
            /\ hits_on "p1" l = [hit_by "p1"; hit_by "p1"].
Proof.
  destruct (own_blast_hits_self_twice fresh 1 1 1) as (_ & _ & l & Hl & H & _).
  - reflexivity.
  - reflexivity.
  - left. reflexivity.
  - exists l. split; [exact Hl|].
    apply (H {| el_node := 0%nat; el_id := "p1"; el_cell := (1, 1) |}); reflexivity.
Defined.

Lemma eliminated_player_refuses_hits_while_flag_is_set_witness :
  lives (me just_eliminated) <= 0
  /\ invulnerable (me soon_after) = true
  /\ handleHit (hit_by "p3") soon_after = soon_after
  /\ step tile PowerUpType_strings no_spawn (PlayerHit (hit_by "p3")) soon_after
     = Some soon_after.
Proof.
  apply (eliminated_player_refuses_hits_while_flag_is_set (TS:=tile)
           PowerUpType_strings no_spawn (hit_by "p2") (hit_by "p3")
           last_life soon_after [Idle 100]).
  - exact last_life_queue_ok.
  - reflexivity.
  - reflexivity.
  - vm_compute. discriminate.
  - vm_compute. reflexivity.
  - vm_compute. reflexivity.
Defined.

(** ** Further properties: the flag and its timer *)

Lemma flag_ok_setTimeout a d s :
  a <> TInvulnerabilityEnd -> 0 <= d -> flag_ok s -> flag_ok (setTimeout a d s).
Proof.
  intros Ha Hd [Hq Hf]. split; [apply queue_ok_setTimeout; assumption|].
  change (invulnerable (me (setTimeout a d s))) with (invulnerable (me s)).
  destruct (invulnerable (me s)); [|exact Hf].
  destruct Hf as (t & Hp & Hdue). exists t. split; [|exact Hdue].
  apply pending_setTimeout; assumption.
Qed.

Lemma flag_ok_handleHit d s : flag_ok s -> flag_ok (handleHit d s).
Proof.
  intros [Hq Hf].
  destruct (strict_eq (hit_playerId d) (JString (pid (me s)))) eqn:Hid.
  - destruct (invulnerable (me s)) eqn:Hinv.
    + rewrite handleHit_invulnerable by exact Hinv. split; [exact Hq|].
      rewrite Hinv. exact Hf.
    + apply strict_eq_true in Hid.
      destruct (handleHit_accepted_pending d s Hq Hid Hinv) as (t & Hp & Hdue).
      split; [exact (pending_queue_ok t _ Hp)|].
      replace (invulnerable (me (handleHit d s))) with true
        by (symmetry; apply Hp).
      exists t. split; [exact Hp|].
      destruct (handleHit_steady d s) as [-> _].
      unfold invulnerabilityDuration. lia.
  - assert (E : handleHit d s = s) by (unfold handleHit; rewrite Hid; reflexivity).
    rewrite E. split; assumption.
Qed.

Lemma queue_ok_pop s u :
  queue_ok s -> next_timer (timers s) = Some u ->
  queue_ok (with_clock (Z.max (now s) (due u))
              (List.filter (fun tm => negb (Nat.eqb (tid tm) (tid u))) (timers s)) s).
Proof.
  intros (Hnd & Hlt & Hnow & Hheld) Hn.
  destruct (next_timer_least _ _ Hn) as [Hu Hmin].
  unfold queue_ok. simpl. repeat split.
  - apply NoDup_tid_filter, Hnd.
  - intros v Hv. apply filter_In in Hv. apply Hlt, Hv.
  - intros v Hv. apply filter_In in Hv. destruct Hv as [Hv _].
    specialize (Hmin v Hv). specialize (Hnow v Hv). lia.
  - intros v Hv Hav. apply filter_In in Hv. apply Hheld; [apply Hv | exact Hav].
Qed.

Ltac flag_side :=
  first [ exact flag_ok_setTimeout
        | exact flag_ok_handleHit
        | intros; assumption ].

Lemma flag_ok_step {TS : positive} PT spawn l s s' :
  step TS PT spawn l s = Some s' -> flag_ok s -> flag_ok s'.
Proof.
  intros Hstep Hf.
  destruct l;
    try (eapply (keeps_step flag_ok); [..|exact Hstep|exact Hf];
         first [discriminate | intros; discriminate | flag_side]).
  - (* time passes *)
    destruct Hf as [Hq Hf]. split; [exact (queue_ok_step (TS:=TS) _ _ _ _ _ Hstep Hq)|].
    destruct (step_steady (TS:=TS) _ _ _ _ _ Hstep) as [Hnow _].
    destruct (invulnerable (me s)) eqn:Hinv.
    + destruct Hf as (t & Hp & Hdue).
      destruct (pending_step (TS:=TS) _ _ _ _ _ _ Hp Hstep) as [Hp' | (Hl & _)];
        [|discriminate].
      replace (invulnerable (me s')) with true by (symmetry; apply Hp').
      exists t. split; [exact Hp' | lia].
    + simpl in Hstep. destruct (_ && _); [|discriminate]. injection Hstep as <-.
      simpl. rewrite Hinv. exact Hf.
  - (* a timer expires *)
    destruct Hf as [Hq Hf]. split; [exact (queue_ok_step (TS:=TS) _ _ _ _ _ Hstep Hq)|].
    destruct (step_steady (TS:=TS) _ _ _ _ _ Hstep) as [Hnow _].
    destruct (invulnerable (me s)) eqn:Hinv.
    + destruct Hf as (t & Hp & Hdue).
      destruct (pending_step (TS:=TS) _ _ _ _ _ _ Hp Hstep)
        as [Hp' | (_ & _ & Hi & Ht & _)].
      * replace (invulnerable (me s')) with true by (symmetry; apply Hp').
        exists t. split; [exact Hp' | lia].
      * rewrite Hi. exact Ht.
    + simpl in Hstep.
      destruct (next_timer (timers s)) as [u|] eqn:Hn; [|discriminate].
      injection Hstep as <-.
      destruct (next_timer_least _ _ Hn) as [Hu Hmin].
      assert (Hne : act u <> TInvulnerabilityEnd).
      { intros Hau. destruct Hq as (_ & _ & _ & Hheld).
        rewrite (Hheld u Hu Hau) in Hf. discriminate. }
      apply (keeps_run_timer flag_ok); [flag_side .. | exact Hne |].
      split; [apply queue_ok_pop; assumption|].
      change (if invulnerable (me s) then
                exists t, pending t (with_clock (Z.max (now s) (due u))
                                       (List.filter (fun tm => negb (Nat.eqb (tid tm) (tid u)))
                                          (timers s)) s)
                          /\ due t <= Z.max (now s) (due u) + invulnerabilityDuration
              else invulnerabilityTimer (me s) = None).
      rewrite Hinv. exact Hf.
Qed.

Lemma flag_ok_construct {TS : positive} id nick startX startY container playerNum d stored t0 :
  flag_ok (construct TS id nick startX startY container playerNum d stored t0).
Proof.
  split; [apply queue_ok_construct|]. destruct container; reflexivity.
Qed.

Lemma flag_ok_run {TS : positive} PT spawn ls :
  forall s s', flag_ok s -> run TS PT spawn ls s = Some s' -> flag_ok s'.
Proof.
  induction ls as [|l ls IH]; intros s s' Hf Hrun; simpl in Hrun.
  - injection Hrun as <-. exact Hf.
  - destruct (step TS PT spawn l s) as [s1|] eqn:Hstep; [|discriminate].
    apply (IH s1 s'); [|exact Hrun]. exact (flag_ok_step (TS:=TS) _ _ _ _ _ Hstep Hf).
Qed.

(** X1. In every state reached from a newly created player, the
    invulnerable flag is up exactly while a timer that ends it is
    pending: when the flag is up there is one such timer in the queue,
    it is the one the player holds and it is due within 2000 ms; when
    the flag is down the player holds no timer and none is queued.  At
    no time are two such timers pending. *)
Theorem invulnerability_always_has_its_end_pending {TS : positive}
    PT spawn id nick startX startY container playerNum d stored t0 ls s' :
  run TS PT spawn ls (construct TS id nick startX startY container playerNum d stored t0)
  = Some s' ->
  (invulnerable (me s') = true ->
   exists t, In t (timers s') /\ act t = TInvulnerabilityEnd
             /\ invulnerabilityTimer (me s') = Some (tid t)
             /\ now s' <= due t <= now s' + 2000)
  /\ (invulnerable (me s') = false ->
      invulnerabilityTimer (me s') = None
      /\ forall u, In u (timers s') -> act u <> TInvulnerabilityEnd)
  /\ (forall u v, In u (timers s') -> In v (timers s') ->
                  act u = TInvulnerabilityEnd -> act v = TInvulnerabilityEnd -> u = v).
Proof.
  intros Hrun.
  pose proof (flag_ok_run (TS:=TS) PT spawn ls _ _
                (flag_ok_construct (TS:=TS) _ _ _ _ _ _ _ _ _) Hrun)
    as [Hq Hf].
  split; [|split].
  - intros Hi. rewrite Hi in Hf. destruct Hf as (t & Hp & Hdue).
    exists t. destruct Hp as (_ & Ht & Hact & Hin & _ & _ & _ & Hnow).
    split; [exact Hin|]. split; [exact Hact|]. split; [exact Ht|].
    split; [apply Hnow, Hin|]. unfold invulnerabilityDuration in Hdue. exact Hdue.
  - intros Hi. rewrite Hi in Hf. split; [exact Hf|].
    intros u Hu Hau. destruct Hq as (_ & _ & _ & Hheld).
    rewrite (Hheld u Hu Hau) in Hf. discriminate.
  - intros u v Hu Hv Hau Hav. destruct Hq as (Hnd & _ & _ & Hheld).
    apply (NoDup_tid_eq (timers s')); try assumption.
    pose proof (Hheld u Hu Hau) as H1. pose proof (Hheld v Hv Hav) as H2.
    congruence.
Qed.

Lemma invulnerability_always_has_its_end_pending_witness :
  exists t, In t (timers eliminated) /\ act t = TInvulnerabilityEnd
            /\ invulnerabilityTimer (me eliminated) = Some (tid t)
            /\ now eliminated <= due t <= now eliminated + 2000.
Proof.
  destruct (invulnerability_always_has_its_end_pending (TS:=tile)
              PowerUpType_strings no_spawn "p1" "Ann" 1 1 true None empty_scene
              (Some "p1") 0 three_hits eliminated) as (H & _).
  - vm_compute. reflexivity.
  - apply H. vm_compute. reflexivity.
Defined.

(** ** Further properties: what a hit announces *)

(** X2. An accepted hit publishes [player:damaged], sends PLAYER_HIT
    and publishes the start of invulnerability, in that order; when the
    lives have reached 0 it then publishes and sends the elimination,
    and sends the forced elimination only when the payload names the
    player itself as attacker.  The attacker announced is the one of
    the payload, or the player's own id when the payload has none (an
    absent, empty or zero [attackerId]): in that case the elimination
    names the player as attacker but is not forced. *)
Theorem accepted_hit_announcements (d : HitData) (s : State) :
  hit_playerId d = JString (pid (me s)) ->
  invulnerable (me s) = false ->
  let id := pid (me s) in
  let attacker := js_or (hit_attackerId d) (JString id) in
  log (handleHit d s)
  = log s
    ++ [EmitPlayerDamaged id (lives (me s) - 1); SendPlayerHit id attacker;
        EmitInvulnerabilityStart id]
    ++ (if lives (me s) - 1 <=? 0
        then [EmitPlayerEliminated id attacker; SendPlayerEliminatedLiteral id attacker]
             ++ (if strict_eq (hit_attackerId d) (JString id)
                 then [SendPlayerEliminated id id true] else [])
        else [])
  /\ (truthy (hit_attackerId d) = true -> attacker = hit_attackerId d)
  /\ (truthy (hit_attackerId d) = false ->
      attacker = JString id
      /\ (id <> "" -> strict_eq (hit_attackerId d) (JString id) = false)).
Proof.
  intros Hid Hinv id attacker. subst id attacker. split.
  - unfold handleHit, setInvulnerable, removePlayerElement.
    rewrite Hid, strict_eq_refl, Hinv.
    destruct (playerElement (me s)) eqn:Hel;
      destruct (invulnerabilityTimer (me s)) eqn:Htm;
      repeat (progress (hit_cbn; rewrite ?Hel, ?Htm));
      destruct (lives (me s) - 1 <=? 0);
      repeat (progress (hit_cbn; rewrite ?Hel, ?Htm));
      repeat (break_if; repeat (progress (hit_cbn; rewrite ?Hel, ?Htm)));
      rewrite <- ?app_assoc; reflexivity.
  - unfold js_or. split; [intros ->; reflexivity|]. intros Hf. rewrite Hf.
    split; [reflexivity|]. intros Hne.
    unfold strict_eq. apply bool_decide_eq_false_2. intros E. rewrite E in Hf.
    simpl in Hf. apply negb_false_iff, String.eqb_eq in Hf. contradiction.
Qed.

Lemma accepted_hit_announcements_witness :
  log (handleHit anonymous_hit last_life)
  = [EmitPlayerDamaged "p1" 0; SendPlayerHit "p1" (JString "p1");
     EmitInvulnerabilityStart "p1"; EmitPlayerEliminated "p1" (JString "p1");
     SendPlayerEliminatedLiteral "p1" (JString "p1")].
Proof.
  destruct (accepted_hit_announcements anonymous_hit last_life) as (H & _).
  - reflexivity.
  - reflexivity.
  - rewrite H. vm_compute. reflexivity.
Defined.

(** ** Further properties: keyboard movement *)

Lemma isValidPosition_true (d : Document) (x y : Q) :
  isValidPosition d x y = true ->
  (0 <= x)%Q /\ (x < inject_Z GRID_WIDTH)%Q
  /\ (0 <= y)%Q /\ (y < inject_Z GRID_HEIGHT)%Q
  /\ is_wall (Qfloor x) (Qfloor y) = false
  /\ (existsb (cell_eqb (Qfloor x, Qfloor y)) (greenSpaces d) = true
      \/ (existsb (fun b => cell_eqb (Qfloor x, Qfloor y) (snd b)) (blocks d) = false
          /\ existsb (fun b => cell_eqb (Qfloor x, Qfloor y) (snd b)) (bombs d) = false)).
Proof.
  unfold isValidPosition, Qlt_bool. intros H.
  destruct (Qle_bool 0 x) eqn:A; destruct (Qle_bool 0 y) eqn:B;
    destruct (Qle_bool (inject_Z GRID_WIDTH) x) eqn:C;
    destruct (Qle_bool (inject_Z GRID_HEIGHT) y) eqn:D;
    simpl in H; try discriminate.
  apply Qle_bool_iff in A, B.
  assert (C' : (x < inject_Z GRID_WIDTH)%Q).
  { apply Qnot_le_lt. intros E. apply Qle_bool_iff in E. congruence. }
  assert (D' : (y < inject_Z GRID_HEIGHT)%Q).
  { apply Qnot_le_lt. intros E. apply Qle_bool_iff in E. congruence. }
  rewrite !rem2_even in H. unfold is_wall.
  destruct (Z.even (Qfloor x) && Z.even (Qfloor y)); [discriminate|].
  destruct ((Qfloor x =? 0) || (Qfloor y =? 0)) eqn:E; [discriminate|].
  apply orb_false_iff in E. destruct E as [-> ->].
  repeat split; try assumption.
  destruct (existsb (cell_eqb (Qfloor x, Qfloor y)) (greenSpaces d)); [left; reflexivity|].
  right.
  destruct (existsb (fun b => cell_eqb (Qfloor x, Qfloor y) (snd b)) (blocks d));
    [discriminate|].
  destruct (existsb (fun b => cell_eqb (Qfloor x, Qfloor y) (snd b)) (bombs d));
    [discriminate|]. split; reflexivity.
Qed.

Lemma checkForVisiblePowerUp_keeps_course PT s :
  px (me (checkForVisiblePowerUp PT s)) = px (me s)
  /\ py (me (checkForVisiblePowerUp PT s)) = py (me s)
  /\ direction (me (checkForVisiblePowerUp PT s)) = direction (me s)
  /\ exists l, log (checkForVisiblePowerUp PT s) = log s ++ l.
Proof.
  apply (keeps_checkForVisiblePowerUp
           (fun s1 => px (me s1) = px (me s) /\ py (me s1) = py (me s)
                      /\ direction (me s1) = direction (me s)
                      /\ exists l, log s1 = log s ++ l));
    try (intros; assumption).
  - intros e s1 (A & B & C & l & Hl). repeat split; try assumption.
    exists (l ++ [e]). simpl. rewrite Hl, app_assoc. reflexivity.
  - repeat split. exists []. symmetry. apply app_nil_r.
Qed.

(** X3. An arrow key pressed while the player is in the game and the
    game is neither paused nor over always turns the player and always
    sends MOVE with the position the player then has.  The position
    changes only when [isValidPosition] accepts the target: the player
    is then on the target, which lies inside the playable bounds and is
    no parity or border wall, and [player:moved] is published;
    otherwise the position stays and the turn and the MOVE are all that
    happens. *)
Theorem arrow_key_turns_and_moves_if_valid {TS : positive} PT (key : string) (s : State)
    (tx ty : Q) (dir : Direction) :
  arrow_target key (px (me s)) (py (me s)) = Some (tx, ty, dir) ->
  is_Some (playerElement (me s)) ->
  isGamePaused s = false -> isGameOver s = false ->
  let s' := handleKeyDown TS PT key s in
  direction (me s') = dir
  /\ (exists l, log s' = log s ++ l ++ [SendMove (px (me s')) (py (me s')) dir])
  /\ (isValidPosition (doc s) tx ty = false ->
      s' = emit (SendMove (px (me s)) (py (me s)) dir)
             (with_me (set_heading dir (moving (me s))) s))
  /\ (isValidPosition (doc s) tx ty = true ->
      px (me s') = tx /\ py (me s') = ty
      /\ (0 <= tx)%Q /\ (tx < 14)%Q /\ (0 <= ty)%Q /\ (ty < 16)%Q
      /\ is_wall (Qfloor tx) (Qfloor ty) = false
      /\ exists l, log s' = log s ++ EmitPlayerMoved (pid (me s)) tx ty :: l).
Proof.
  intros Harrow Hel Hp Ho s'. subst s'. unfold handleKeyDown.
  rewrite bool_decide_eq_true_2 by exact Hel. rewrite Hp, Ho. simpl negb. cbv iota.
  simpl orb. cbv iota.
  change (if String.eqb key "ArrowUp" then _ else _)
    with (arrow_target key (px (me s)) (py (me s))).
  rewrite Harrow.
  change (doc (with_me (set_heading dir (moving (me s))) s)) with (doc s).
  destruct (isValidPosition (doc s) tx ty) eqn:Hv.
  - set (s1 := emitPositionUpdate (updateVisualPosition TS
                 (with_me (set_position tx ty)
                    (with_me (set_heading dir (moving (me s))) s)))).
    assert (H1 : px (me s1) = tx /\ py (me s1) = ty /\ direction (me s1) = dir
                 /\ pid (me s1) = pid (me s)
                 /\ log s1 = log s ++ [EmitPlayerMoved (pid (me s)) tx ty]).
    { subst s1. unfold emitPositionUpdate.
      match goal with
      | |- context [updateVisualPosition TS ?s0] =>
          destruct (updateVisualPosition_frame (TS:=TS) s0) as [Hm _];
          assert (Hlog : log (updateVisualPosition TS s0) = log s)
            by (unfold updateVisualPosition; break_match; reflexivity)
      end.
      simpl. rewrite Hm, Hlog. simpl. repeat split. }
    destruct H1 as (Hx & Hy & Hd & Hi & Hl).
    assert (H2 : exists s2, (if isLocalPlayer s1 then checkForVisiblePowerUp PT s1 else s1) = s2
                 /\ px (me s2) = tx /\ py (me s2) = ty /\ direction (me s2) = dir
                 /\ exists l, log s2 = log s1 ++ l).
    { eexists. split; [reflexivity|]. destruct (isLocalPlayer s1).
      - destruct (checkForVisiblePowerUp_keeps_course PT s1) as (A & B & C & D).
        rewrite A, B, C. repeat split; assumption.
      - repeat split; try assumption. exists []. symmetry. apply app_nil_r. }
    destruct H2 as (s2 & -> & Hx2 & Hy2 & Hd2 & l & Hl2).
    clearbody s1. simpl. rewrite Hx2, Hy2, Hd2, Hl2, Hl.
    destruct (isValidPosition_true _ _ _ Hv) as (B1 & B2 & B3 & B4 & Hw & _).
    split; [reflexivity|]. split.
    + exists ([EmitPlayerMoved (pid (me s)) tx ty] ++ l).
      rewrite <- !app_assoc. reflexivity.
    + split; [discriminate|]. intros _. repeat split; try assumption.
      exists (l ++ [SendMove tx ty dir]). rewrite <- !app_assoc. reflexivity.
  - simpl. split; [reflexivity|]. split.
    + exists []. reflexivity.
    + split; [reflexivity | discriminate].
Qed.

Lemma arrow_key_turns_and_moves_if_valid_witness :
  direction (me stepped_right) = RIGHT
  /\ px (me stepped_right) = (1 + 1)%Q.
Proof.
  destruct (arrow_key_turns_and_moves_if_valid (TS:=tile) PowerUpType_strings "ArrowRight" fresh
              (1 + 1)%Q 1 RIGHT) as (H1 & _ & _ & H2).
  - reflexivity.
  - exists 0%nat. reflexivity.
  - reflexivity.
  - reflexivity.
  - split; [exact H1|]. apply H2. vm_compute. reflexivity.
Defined.

(** ** Further properties: collecting a power-up *)

Lemma handlePowerUp_me PT d s s0 :
  me s0 = me s -> me (handlePowerUp PT d s0) = me (handlePowerUp PT d s).
Proof.
  intros E. unfold handlePowerUp. rewrite E.
  repeat break_if; simpl; rewrite ?E; reflexivity.
Qed.

Lemma handlePowerUp_rest PT d s :
  doc (handlePowerUp PT d s) = doc s
  /\ timers (handlePowerUp PT d s) = timers s
  /\ exists l, log (handlePowerUp PT d s) = log s ++ l
               /\ forall e, In e l -> exists a b c x y, e = EmitStatsUpdate a b c x y.
Proof.
  destruct (handlePowerUp_cases PT d s) as [E | [(sp & cap & rng & E) | [_ E]]];
    rewrite E; simpl; repeat split;
    first [ exists []; split; [symmetry; apply app_nil_r | intros e []]
          | eexists; split; [reflexivity|]; intros e [<- | []]; eauto 6 ].
Qed.

(** X4. A move collects at most one power-up: the first element, in
    document order, that lies on the player's cell and carries a type.
    That element is removed and every other power-up stays, also one on
    the same cell; the collection is sent, then the verified
    [powerup:applied] is published and handled, then
    [powerup:collected] is published.  With no such element nothing
    happens. *)
Theorem one_powerup_collected_per_move PT (s : State) :
  let gx := Qfloor (px (me s)) in
  let gy := Qfloor (py (me s)) in
  let s' := checkForVisiblePowerUp PT s in
  match find (collectable (gx, gy)) (powerups (doc s)) with
  | None => s' = s
  | Some el =>
      exists ty,
        pu_type el = Some ty
        /\ powerups (doc s') = remove_node pu_node (pu_node el) (powerups (doc s))
        /\ let applied := {| pw_playerId := JString (pid (me s));
                             pw_type := JString ty;
                             pw_source := JString "visual_verification" |} in
           me s' = me (handlePowerUp PT applied s)
           /\ exists stats,
                log s' = log s
                         ++ [SendCollectPowerup (pid (me s)) (now s) ty gx gy;
                             EmitPowerupApplied applied]
                         ++ stats
                         ++ [EmitPowerupCollected (pid (me s)) ty gx gy]
                /\ forall e, In e stats -> exists a b c x y, e = EmitStatsUpdate a b c x y
  end.
Proof.
  cbv zeta. unfold checkForVisiblePowerUp. rewrite collect_powerup_first.
  destruct (find (collectable _) (powerups (doc s))) as [el|] eqn:Hf; [|reflexivity].
  apply find_some in Hf. destruct Hf as [_ Hc]. unfold collectable in Hc.
  apply andb_true_iff in Hc. destruct Hc as [Hcell Hty].
  destruct (pu_type el) as [ty|] eqn:Ht; [|discriminate].
  exists ty. split; [reflexivity|].
  unfold collect_powerup. rewrite Hcell, Ht.
  apply negb_true_iff in Hty. rewrite Hty. cbn [orb snd].
  unfold emit_powerup_applied.
  match goal with
  | |- context [handlePowerUp PT ?d ?s0] =>
      destruct (handlePowerUp_rest PT d s0) as (Hd & _ & l & Hl & Hstats);
      pose proof (handlePowerUp_me PT d s s0 eq_refl) as Hm
  end.
  simpl in *. rewrite Hd, Hm, Hl. simpl.
  split; [reflexivity|]. split; [reflexivity|].
  exists l. split; [|exact Hstats].
  rewrite <- !app_assoc. reflexivity.
Qed.

Lemma one_powerup_collected_per_move_witness :
  powerups (doc (checkForVisiblePowerUp PowerUpType_strings two_flames))
  = [ {| pu_node := 9%nat; pu_cell := (1, 1); pu_type := Some "flame" |} ].
Proof.
  pose proof (one_powerup_collected_per_move PowerUpType_strings two_flames) as H.
  cbv zeta in H.
  assert (E : find (collectable (Qfloor (px (me two_flames)), Qfloor (py (me two_flames))))
                (powerups (doc two_flames))
              = Some {| pu_node := 8%nat; pu_cell := (1, 1); pu_type := Some "flame" |})
    by (vm_compute; reflexivity).
  rewrite E in H. destruct H as (ty & _ & Hp & _). rewrite Hp.
  vm_compute. reflexivity.
Defined.

(** ** Further properties: stats *)

Lemma Qlt_bool_true (a b : Q) : Qlt_bool a b = true -> (a < b)%Q.
Proof.
  unfold Qlt_bool. intros H. apply negb_true_iff in H.
  apply Qnot_le_lt. intros Hle. apply Qle_bool_iff in Hle. congruence.
Qed.

Lemma positive_value_pos v n : positive_value v = Some n -> (0 < n)%Q.
Proof.
  unfold positive_value. destruct v as [m|]; [|discriminate].
  destruct (Qlt_bool 0 m) eqn:Hm; [|discriminate]. intros [= <-].
  apply Qlt_bool_true, Hm.
Qed.

Lemma raised_positive (q r : Q) : (0 < q)%Q -> (0 < r)%Q -> (0 < q + r)%Q.
Proof.
  intros Hq Hr. apply Qlt_trans with q; [exact Hq|].
  rewrite <- (Qplus_0_r q) at 1. apply Qplus_lt_r. exact Hr.
Qed.

Ltac stat_positive :=
  first [ assumption
        | apply raised_positive; [assumption | reflexivity] ].

Lemma handlePowerUp_stats PT d s :
  stats_positive s -> stats_positive (handlePowerUp PT d s).
Proof.
  intros (A & B & C). unfold handlePowerUp, stats_positive.
  repeat break_if; simpl; repeat split; stat_positive.
Qed.

Lemma handleStatUpdate_stats PT d s :
  stats_positive s -> stats_positive (handleStatUpdate PT d s).
Proof.
  intros (A & B & C). unfold handleStatUpdate, stats_positive.
  destruct (positive_value (st_value d)) as [v|] eqn:Hv;
    [apply positive_value_pos in Hv|];
    repeat break_if; simpl; repeat split; stat_positive.
Qed.

Lemma handleHit_stats d s : stats_positive s -> stats_positive (handleHit d s).
Proof.
  intros H. unfold handleHit, setInvulnerable, removePlayerElement, stats_positive.
  repeat (first [break_if | break_match]; simpl); exact H.
Qed.

Ltac stats_side :=
  first [ exact handleHit_stats | intros; assumption ].

Lemma checkForVisiblePowerUp_stats PT s :
  stats_positive s -> stats_positive (checkForVisiblePowerUp PT s).
Proof.
  intros Hs. unfold checkForVisiblePowerUp.
  generalize (Qfloor (px (me s))) (Qfloor (py (me s))). intros gx gy.
  assert (H : forall els acc, stats_positive (snd acc) ->
                stats_positive (snd (fold_left (collect_powerup PT gx gy) els acc))).
  { induction els as [|el els IH]; intros acc Ha; simpl; [exact Ha|].
    apply IH. destruct acc as [found s0]. unfold collect_powerup.
    repeat (first [break_if | break_match]); try exact Ha.
    cbn [snd] in *. unfold emit_powerup_applied.
    match goal with
    | |- context [handlePowerUp PT ?d ?s1] =>
        pose proof (handlePowerUp_stats PT d s1 Ha) as H
    end.
    exact H. }
  apply H. exact Hs.
Qed.

Lemma handleKeyDown_stats {TS : positive} PT key s :
  stats_positive s -> stats_positive (handleKeyDown TS PT key s).
Proof.
  intros Hs. unfold handleKeyDown.
  destruct (negb (bool_decide (is_Some (playerElement (me s))))); [exact Hs|].
  destruct (isGamePaused s || isGameOver s); [exact Hs|].
  destruct (if String.eqb key "ArrowUp" then _ else _) as [[[newX newY] d]|].
  - destruct (isValidPosition _ newX newY); [|exact Hs].
    match goal with
    | |- context [emitPositionUpdate (updateVisualPosition TS ?s0)] =>
        assert (H1 : stats_positive (emitPositionUpdate (updateVisualPosition TS s0)))
    end.
    { unfold emitPositionUpdate, stats_positive.
      match goal with
      | |- context [updateVisualPosition TS ?s0] =>
          destruct (updateVisualPosition_frame (TS:=TS) s0) as [Hm _]
      end.
      simpl. rewrite Hm. exact Hs. }
    break_if; [|exact H1].
    exact (checkForVisiblePowerUp_stats PT _ H1).
  - break_if; [|exact Hs].
    apply (keeps_placeBomb stats_positive); stats_side.
Qed.

Lemma stats_positive_step {TS : positive} PT spawn l s s' :
  step TS PT spawn l s = Some s' -> stats_positive s -> stats_positive s'.
Proof.
  intros Hstep Hs.
  destruct l; simpl in Hstep; try (injection Hstep as <-); try exact Hs.
  - break_if; [apply handleKeyDown_stats|]; exact Hs.
  - apply handlePowerUp_stats, Hs.
  - apply handleStatUpdate_stats, Hs.
  - apply handleHit_stats, Hs.
  - apply (keeps_setPosition stats_positive); stats_side.
  - apply (keeps_move stats_positive); stats_side.
  - apply (keeps_removePlayerElement stats_positive); stats_side.
  - apply (keeps_placeBomb stats_positive); stats_side.
  - apply (keeps_createExplosion stats_positive); stats_side.
  - destruct (_ && _); [|discriminate]. injection Hstep as <-. exact Hs.
  - destruct (next_timer (timers s)) as [u|]; [|discriminate]. injection Hstep as <-.
    destruct (decide (act u = TInvulnerabilityEnd)) as [-> | Hne]; [exact Hs|].
    apply (keeps_run_timer stats_positive); [stats_side .. | exact Hne | exact Hs].
Qed.

(** X5. In every state reached from a newly created player the bomb
    capacity, the explosion range and the speed are positive: they start
    at 1, 1 and 3, a power-up raises one of them, and a stat update
    either raises one or sets it to the value of the payload, which it
    takes only when that value is above 0.  They need not stay at 1 or
    above, nor whole: a stat update with value 1/2 is taken as it is. *)
Theorem stats_stay_positive {TS : positive}
    PT spawn id nick startX startY container playerNum d stored t0 ls s' :
  run TS PT spawn ls (construct TS id nick startX startY container playerNum d stored t0)
  = Some s' ->
  (0 < bombCapacity (me s'))%Q /\ (0 < explosionRange (me s'))%Q
  /\ (0 < speed (me s'))%Q.
Proof.
  assert (H : forall ls s s', stats_positive s -> run TS PT spawn ls s = Some s' ->
                              stats_positive s').
  { clear. induction ls as [|l ls IH]; intros s s' Hs Hrun; simpl in Hrun.
    - injection Hrun as <-. exact Hs.
    - destruct (step TS PT spawn l s) as [s1|] eqn:Hstep; [|discriminate].
      apply (IH s1 s'); [|exact Hrun]. exact (stats_positive_step (TS:=TS) _ _ _ _ _ Hstep Hs). }
  intros Hrun. refine (H ls _ s' _ Hrun).
  unfold stats_positive. destruct container; simpl; repeat split; reflexivity.
Qed.

Lemma stats_stay_positive_witness :
  bombCapacity (me halved) = (1 # 2)%Q
  /\ (0 < bombCapacity (me halved))%Q /\ (0 < explosionRange (me halved))%Q
  /\ (0 < speed (me halved))%Q.
Proof.
  split; [reflexivity|].
  apply (stats_stay_positive (TS:=tile) PowerUpType_strings no_spawn "p1" "Ann" 1 1 true None
           empty_scene (Some "p1") 0 [StatUpdated half_capacity] halved).
  vm_compute. reflexivity.
Defined.

(** ** Further properties: bombs *)

Lemma handleHit_doc d s : doc (handleHit d s) = doc s.
Proof.
  unfold handleHit, setInvulnerable, removePlayerElement.
  repeat (first [break_if | break_match]; simpl); reflexivity.
Qed.

Lemma createExplosion_bombs x y radius s :
  bombs (doc (createExplosion x y radius s)) = bombs (doc s).
Proof.
  apply (keeps_createExplosion (fun s' => bombs (doc s') = bombs (doc s)));
    try (intros; assumption); [|reflexivity].
  intros d s1 H. rewrite handleHit_doc. exact H.
Qed.

Lemma checkForVisiblePowerUp_bombs PT s :
  bombs (doc (checkForVisiblePowerUp PT s)) = bombs (doc s).
Proof.
  unfold checkForVisiblePowerUp. rewrite collect_powerup_first.
  destruct (find _ (powerups (doc s))) as [el|]; [|reflexivity].
  unfold collect_powerup. repeat break_match; try reflexivity.
  cbn [snd]. unfold emit_powerup_applied.
  match goal with
  | |- bombs (doc (emit ?e (handlePowerUp PT ?d ?s0))) = _ =>
      change (bombs (doc (handlePowerUp PT d s0)) = bombs (doc s));
      destruct (handlePowerUp_rest PT d s0) as (-> & _)
  end.
  reflexivity.
Qed.

Lemma updateVisualPosition_bombs {TS : positive} s :
  bombs (doc (updateVisualPosition TS s)) = bombs (doc s).
Proof. unfold updateVisualPosition. break_match; reflexivity. Qed.

Lemma NoDup_snd_filter {A} (f : A * Cell -> bool) (l : list (A * Cell)) :
  NoDup (map snd l) -> NoDup (map snd (List.filter f l)).
Proof.
  induction l as [|a l IH]; simpl; [tauto|]. intros Hnd.
  apply NoDup_cons in Hnd. destruct Hnd as [Ha Hnd].
  destruct (f a); simpl; [|apply IH, Hnd].
  apply NoDup_cons. split; [|apply IH, Hnd].
  intros H. apply Ha. apply list_elem_of_In in H. apply in_map_iff in H.
  destruct H as (u & Hu & Hin). apply filter_In in Hin.
  apply list_elem_of_In. rewrite <- Hu. apply in_map. apply Hin.
Qed.

Lemma placeBomb_bombs_apart s : bombs_apart s -> bombs_apart (placeBomb s).
Proof.
  unfold bombs_apart, placeBomb. intros Hnd.
  repeat break_if; try exact Hnd. simpl. rewrite map_app. simpl.
  apply NoDup_app. split; [exact Hnd|]. split; [|apply NoDup_singleton].
  intros c Hc Hc'. apply list_elem_of_In in Hc'. destruct Hc' as [<- | []].
  apply list_elem_of_In, in_map_iff in Hc. destruct Hc as (b & Hb & Hin).
  match goal with
  | H : existsb _ (bombs (doc s)) = false |- _ =>
      rewrite <- not_true_iff_false in H; apply H
  end.
  apply existsb_exists. exists b. split; [exact Hin|].
  rewrite Hb. apply cell_eqb_eq. reflexivity.
Qed.

Lemma handleKeyDown_bombs_apart {TS : positive} PT key s :
  bombs_apart s -> bombs_apart (handleKeyDown TS PT key s).
Proof.
  intros Hs. unfold handleKeyDown.
  destruct (negb (bool_decide (is_Some (playerElement (me s))))); [exact Hs|].
  destruct (isGamePaused s || isGameOver s); [exact Hs|].
  destruct (if String.eqb key "ArrowUp" then _ else _) as [[[newX newY] d]|].
  - unfold bombs_apart. destruct (isValidPosition _ newX newY); [|exact Hs].
    break_if; simpl; rewrite ?checkForVisiblePowerUp_bombs;
      unfold emitPositionUpdate; simpl; rewrite updateVisualPosition_bombs; exact Hs.
  - break_if; [apply placeBomb_bombs_apart|]; exact Hs.
Qed.

Lemma run_timer_bombs_apart {TS : positive} spawn a s :
  bombs_apart s -> bombs_apart (run_timer TS spawn a s).
Proof.
  unfold bombs_apart. intros Hs.
  destruct a; simpl; try exact Hs.
  - repeat break_match; exact Hs.
  - repeat break_if; exact Hs.
  - rewrite createExplosion_bombs. simpl. unfold remove_node.
    apply NoDup_snd_filter, Hs.
  - repeat break_match; exact Hs.
Qed.

(** X6. No operation of the instance puts two bombs on one cell:
    when the bomb elements of the scene lie on distinct cells, they
    still do after any key press, event, method call, passing of time or
    timer expiry.  (Only other code that rewrites the scene can break
    this.) *)
Theorem bombs_stay_on_distinct_cells {TS : positive} PT spawn (l : Label) (s s' : State) :
  (forall d, l <> Scene d) ->
  step TS PT spawn l s = Some s' ->
  NoDup (map snd (bombs (doc s))) ->
  NoDup (map snd (bombs (doc s'))).
Proof.
  intros Hl Hstep Hs. fold (bombs_apart s) in Hs. fold (bombs_apart s').
  destruct l; simpl in Hstep; try (injection Hstep as <-); try exact Hs.
  - break_if; [apply handleKeyDown_bombs_apart|]; exact Hs.
  - unfold bombs_apart.
    destruct (handlePowerUp_rest PT data s) as (-> & _). exact Hs.
  - unfold bombs_apart.
    destruct (handleStatUpdate_cases PT data s)
      as [E | [(sp & cap & rng & E) | [E | [_ E]]]]; rewrite E; exact Hs.
  - unfold bombs_apart. rewrite handleHit_doc. exact Hs.
  - unfold bombs_apart, setPosition, emitPositionUpdate. simpl.
    rewrite updateVisualPosition_bombs. exact Hs.
  - unfold bombs_apart, move, emitPositionUpdate.
    repeat break_if; simpl; rewrite ?updateVisualPosition_bombs; exact Hs.
  - unfold bombs_apart, removePlayerElement. repeat break_match; exact Hs.
  - apply placeBomb_bombs_apart, Hs.
  - unfold bombs_apart. rewrite createExplosion_bombs. exact Hs.
  - exfalso. exact (Hl d eq_refl).
  - destruct (_ && _); [|discriminate]. injection Hstep as <-. exact Hs.
  - destruct (next_timer (timers s)) as [u|]; [|discriminate]. injection Hstep as <-.
    apply run_timer_bombs_apart. exact Hs.
Qed.

Lemma bombs_stay_on_distinct_cells_witness :
  NoDup (map snd (bombs (doc bomb_dropped))).
Proof.
  apply (bombs_stay_on_distinct_cells (TS:=tile) PowerUpType_strings no_spawn CallPlaceBomb fresh).
  - intros d H. discriminate H.
  - reflexivity.
  - vm_compute. constructor.
Defined.

(** ** Further properties: blocks destroyed by a detonation *)

Lemma destroyed_in_app l1 l2 :
  destroyed_in (l1 ++ l2) = destroyed_in l1 ++ destroyed_in l2.
Proof. unfold destroyed_in. apply flat_map_app. Qed.

Lemma handleHit_spares_blocks d s :
  exists l, emits s (handleHit d s) l /\ destroyed_in l = [].
Proof.
  unfold handleHit, setInvulnerable, removePlayerElement, emits.
  repeat (first [break_if | break_match]; simpl);
    first [ exists []; split; [symmetry; apply app_nil_r | reflexivity]
          | rewrite <- ?app_assoc; eexists; split; [reflexivity | reflexivity] ].
Qed.

Lemma emit_player_hit_spares_blocks d s :
  exists l, emits s (emit_player_hit d s) l /\ destroyed_in l = [].
Proof.
  unfold emit_player_hit.
  destruct (handleHit_spares_blocks d (emit (EmitPlayerHit d) s)) as (l & Hl & Hd).
  exists ([EmitPlayerHit d] ++ l). split.
  - apply (emits_trans _ _ _ _ _ (emits_emit _ s) Hl).
  - rewrite destroyed_in_app, Hd. reflexivity.
Qed.

Lemma checkPlayerHit_spares_blocks x y s :
  exists l, emits s (checkPlayerHit x y s) l /\ destroyed_in l = [].
Proof.
  unfold checkPlayerHit.
  apply (fold_left_keeps (fun s' => exists l, emits s s' l /\ destroyed_in l = [])).
  - intros s1 el (l & Hl & Hd). break_if; [|exists l; split; assumption].
    match goal with
    | |- context [emit_player_hit ?d s1] =>
        destruct (emit_player_hit_spares_blocks d s1) as (l1 & Hl1 & Hd1)
    end.
    exists (l ++ l1). split; [eapply emits_trans; eassumption|].
    rewrite destroyed_in_app, Hd, Hd1. reflexivity.
  - exists []. split; [apply emits_refl | reflexivity].
Qed.

Lemma destroy_blocks_destroyed x y bs :
  forall s, exists l, emits s (fold_left (destroy_block x y) bs s) l
                      /\ destroyed_in l = map (fun _ => (x, y)) bs.
Proof.
  induction bs as [|b bs IH]; intros s; simpl.
  - exists []. split; [apply emits_refl | reflexivity].
  - destruct (IH (destroy_block x y s b)) as (l & Hl & Hd).
    assert (H1 : exists l1, emits s (destroy_block x y s b) l1
                            /\ destroyed_in l1 = [(x, y)]).
    { unfold destroy_block, emits. break_if; simpl; rewrite <- ?app_assoc;
        eexists; (split; [reflexivity | reflexivity]). }
    destruct H1 as (l1 & Hl1 & Hd1).
    exists (l1 ++ l). split; [eapply emits_trans; eassumption|].
    rewrite destroyed_in_app, Hd1, Hd. reflexivity.
Qed.

Lemma destroyBlockAt_destroyed (x y : Z) (D : gset Cell) (s : State) :
  gameContainer (me s) = true -> (x, y) ∉ D ->
  exists l, emits s (snd (destroyBlockAt x y D s)) l
            /\ destroyed_in l = map (fun _ => (x, y)) (blocks_at (doc s) (x, y)).
Proof.
  intros Hg HD. unfold destroyBlockAt. rewrite Hg. simpl negb. cbv iota.
  rewrite bool_decide_eq_false_2 by exact HD.
  fold (blocks_at (doc s) (x, y)).
  destruct (blocks_at (doc s) (x, y)) as [|b bs] eqn:E.
  - simpl. exists []. split; [apply emits_refl | reflexivity].
  - replace (0 <? Z.of_nat (length (b :: bs))) with true
      by (symmetry; apply Z.ltb_lt; simpl; lia).
    cbn [snd]. apply destroy_blocks_destroyed.
Qed.

Lemma ray_body_destroyed (dir : Dir) (ex ey : Z) (D : gset Cell) (s0 s : State) :
  still s0 s -> gameContainer (me s0) = true -> (ex, ey) ∉ D ->
  exists l, emits s (snd (ray_body dir ex ey D s)) l
            /\ destroyed_in l = map (fun _ => (ex, ey)) (blocks_at (doc s0) (ex, ey)).
Proof.
  intros Hst Hg HD. unfold ray_body.
  assert (Hg1 : gameContainer (me (createElement s)) = true).
  { simpl. destruct Hst as (_ & _ & _ & _ & _ & -> & _). exact Hg. }
  rewrite Hg1.
  set (s2 := append_explosion (nextNode s) (name dir) (ex, ey) (createElement s)).
  assert (Hb2 : blocks (doc s2) = blocks (doc s0)) by (apply Hst).
  assert (He2 : emits s s2 []) by (unfold emits; simpl; symmetry; apply app_nil_r).
  destruct (destroyBlockAt_destroyed ex ey D s2 Hg1 HD) as (l3 & He3 & Hd3).
  destruct (destroyBlockAt ex ey D s2) as [[w D'] s3]. cbn [snd] in *.
  destruct (checkPlayerHit_spares_blocks ex ey s3) as (l4 & He4 & Hd4).
  set (s4 := checkPlayerHit ex ey s3) in *.
  assert (H5 : exists l5,
            emits s4 (if isLocalPlayer s4
                         && cell_eqb (cell_of (px (me s4)) (py (me s4))) (ex, ey)
                      then emit (SendPlayerHit (pid (me s4)) (JString (pid (me s4))))
                             (emit_player_hit (self_hit s4) s4)
                      else s4) l5
            /\ destroyed_in l5 = []).
  { break_if.
    - destruct (emit_player_hit_spares_blocks (self_hit s4) s4) as (l & Hl & Hd).
      exists (l ++ [SendPlayerHit (pid (me s4)) (JString (pid (me s4)))]).
      split; [eapply emits_trans; [exact Hl | apply emits_emit]|].
      rewrite destroyed_in_app, Hd. reflexivity.
    - exists []. split; [apply emits_refl | reflexivity]. }
  destruct H5 as (l5 & He5 & Hd5).
  exists (l3 ++ l4 ++ l5). split.
  - unfold emits in *. simpl. rewrite He5, He4, He3, He2.
    rewrite app_nil_r, <- !app_assoc. reflexivity.
  - rewrite !destroyed_in_app, Hd3, Hd4, Hd5, !app_nil_r.
    unfold blocks_at. rewrite Hb2. reflexivity.
Qed.

Lemma explosionRay_destroyed (dir : Dir) (x y : Z) (s0 : State) (n : nat) :
  forall (i : Z) (D : gset Cell) (s : State),
    still s0 s -> gameContainer (me s0) = true ->
    (forall c, In c (cells_from dir x y n i) -> c ∉ D) ->
    exists l,
      emits s (snd (explosionRay dir x y n i (D, s))) l
      /\ destroyed_in l
         = flat_map (fun c => map (fun _ => c) (blocks_at (doc s0) c))
             (blast_prefix (doc s0) (cells_from dir x y n i)).
Proof.
  induction n as [|n IH]; intros i D s Hst Hg HD.
  - simpl. exists []. split; [apply emits_refl | reflexivity].
  - rewrite explosionRay_S. cbn [cells_from blast_prefix fst snd].
    destruct (negb (isValidExplosionPosition (x + dx dir * i) (y + dy dir * i))).
    + simpl. exists []. split; [apply emits_refl | reflexivity].
    + assert (Hc : (x + dx dir * i, y + dy dir * i) ∉ D).
      { apply HD. left. reflexivity. }
      destruct (ray_body_spec dir _ _ D s0 s Hst Hg Hc) as (Hst1 & Hw & HD1 & _).
      destruct (ray_body_destroyed dir _ _ D s0 s Hst Hg Hc) as (l1 & He1 & Hd1).
      destruct (ray_body dir (x + dx dir * i) (y + dy dir * i) D s) as [[w D1] s1].
      cbn [fst snd] in *. cbv zeta. cbn [fst snd]. rewrite <- Hw.
      destruct w.
      * cbn [fst snd]. exists l1. split; [exact He1|]. rewrite Hd1. simpl.
        rewrite app_nil_r. reflexivity.
      * subst D1.
        destruct (IH (i + 1) D s1 Hst1 Hg) as (l2 & He2 & Hd2).
        { intros c Hin. apply HD. right. exact Hin. }
        exists (l1 ++ l2). split; [eapply emits_trans; eassumption|].
        rewrite destroyed_in_app, Hd1, Hd2. reflexivity.
Qed.

Lemma rays_destroyed (x y radius : Z) (s0 : State) (dirs : list Dir) :
  forall (D : gset Cell) (s : State),
    still s0 s -> gameContainer (me s0) = true ->
    (forall c, c ∈ D -> ~ In c (flat_map (fun dir => ray_cells dir x y radius) dirs)) ->
    NoDup (flat_map (fun dir => ray_cells dir x y radius) dirs) ->
    exists l,
      emits s (snd (fold_left (fun acc dir => explosionRay dir x y (Z.to_nat radius) 1 acc)
                      dirs (D, s))) l
      /\ destroyed_in l
         = flat_map (fun c => map (fun _ => c) (blocks_at (doc s0) c))
             (flat_map (fun dir => blast_prefix (doc s0) (ray_cells dir x y radius)) dirs).
Proof.
  induction dirs as [|dir dirs IH]; intros D s Hst Hg HD Hnd.
  - simpl. exists []. split; [apply emits_refl | reflexivity].
  - cbn [fold_left flat_map] in *.
    apply NoDup_app in Hnd. destruct Hnd as (_ & Hdisj & Hnd).
    assert (HD0 : forall c, In c (cells_from dir x y (Z.to_nat radius) 1) -> c ∉ D).
    { intros c Hin Hc. apply (HD c Hc). apply in_or_app. left. exact Hin. }
    destruct (explosionRay_spec dir x y s0 (Z.to_nat radius) 1 D s Hst Hg HD0)
      as (Hst1 & HD1 & _).
    destruct (explosionRay_destroyed dir x y s0 (Z.to_nat radius) 1 D s Hst Hg HD0)
      as (l1 & He1 & Hd1).
    fold (ray_cells dir x y radius) in *.
    destruct (explosionRay dir x y (Z.to_nat radius) 1 (D, s)) as [D1 s1].
    cbn [fst snd] in *.
    destruct (IH D1 s1 Hst1 Hg) as (l2 & He2 & Hd2).
    { intros c Hc Hin. destruct (HD1 c Hc) as [H | H].
      - apply (HD c H). apply in_or_app. right. exact Hin.
      - apply blast_prefix_incl in H.
        apply (Hdisj c); apply list_elem_of_In; assumption. }
    { exact Hnd. }
    exists (l1 ++ l2). split; [eapply emits_trans; eassumption|].
    rewrite destroyed_in_app, Hd1, Hd2, flat_map_app. reflexivity.
Qed.

(** X7. A detonation publishes [block:destroyed] once for every block
    element that lies on a cell it resolves (the origin and the prefix
    of each ray, of at most floor(radius) cells) and for no other: the
    events are, cell by cell in the order the cells are resolved, one
    per block element on the cell.
    The resolved cells are distinct, so no block element is reported
    twice within one detonation. *)
Theorem detonation_destroys_each_block_once (x y : Z) (radius : Q) (s : State) :
  gameContainer (me s) = true ->
  NoDup (blast_cells (doc s) x y (Qfloor radius))
  /\ exists l,
       log (createExplosion x y radius s) = log s ++ l
       /\ destroyed_in l
          = flat_map (fun c => map (fun _ => c) (blocks_at (doc s) c))
              (blast_cells (doc s) x y (Qfloor radius)).
Proof.
  intros Hg. split; [apply blast_cells_NoDup|].
  unfold createExplosion. rewrite Hg. simpl negb. cbv iota.
  assert (Hg1 : gameContainer (me (createElement s)) = true) by exact Hg.
  rewrite Hg1.
  set (s3 := setTimeout (TExplosionRemove (nextNode s)) 500
               (append_explosion (nextNode s) "center" (x, y) (createElement s))).
  assert (Hst3 : still s s3) by (unfold still; repeat split).
  assert (He3 : emits s s3 []) by (unfold emits; simpl; symmetry; apply app_nil_r).
  assert (Hg3 : gameContainer (me s3) = true) by exact Hg.
  destruct (destroyBlockAt_spec x y ∅ s3 Hg3 (not_elem_of_empty _)) as (Hsil & Hw & HD).
  destruct (destroyBlockAt_destroyed x y ∅ s3 Hg3 (not_elem_of_empty _))
    as (l4 & He4 & Hd4).
  destruct (destroyBlockAt x y ∅ s3) as [[w D1] s4]. cbn [fst snd] in *.
  destruct Hsil as (Hq4 & _).
  assert (Hst4 : still s s4) by (eapply still_trans; [exact Hst3 | apply Hq4]).
  destruct (checkPlayerHit_spec x y s4 s4 (quiet_refl s4)) as (Hq5 & _).
  destruct (checkPlayerHit_spares_blocks x y s4) as (l5 & He5 & Hd5).
  set (s5 := checkPlayerHit x y s4) in *.
  assert (Hst5 : still s s5) by (eapply still_trans; [exact Hst4 | apply Hq5]).
  set (s6 := if isLocalPlayer s5 && cell_eqb (cell_of (px (me s5)) (py (me s5))) (x, y)
             then emit_player_hit (self_hit s5) s5 else s5).
  assert (H6 : quiet s5 s6 /\ exists l, emits s5 s6 l /\ destroyed_in l = []).
  { subst s6. break_if.
    - split; [apply emit_player_hit_emits | apply emit_player_hit_spares_blocks].
    - split; [apply quiet_refl|]. exists []. split; [apply emits_refl | reflexivity]. }
  destruct H6 as (Hq6 & l6 & He6 & Hd6).
  assert (Hst6 : still s s6) by (eapply still_trans; [exact Hst5 | apply Hq6]).
  destruct (rays_destroyed x y (Qfloor radius) s directions D1 s6 Hst6 Hg) as (l7 & He7 & Hd7).
  { intros c Hc Hin. rewrite HD in Hc. destruct w.
    - apply elem_of_union in Hc. destruct Hc as [Hc | Hc].
      + apply elem_of_singleton in Hc. subst c. exact (origin_off_rays x y (Qfloor radius) Hin).
      + exact (not_elem_of_empty _ Hc).
    - exact (not_elem_of_empty _ Hc). }
  { apply rays_NoDup. }
  exists (l4 ++ l5 ++ l6 ++ l7). split.
  - unfold emits in *. rewrite He7, He6, He5, He4, He3.
    rewrite app_nil_r, <- !app_assoc. reflexivity.
  - rewrite !destroyed_in_app, Hd4, Hd5, Hd6, Hd7. simpl.
    unfold blocks_at at 1. replace (blocks (doc s3)) with (blocks (doc s)) by reflexivity.
    reflexivity.
Qed.

Lemma detonation_destroys_each_block_once_witness :
  exists l, log block_blasted = log walled_in ++ l /\ destroyed_in l = [(3, 1)].
Proof.
  destruct (detonation_destroys_each_block_once 1 1 3 walled_in) as (_ & l & Hl & Hd).
  - reflexivity.
  - exists l. split; [exact Hl|]. rewrite Hd. vm_compute. reflexivity.
Defined.

(** ** Further properties: who receives the keyboard *)

Lemma handleHit_keyboard d s : keyboard (handleHit d s) = keyboard s.
Proof.
  unfold handleHit, setInvulnerable, removePlayerElement.
  repeat break_match; reflexivity.
Qed.

Lemma step_keyboard {TS : positive} PT spawn l s s' :
  step TS PT spawn l s = Some s' -> keyboard s' = keyboard s.
Proof.
  intros Hstep.
  destruct l;
    try (eapply (keeps_step (fun s1 => keyboard s1 = keyboard s));
         [..|exact Hstep|reflexivity];
         first [discriminate | intros; discriminate
               | intros; rewrite handleHit_keyboard; assumption
               | intros; assumption]).
  - simpl in Hstep. destruct (_ && _); [|discriminate]. injection Hstep as <-.
    reflexivity.
  - simpl in Hstep. destruct (next_timer (timers s)) as [u|]; [|discriminate].
    injection Hstep as <-.
    destruct (decide (act u = TInvulnerabilityEnd)) as [E | E].
    + rewrite E. reflexivity.
    + apply (keeps_run_timer (fun s1 => keyboard s1 = keyboard s));
        first [ exact E | reflexivity
              | intros; rewrite handleHit_keyboard; assumption
              | intros; assumption ].
Qed.

Lemma run_keyboard {TS : positive} PT spawn ls :
  forall s s', run TS PT spawn ls s = Some s' -> keyboard s' = keyboard s.
Proof.
  induction ls as [|l ls IH]; intros s s' Hrun; simpl in Hrun.
  - injection Hrun as <-. reflexivity.
  - destruct (step TS PT spawn l s) as [s1|] eqn:Hstep; [|discriminate].
    rewrite (IH _ _ Hrun). exact (step_keyboard (TS:=TS) _ _ _ _ _ Hstep).
Qed.

(** X8. Who receives the keyboard is settled when the player is
    constructed and never changes: the listener is installed exactly when
    [localStorage.playerId] is the player's identifier at that moment,
    and nothing removes or adds it later.  A player built while another
    identifier was stored ignores every key for life, also after the
    stored identifier becomes its own; a player built as the local one
    keeps handling keys whatever is stored later. *)
Theorem keyboard_is_settled_at_construction {TS : positive} PT spawn
    (id nick : string) (x y : Q) (c : bool) (n : option Z) (d : Document)
    (stored : option string) (t0 : Z) (ls : list Label) (s : State) :
  run TS PT spawn ls (construct TS id nick x y c n d stored t0) = Some s ->
  keyboard s = bool_decide (stored = Some id)
  /\ (stored <> Some id ->
      forall key, step TS PT spawn (KeyDown key) s = Some s)
  /\ (stored = Some id ->
      forall key, step TS PT spawn (KeyDown key) s = Some (handleKeyDown TS PT key s)).
Proof.
  intros Hrun.
  assert (Hk : keyboard s = bool_decide (stored = Some id)).
  { rewrite (run_keyboard (TS:=TS) _ _ _ _ _ Hrun).
    unfold construct. cbn [keyboard].
    assert (E : forall s0 : State, storedPlayerId s0 = stored -> pid (me s0) = id ->
                isLocalPlayer s0 = bool_decide (stored = Some id)).
    { intros s0 H1 H2. unfold isLocalPlayer. rewrite H1, H2.
      destruct stored as [i|].
      - destruct (String.eqb_spec id i) as [-> | Hne].
        + symmetry. apply bool_decide_eq_true. reflexivity.
        + symmetry. apply bool_decide_eq_false. congruence.
      - symmetry. apply bool_decide_eq_false. discriminate. }
    apply E; destruct c; reflexivity. }
  split; [exact Hk|]. split.
  - intros Hne key. simpl. rewrite Hk.
    rewrite (bool_decide_eq_false_2 _ Hne). reflexivity.
  - intros He key. simpl. rewrite Hk.
    rewrite (bool_decide_eq_true_2 _ He). reflexivity.
Qed.

Lemma keyboard_is_settled_at_construction_witness :
  step tile PowerUpType_strings no_spawn (KeyDown "ArrowRight") remote_renamed
  = Some remote_renamed.
Proof.
  refine (proj1 (proj2 (keyboard_is_settled_at_construction (TS:=tile)
            PowerUpType_strings no_spawn "p1" "Ann" 1 1 true None empty_scene
            (Some "p2") 0 [Storage (Some "p1")] remote_renamed _)) _ "ArrowRight").
  - reflexivity.
  - discriminate.
Defined.

(** ** Further properties: a player without its element *)

Lemma handleHit_element d s : playerElement (me (handleHit d s)) = playerElement (me s).
Proof.
  unfold handleHit, setInvulnerable, removePlayerElement.
  repeat break_match; reflexivity.
Qed.

Lemma createExplosion_element x y radius s :
  playerElement (me (createExplosion x y radius s)) = playerElement (me s).
Proof.
  apply (keeps_createExplosion
           (fun s1 => playerElement (me s1) = playerElement (me s)));
    first [ reflexivity
          | intros; rewrite handleHit_element; assumption
          | intros; assumption ].
Qed.

Lemma handleKeyDown_no_element {TS : positive} PT key s :
  playerElement (me s) = None -> handleKeyDown TS PT key s = s.
Proof. intros H. unfold handleKeyDown. rewrite H. reflexivity. Qed.

Lemma placeBomb_no_element s : playerElement (me s) = None -> placeBomb s = s.
Proof. intros H. unfold placeBomb. rewrite H. reflexivity. Qed.

Lemma step_no_element {TS : positive} PT spawn l s s' :
  step TS PT spawn l s = Some s' ->
  playerElement (me s) = None -> playerElement (me s') = None.
Proof.
  intros Hstep Hs.
  destruct l; simpl in Hstep; try (injection Hstep as <-); try exact Hs.
  - rewrite handleKeyDown_no_element by exact Hs. destruct (keyboard s); exact Hs.
  - apply (keeps_handlePowerUp (fun s1 => playerElement (me s1) = None));
      intros; assumption.
  - apply (keeps_handleStatUpdate (fun s1 => playerElement (me s1) = None));
      intros; assumption.
  - rewrite handleHit_element. exact Hs.
  - unfold setPosition, emitPositionUpdate, updateVisualPosition. simpl.
    rewrite Hs. simpl. exact Hs.
  - unfold move, emitPositionUpdate, updateVisualPosition.
    repeat break_if; simpl; rewrite ?Hs; simpl; first [exact Hs | reflexivity].
  - unfold removePlayerElement. rewrite Hs. exact Hs.
  - rewrite placeBomb_no_element; exact Hs.
  - rewrite createExplosion_element. exact Hs.
  - destruct (_ && _); [|discriminate]. injection Hstep as <-. exact Hs.
  - destruct (next_timer (timers s)) as [u|]; [|discriminate]. injection Hstep as <-.
    destruct (act u); cbn [run_timer];
      first [ exact Hs
            | rewrite createExplosion_element; exact Hs
            | cbn [playerElement me with_clock]; rewrite Hs; exact Hs
            | repeat break_match; exact Hs ].
Qed.

(** X9. Nothing gives a player its element back.  Once the player holds
    no element (none was created, or the removal timer of
    [removePlayerElement] has taken it out of the scene), it holds none
    in any later state, whatever happens; from then on every key press
    and every call of [placeBomb] leaves the state exactly as it is. *)
Theorem player_without_element_never_acts_again {TS : positive} PT spawn
    (ls : list Label) (s s' : State) :
  playerElement (me s) = None ->
  run TS PT spawn ls s = Some s' ->
  playerElement (me s') = None
  /\ (forall key, step TS PT spawn (KeyDown key) s' = Some s')
  /\ step TS PT spawn CallPlaceBomb s' = Some s'.
Proof.
  intros Hs Hrun.
  assert (H : playerElement (me s') = None).
  { revert s Hs Hrun. induction ls as [|l ls IH]; intros s Hs Hrun; simpl in Hrun.
    - injection Hrun as <-. exact Hs.
    - destruct (step TS PT spawn l s) as [s1|] eqn:Hstep; [|discriminate].
      exact (IH s1 (step_no_element (TS:=TS) _ _ _ _ _ Hstep Hs) Hrun). }
  split; [exact H|]. split.
  - intros key. simpl. rewrite handleKeyDown_no_element by exact H.
    destruct (keyboard s'); reflexivity.
  - simpl. rewrite placeBomb_no_element by exact H. reflexivity.
Qed.

Lemma player_without_element_never_acts_again_witness :
  step tile PowerUpType_strings no_spawn CallPlaceBomb
    (outcome PowerUpType_strings [Idle 1500; Fire] gone)
  = Some (outcome PowerUpType_strings [Idle 1500; Fire] gone).
Proof.
  refine (proj2 (proj2 (player_without_element_never_acts_again (TS:=tile)
            PowerUpType_strings no_spawn [Idle 1500; Fire] gone _ _ _))).
  - vm_compute. reflexivity.
  - vm_compute. reflexivity.
Defined.

(** ** Further properties: what a pause does not stop *)

Lemma fold_left_commute {A B} (F : A -> A) (g : A -> B -> A) (l : list B) :
  (forall a x, g (F a) x = F (g a x)) ->
  forall a, fold_left g l (F a) = F (fold_left g l a).
Proof.
  intros H. induction l as [|x l IH]; intros a; simpl; [reflexivity|].
  rewrite H. apply IH.
Qed.

Section Flags.

Variable p : bool.
Variable o : bool.

Lemma handleHit_flags d s :
  handleHit d (with_flags p o s) = with_flags p o (handleHit d s).
Proof.
  unfold handleHit. cbn [me with_flags].
  destruct (negb (strict_eq (hit_playerId d) (JString (pid (me s))))); [reflexivity|].
  destruct (invulnerable (me s)); [reflexivity|].
  unfold setInvulnerable, removePlayerElement.
  destruct (playerElement (me s)) eqn:Hel;
    destruct (invulnerabilityTimer (me s)) eqn:Htm;
    repeat (progress (hit_cbn; rewrite ?Hel, ?Htm));
    repeat (break_match; try reflexivity).
Qed.

Lemma emit_player_hit_flags d s :
  emit_player_hit d (with_flags p o s) = with_flags p o (emit_player_hit d s).
Proof. unfold emit_player_hit. apply (handleHit_flags d (emit _ s)). Qed.

Lemma checkPlayerHit_flags x y s :
  checkPlayerHit x y (with_flags p o s) = with_flags p o (checkPlayerHit x y s).
Proof.
  unfold checkPlayerHit.
  change (players (doc (with_flags p o s))) with (players (doc s)).
  apply fold_left_commute. intros a el.
  break_if; [apply emit_player_hit_flags | reflexivity].
Qed.

Lemma destroy_block_flags x y s b :
  destroy_block x y (with_flags p o s) b = with_flags p o (destroy_block x y s b).
Proof.
  unfold destroy_block, isLocalPlayer.
  cbn [storedPlayerId me with_flags setTimeout emit]. repeat break_match; reflexivity.
Qed.

Lemma destroyBlockAt_flags (x y : Z) (D : gset Cell) (s : State) :
  destroyBlockAt x y D (with_flags p o s)
  = (fst (fst (destroyBlockAt x y D s)), snd (fst (destroyBlockAt x y D s)),
     with_flags p o (snd (destroyBlockAt x y D s))).
Proof.
  unfold destroyBlockAt.
  change (gameContainer (me (with_flags p o s))) with (gameContainer (me s)).
  change (blocks (doc (with_flags p o s))) with (blocks (doc s)).
  repeat break_if; try reflexivity.
  cbn [fst snd]. f_equal. apply fold_left_commute. intros. apply destroy_block_flags.
Qed.

Lemma ray_body_flags (dir : Dir) (ex ey : Z) (D : gset Cell) (s : State) :
  ray_body dir ex ey D (with_flags p o s)
  = (fst (ray_body dir ex ey D s), with_flags p o (snd (ray_body dir ex ey D s))).
Proof.
  unfold ray_body.
  change (gameContainer (me (createElement (with_flags p o s))))
    with (gameContainer (me (createElement s))).
  change (nextNode (with_flags p o s)) with (nextNode s).
  set (s1 := if gameContainer (me (createElement s))
             then append_explosion (nextNode s) (name dir) (ex, ey) (createElement s)
             else createElement s).
  assert (E1 : (if gameContainer (me (createElement s))
                then append_explosion (nextNode s) (name dir) (ex, ey)
                       (createElement (with_flags p o s))
                else createElement (with_flags p o s)) = with_flags p o s1).
  { subst s1. break_if; reflexivity. }
  rewrite E1, destroyBlockAt_flags.
  destruct (destroyBlockAt ex ey D s1) as [[w D1] s2]. cbn [fst snd].
  rewrite checkPlayerHit_flags. set (s3 := checkPlayerHit ex ey s2).
  change (isLocalPlayer (with_flags p o s3)) with (isLocalPlayer s3).
  change (me (with_flags p o s3)) with (me s3).
  change (self_hit (with_flags p o s3)) with (self_hit s3).
  rewrite emit_player_hit_flags.
  break_if; reflexivity.
Qed.

Lemma explosionRay_flags (dir : Dir) (x y : Z) (n : nat) :
  forall (i : Z) (D : gset Cell) (s : State),
    explosionRay dir x y n i (D, with_flags p o s)
    = (fst (explosionRay dir x y n i (D, s)),
       with_flags p o (snd (explosionRay dir x y n i (D, s)))).
Proof.
  induction n as [|n IH]; intros i D s; [reflexivity|].
  rewrite !explosionRay_S. break_if; [reflexivity|].
  cbv zeta. rewrite ray_body_flags.
  destruct (ray_body dir (x + dx dir * i) (y + dy dir * i) D s) as [[w D1] s1].
  cbn [fst snd]. destruct w; [reflexivity|]. apply IH.
Qed.

Lemma createExplosion_flags (x y : Z) (radius : Q) (s : State) :
  createExplosion x y radius (with_flags p o s)
  = with_flags p o (createExplosion x y radius s).
Proof.
  unfold createExplosion.
  change (gameContainer (me (with_flags p o s))) with (gameContainer (me s)).
  break_if; [reflexivity|].
  change (gameContainer (me (createElement (with_flags p o s))))
    with (gameContainer (me (createElement s))).
  change (nextNode (with_flags p o s)) with (nextNode s).
  set (s1 := setTimeout (TExplosionRemove (nextNode s)) 500
               (if gameContainer (me (createElement s))
                then append_explosion (nextNode s) "center" (x, y) (createElement s)
                else createElement s)).
  assert (E1 : setTimeout (TExplosionRemove (nextNode s)) 500
                 (if gameContainer (me (createElement s))
                  then append_explosion (nextNode s) "center" (x, y)
                         (createElement (with_flags p o s))
                  else createElement (with_flags p o s))
               = with_flags p o s1).
  { subst s1. break_if; reflexivity. }
  rewrite E1, destroyBlockAt_flags.
  destruct (destroyBlockAt x y ∅ s1) as [[w D1] s2]. cbn [fst snd].
  rewrite checkPlayerHit_flags. set (s3 := checkPlayerHit x y s2).
  change (isLocalPlayer (with_flags p o s3)) with (isLocalPlayer s3).
  change (me (with_flags p o s3)) with (me s3).
  change (self_hit (with_flags p o s3)) with (self_hit s3).
  rewrite emit_player_hit_flags.
  set (s4 := if isLocalPlayer s3 && cell_eqb (cell_of (px (me s3)) (py (me s3))) (x, y)
             then emit_player_hit (self_hit s3) s3 else s3).
  assert (E4 : (if isLocalPlayer s3 && cell_eqb (cell_of (px (me s3)) (py (me s3))) (x, y)
                then with_flags p o (emit_player_hit (self_hit s3) s3)
                else with_flags p o s3) = with_flags p o s4).
  { subst s4. break_if; reflexivity. }
  rewrite E4.
  change (D1, with_flags p o s4)
    with ((fun acc : gset Cell * State => (fst acc, with_flags p o (snd acc))) (D1, s4)).
  rewrite fold_left_commute; [reflexivity|].
  intros [D s0] dir. cbn [fst snd]. apply explosionRay_flags.
Qed.

Lemma run_timer_flags {TS : positive} spawn a s :
  run_timer TS spawn a (with_flags p o s) = with_flags p o (run_timer TS spawn a s).
Proof.
  destruct a; cbn [run_timer]; try reflexivity.
  - cbn [me with_flags doc]. repeat break_match; reflexivity.
  - cbn [me with_flags doc]. repeat break_if; reflexivity.
  - exact (createExplosion_flags gridX gridY (explosionRange (me s))
             (with_me (set_activeBombs (activeBombs (me s) - 1))
                (with_doc (fun d => set_bombs (remove_node fst bomb (bombs d)) d) s))).
  - break_match; [|reflexivity]. cbn [me with_flags]. break_if; reflexivity.
Qed.

Lemma handlePowerUp_flags PT d s :
  handlePowerUp PT d (with_flags p o s) = with_flags p o (handlePowerUp PT d s).
Proof.
  unfold handlePowerUp. cbn [me with_flags]. repeat break_if; reflexivity.
Qed.

Lemma handleStatUpdate_flags PT d s :
  handleStatUpdate PT d (with_flags p o s) = with_flags p o (handleStatUpdate PT d s).
Proof.
  unfold handleStatUpdate. cbn [me with_flags]. repeat break_if; reflexivity.
Qed.

End Flags.

(** X10. A pause stops input and nothing else.  Only the key handler,
    [move] and [placeBomb] read the pause and game-over flags; every
    other operation (a hit, a power-up or stat event, [setPosition],
    [setDirection], [createExplosion], the passing of time and the expiry
    of any timer, a fuse included) does exactly what it does in a running
    game, whatever the flags hold, and leaves the flags as they are. *)
Theorem pause_stops_only_input {TS : positive} PT spawn (l : Label) (p o : bool) (s : State) :
  consults_flags l = false ->
  step TS PT spawn l (with_flags p o s)
  = option_map (with_flags p o) (step TS PT spawn l s).
Proof.
  intros Hl. destruct l; try discriminate Hl; cbn [step option_map].
  - f_equal. apply handlePowerUp_flags.
  - f_equal. apply handleStatUpdate_flags.
  - f_equal. apply handleHit_flags.
  - f_equal. unfold setPosition, emitPositionUpdate, updateVisualPosition.
    cbn [me with_flags with_me playerElement set_position]. break_match; reflexivity.
  - reflexivity.
  - reflexivity.
  - f_equal. unfold removePlayerElement. cbn [me with_flags doc].
    repeat break_match; reflexivity.
  - f_equal. apply createExplosion_flags.
  - reflexivity.
  - reflexivity.
  - cbn [now timers with_flags]. break_if; reflexivity.
  - cbn [now timers with_flags]. break_match; [|reflexivity]. cbn [option_map].
    f_equal. apply (run_timer_flags (TS:=TS) p o spawn (act t) (with_clock _ _ s)).
Qed.

Lemma pause_stops_only_input_witness :
  step tile PowerUpType_strings no_spawn (PlayerHit (hit_by "p2")) (with_flags true true fresh)
  = Some (with_flags true true hit_once).
Proof.
  exact (pause_stops_only_input (TS:=tile) PowerUpType_strings no_spawn
           (PlayerHit (hit_by "p2")) true true fresh eq_refl).
Defined.

(** ** Further properties: where a player can stand *)

Lemma Qfloor_range (x : Q) (n : Z) :
  (0 <= x)%Q -> (x < inject_Z n)%Q -> 0 <= Qfloor x < n.
Proof.
  intros H0 Hn. split.
  - change 0 with (Qfloor 0). apply Qfloor_resp_le, H0.
  - rewrite Zlt_Qlt. eapply Qle_lt_trans; [apply Qfloor_le | exact Hn].
Qed.

(** X11. Every position a key press can take the player to lies on a
    cell of columns 1..13 and rows 1..15, and that cell is one a blast
    may enter: nothing that [isValidPosition] accepts is out of reach of
    [isValidExplosionPosition]. *)
Theorem walkable_cells_are_open_to_blasts (d : Document) (x y : Q) :
  isValidPosition d x y = true ->
  1 <= Qfloor x <= 13 /\ 1 <= Qfloor y <= 15
  /\ isValidExplosionPosition (Qfloor x) (Qfloor y) = true.
Proof.
  intros H.
  destruct (isValidPosition_true d x y H) as (Hx0 & Hx1 & Hy0 & Hy1 & Hw & _).
  pose proof (Qfloor_range x GRID_WIDTH Hx0 Hx1) as Hx.
  pose proof (Qfloor_range y GRID_HEIGHT Hy0 Hy1) as Hy.
  unfold GRID_WIDTH, GRID_HEIGHT in Hx, Hy.
  assert (Hnz : Qfloor x <> 0 /\ Qfloor y <> 0).
  { unfold is_wall in Hw.
    apply orb_false_iff in Hw. destruct Hw as [Hw Hy2].
    apply orb_false_iff in Hw. destruct Hw as [_ Hx2].
    split; [apply Z.eqb_neq, Hx2 | apply Z.eqb_neq, Hy2]. }
  split; [lia|]. split; [lia|].
  rewrite isValidExplosionPosition_spec, Hw. unfold GRID_WIDTH, GRID_HEIGHT.
  destruct (Z.leb_spec 0 (Qfloor x)), (Z.leb_spec 0 (Qfloor y)),
    (Z.leb_spec (Qfloor x) 14), (Z.leb_spec (Qfloor y) 16); first [lia | reflexivity].
Qed.

Lemma walkable_cells_are_open_to_blasts_witness :
  isValidExplosionPosition (Qfloor 1) (Qfloor 1) = true.
Proof.
  refine (proj2 (proj2 (walkable_cells_are_open_to_blasts empty_scene 1 1 _))).
  reflexivity.
Defined.

(** ** Further properties: where the player's element is drawn *)

(** On a coordinate that is not negative the pixel round trip is the
    floor. *)
Lemma style_coord_nonneg (TS : positive) (x : Q) :
  (0 <= x)%Q -> style_coord TS x = Qfloor x.
Proof.
  destruct x as [n d]. unfold Qle. cbn [Qnum Qden]. intros H.
  assert (Hn : 0 <= n) by lia.
  unfold style_coord, parseInt_px, Qfloor, Qdiv, Qinv, Qmult, inject_Z.
  cbn [Qnum Qden]. rewrite !Pos.mul_1_r, !Pos.mul_1_l, !Z.mul_1_r.
  rewrite Z.quot_div_nonneg by lia.
  rewrite Z.div_div by lia.
  rewrite Z.div_mul_cancel_r by lia. reflexivity.
Qed.

(** Just below 0 the two differ: half a pixel to the left of the origin
    is cut to pixel 0, read as column 0, while the position floors to
    column -1. *)
Lemma style_coord_above_floor (TS : positive) :
  style_coord TS (-1 # (2 * TS)) = 0 /\ Qfloor (-1 # (2 * TS)) = -1.
Proof.
  split.
  - unfold style_coord, parseInt_px, Qfloor, Qdiv, Qinv, Qmult, inject_Z.
    cbn [Qnum Qden]. rewrite !Pos.mul_1_r.
    assert (E : Z.quot (-1 * Z.pos TS) (Z.pos (2 * TS)) = 0).
    { change (-1 * Z.pos TS) with (- Z.pos TS).
      rewrite Z.quot_opp_l by lia. rewrite Z.quot_small by lia. reflexivity. }
    rewrite E. reflexivity.
  - unfold Qfloor. symmetry.
    apply (Z.div_unique _ _ _ (Z.pos (2 * TS) - 1)); lia.
Qed.

Lemma same_place_refl s : same_place s s.
Proof. unfold same_place. repeat split. Qed.

Lemma same_place_trans s1 s2 s3 : same_place s1 s2 -> same_place s2 s3 -> same_place s1 s3.
Proof. unfold same_place. intros (A & B & C & D) (A' & B' & C' & D'). repeat split; congruence. Qed.

Lemma rendered_same_place TS s s' :
  same_place s s' -> rendered_in_place TS s -> rendered_in_place TS s'.
Proof.
  intros (A & B & C & D) H e He Hn. rewrite A in He. rewrite D in Hn.
  rewrite B, C. exact (H e He Hn).
Qed.

Lemma handleHit_same_place d s : same_place s (handleHit d s).
Proof.
  destruct (handleHit_quiet d s) as ((_ & A & _ & B & C & _) & _).
  split; [exact A|]. split; [exact B|]. split; [exact C|]. apply handleHit_element.
Qed.

Ltac place_side :=
  first [ reflexivity
        | intros; eapply same_place_trans; [eassumption | apply handleHit_same_place]
        | intros; assumption ].

Lemma createExplosion_same_place x y radius s : same_place s (createExplosion x y radius s).
Proof.
  apply (keeps_createExplosion (same_place s)); first [ apply same_place_refl | place_side ].
Qed.

Lemma handlePowerUp_same_place PT d s : same_place s (handlePowerUp PT d s).
Proof.
  apply (keeps_handlePowerUp (same_place s)); first [ apply same_place_refl | place_side ].
Qed.

Lemma handleStatUpdate_same_place PT d s : same_place s (handleStatUpdate PT d s).
Proof.
  apply (keeps_handleStatUpdate (same_place s)); first [ apply same_place_refl | place_side ].
Qed.

Lemma placeBomb_same_place s : same_place s (placeBomb s).
Proof. unfold placeBomb, same_place. repeat break_if; simpl; repeat split. Qed.

Lemma checkForVisiblePowerUp_same_place PT s : same_place s (checkForVisiblePowerUp PT s).
Proof.
  unfold checkForVisiblePowerUp. rewrite collect_powerup_first.
  destruct (find _ (powerups (doc s))) as [el|]; [|apply same_place_refl].
  unfold collect_powerup. repeat break_match; try apply same_place_refl.
  cbn [snd]. unfold emit_powerup_applied.
  match goal with
  | |- same_place s (emit ?e (handlePowerUp PT ?d ?s0)) =>
      change (same_place s0 (handlePowerUp PT d s0))
  end.
  apply handlePowerUp_same_place.
Qed.

Lemma rendered_updateVisualPosition TS s : rendered_in_place TS (updateVisualPosition TS s).
Proof.
  unfold rendered_in_place, updateVisualPosition.
  destruct (playerElement (me s)) as [n|] eqn:Hn; simpl; [|congruence].
  intros e He Hne. rewrite Hn in Hne. injection Hne as Hne.
  apply in_map_iff in He. destruct He as (e0 & He0 & _).
  destruct (Nat.eqb_spec (el_node e0) n) as [E | E].
  - rewrite <- He0. reflexivity.
  - exfalso. apply E. rewrite He0. symmetry. exact Hne.
Qed.

Lemma rendered_moved TS x y s :
  rendered_in_place TS
    (emitPositionUpdate (updateVisualPosition TS (with_me (set_position x y) s))).
Proof. exact (rendered_updateVisualPosition TS (with_me (set_position x y) s)). Qed.

Lemma rendered_handleKeyDown TS PT key s :
  rendered_in_place TS s -> rendered_in_place TS (handleKeyDown TS PT key s).
Proof.
  intros Hs. unfold handleKeyDown.
  destruct (negb (bool_decide (is_Some (playerElement (me s))))); [exact Hs|].
  destruct (isGamePaused s || isGameOver s); [exact Hs|].
  destruct (if String.eqb key "ArrowUp" then _ else _) as [[[newX newY] d]|].
  - destruct (isValidPosition _ newX newY); [|exact Hs].
    pose proof (rendered_moved TS newX newY (with_me (set_heading d (moving (me s))) s))
      as H1.
    break_if; [|exact H1].
    refine (rendered_same_place TS _ _ _ H1).
    eapply same_place_trans; [apply checkForVisiblePowerUp_same_place|].
    unfold same_place. repeat split.
  - break_if; [|exact Hs].
    exact (rendered_same_place TS _ _ (placeBomb_same_place s) Hs).
Qed.

Lemma rendered_run_timer TS spawn a s :
  rendered_in_place TS s -> rendered_in_place TS (run_timer TS spawn a s).
Proof.
  intros Hs. destruct a; cbn [run_timer]; try exact Hs.
  - repeat break_match; try exact Hs. intros e _ H. discriminate H.
  - repeat break_if; try exact Hs.
    intros e He Hn. cbn in He, Hn |- *. apply in_app_or in He. destruct He as [He | [<- | []]].
    + exact (Hs e He Hn).
    + reflexivity.
  - refine (rendered_same_place TS _ _ (createExplosion_same_place _ _ _ _) _). exact Hs.
  - repeat break_match; exact Hs.
Qed.

Lemma rendered_step TS PT spawn l s s' :
  (forall d, l <> Scene d) ->
  step TS PT spawn l s = Some s' -> rendered_in_place TS s -> rendered_in_place TS s'.
Proof.
  intros Hl Hstep Hs.
  destruct l; simpl in Hstep; try (injection Hstep as <-); try exact Hs.
  - break_if; [apply rendered_handleKeyDown|]; exact Hs.
  - exact (rendered_same_place TS _ _ (handlePowerUp_same_place PT data s) Hs).
  - exact (rendered_same_place TS _ _ (handleStatUpdate_same_place PT data s) Hs).
  - exact (rendered_same_place TS _ _ (handleHit_same_place data s) Hs).
  - apply rendered_moved.
  - unfold move. repeat break_if; try exact Hs. apply rendered_moved.
  - unfold removePlayerElement. repeat break_match; exact Hs.
  - exact (rendered_same_place TS _ _ (placeBomb_same_place s) Hs).
  - exact (rendered_same_place TS _ _ (createExplosion_same_place x y radius s) Hs).
  - exfalso. exact (Hl d eq_refl).
  - destruct (_ && _); [|discriminate]. injection Hstep as <-. exact Hs.
  - destruct (next_timer (timers s)) as [u|]; [|discriminate]. injection Hstep as <-.
    apply rendered_run_timer. exact Hs.
Qed.

(** X12. The element a player holds is drawn where the player is.  In
    every state reached from a newly created player without other code
    rewriting the scene (and with no element of the initial scene
    bearing the handle of the element the constructor creates), an
    element of class [player] with the handle of [playerElement] is read
    back on the cell written for the player's position; when both
    coordinates of the position are at least 0 that cell is the one the
    position floors to, the cell the blast checks use for the player.
    (At a negative position that is not whole the two can differ: the
    pixel value is cut toward zero, the position is floored.) *)
Theorem player_element_is_drawn_in_place TS PT spawn
    (id nick : string) (x y : Q) (c : bool) (n : option Z) (d : Document)
    (stored : option string) (t0 : Z) (ls : list Label) (s : State) :
  (forall e, In e (players d) -> el_node e <> O) ->
  (forall d', ~ In (Scene d') ls) ->
  run TS PT spawn ls (construct TS id nick x y c n d stored t0) = Some s ->
  forall e, In e (players (doc s)) -> playerElement (me s) = Some (el_node e) ->
    el_cell e = style_cell TS (px (me s)) (py (me s))
    /\ ((0 <= px (me s))%Q -> (0 <= py (me s))%Q ->
        el_cell e = cell_of (px (me s)) (py (me s))).
Proof.
  intros Hd Hls Hrun.
  assert (H0 : rendered_in_place TS (construct TS id nick x y c n d stored t0)).
  { unfold construct. destruct c; intros e He Hn; cbn in He, Hn |- *.
    - apply in_app_or in He. destruct He as [He | [<- | []]]; [|reflexivity].
      exfalso. apply (Hd e He). congruence.
    - discriminate Hn. }
  assert (H : rendered_in_place TS s).
  { revert Hls Hrun H0. generalize (construct TS id nick x y c n d stored t0).
    induction ls as [|l ls IH]; intros s0 Hls Hrun H0; simpl in Hrun.
    - injection Hrun as <-. exact H0.
    - destruct (step TS PT spawn l s0) as [s1|] eqn:Hstep; [|discriminate].
      apply (IH s1); [|exact Hrun|].
      + intros d' Hin. apply (Hls d'). right. exact Hin.
      + refine (rendered_step TS PT spawn l s0 s1 _ Hstep H0).
        intros d' ->. apply (Hls d'). left. reflexivity. }
  intros e He Hn. split; [exact (H e He Hn)|].
  intros Hx Hy. rewrite (H e He Hn). unfold style_cell, cell_of.
  rewrite !style_coord_nonneg by assumption. reflexivity.
Qed.

Lemma player_element_is_drawn_in_place_witness :
  players (doc moved_half)
  = [ {| el_node := O; el_id := "p1"; el_cell := (1, 1) |} ]
  /\ el_cell {| el_node := O; el_id := "p1"; el_cell := (1, 1) |}
     = cell_of (px (me moved_half)) (py (me moved_half)).
Proof.
  split; [vm_compute; reflexivity|].
  refine (proj2 (player_element_is_drawn_in_place tile PowerUpType_strings no_spawn
                   "p1" "Ann" 1 1 true None empty_scene (Some "p1") 0
                   [CallSetPosition (3 # 2) 1] moved_half _ _ _ _ _ _) _ _).
  - intros e [].
  - intros d' [H | []]. discriminate H.
  - vm_compute. reflexivity.
  - left. reflexivity.
  - reflexivity.
  - vm_compute. discriminate.
  - vm_compute. discriminate.
Defined.
